(** * Visual-Climate-Demo: the ETL collector and the analytics engine

    A shallow embedding of [backend/src/collectors/deep_un.py] and
    [backend/src/logic/analytics.py].

    Numbers.  The Python code computes with IEEE doubles; here a float is an
    exact rational ([Q]) and [NaN]/[None] in a pandas cell is [None].  The
    arithmetic is the one the code writes, without rounding error.  Library
    functions that leave the rationals (numpy's [power], the p-values of
    scipy) are parameters of the sections that use them. *)

From Stdlib Require Import Ascii String ZArith QArith Qround Lia Lqa.
From Stdlib Require Import Rbase Rfunctions R_sqrt Rbasic_fun Qreals Lra.
From stdpp Require Import base option list strings pretty gmap sorting.

Local Open Scope Z_scope.

(** ** Exceptions *)

Inductive exn :=
  ValueError | TypeError | IndexError | KeyError | AttributeError | ZeroDivisionError.

Inductive result (A : Type) :=
  | Ok (a : A)
  | Raise (e : exn).
Arguments Ok {A} a.
Arguments Raise {A} e.

#[global] Instance result_ret : MRet result := fun _ a => Ok a.
#[global] Instance result_bind : MBind result := fun _ _ k m =>
  match m with
  | Ok a => k a
  | Raise e => Raise e
  end.

Definition is_ok {A} (m : result A) : bool :=
  match m with Ok _ => true | Raise _ => false end.

(** ** Configuration *)

(** [WB_AGGREGATE_CODES]: World Bank aggregate / region codes. *)
Definition WB_AGGREGATE_CODES : gset string := list_to_set [
  "WLD"; "EAS"; "ECS"; "LCN"; "MEA"; "NAC"; "SAS"; "SSF";
  "EAP"; "ECA"; "LAC"; "MNA"; "SSA"; "HIC"; "LIC"; "LMC";
  "LMY"; "MIC"; "UMC"; "ARB"; "CEB"; "CSS"; "EAR"; "EMU";
  "FCS"; "HPC"; "IBD"; "IBT"; "IDA"; "IDB"; "IDX"; "INX";
  "LDC"; "LTE"; "OED"; "OSS"; "PRE"; "PSS"; "PST"; "SST";
  "TEA"; "TEC"; "TLA"; "TMN"; "TSA"; "TSS"; "AFE"; "AFW" ].

(** ** Raw provider records

    One element of the list the provider returns.  For the code, date and
    value [rec.get(k)] is [None] both when the key is missing and when it
    holds JSON [null].  [rec_country] is [None] when the key is missing (the
    code then takes the default [{}]) and [CountryOther] when it holds
    anything that is not a dict. *)

Inductive country_obj :=
  | CountryDict (name : option string)   (* {"value": name, ...} or no "value" key *)
  | CountryOther.                        (* present, but not a dict *)

Record raw_record := RawRecord {
  rec_countryiso3code : option string;
  rec_date : option string;
  rec_value : option Q;
  rec_country : option country_obj }.

(** ** Python's [int(str)] on a decimal literal

    An optional sign followed by at least one ASCII digit.  Any other text
    makes [int] raise [ValueError] (surrounding blanks and digit-group
    underscores, which [int] also accepts, are not sent by the provider and
    count as unparseable here). *)

Definition digit_of (a : ascii) : option Z :=
  let n := Z.of_nat (nat_of_ascii a) in
  if (48 <=? n) && (n <=? 57) then Some (n - 48) else None.

Fixpoint digits_to_Z (acc : Z) (s : string) : option Z :=
  match s with
  | EmptyString => Some acc
  | String a s' =>
      match digit_of a with
      | Some d => digits_to_Z (10 * acc + d) s'
      | None => None
      end
  end.

Definition unsigned_to_Z (s : string) : option Z :=
  match s with
  | EmptyString => None
  | _ => digits_to_Z 0 s
  end.

Definition py_int (s : string) : result Z :=
  let parsed :=
    match s with
    | String "-" s' => Z.opp <$> unsigned_to_Z s'
    | String "+" s' => unsigned_to_Z s'
    | _ => unsigned_to_Z s
    end in
  match parsed with
  | Some z => Ok z
  | None => Raise ValueError
  end.

(** ** A pandas DataFrame with a year index and one column per country

    [df_data] is column-major: one list per entry of [df_columns], each as
    long as [df_index].  A NaN cell is [None]. *)

Record DataFrame := mkDataFrame {
  df_index : list Z;
  df_columns : list string;
  df_data : list (list (option Q)) }.

(** [pd.DataFrame()] *)
Definition empty_frame : DataFrame := mkDataFrame [] [] [].

(** [df.empty]: some axis has length 0. *)
Definition df_empty (df : DataFrame) : bool :=
  bool_decide (df_index df = []) || bool_decide (df_columns df = []).

(** [len(df)] *)
Definition df_len (df : DataFrame) : nat := length (df_index df).

(** Shape: one column of data per column label, each as long as the index. *)
Definition frame_wf (df : DataFrame) : Prop :=
  length (df_data df) = length (df_columns df) /\
  Forall (fun col => length col = df_len df) (df_data df).

Definition position {A} `{EqDecision A} (x : A) (l : list A) : option nat :=
  fst <$> list_find (fun y => y = x) l.

(** [df[iso3]]: the column of a country, when it is one of [df.columns]. *)
Definition df_column (df : DataFrame) (c : string) : option (list (option Q)) :=
  j ← position c (df_columns df); df_data df !! j.

(** The cell at (year, country): [None] when the row or the column does not
    exist and when the cell is NaN. *)
Definition df_cell (df : DataFrame) (y : Z) (c : string) : option Q :=
  col ← df_column df c; i ← position y (df_index df); mjoin (col !! i).

(** ** TRANSFORM: the record loop of [_records_to_dataframe] *)

Record row := Row { row_iso3 : string; row_year : Z; row_value : option Q }.

Definition register_name (names : gmap string string) (iso3 : string)
    (country : option country_obj) : gmap string string :=
  (* country_obj = rec.get("country", {}) *)
  let country_obj := default (CountryDict None) country in
  match names !! iso3, country_obj with
  | None, CountryDict v => <[iso3 := default iso3 v]> names
  | _, _ => names
  end.

Fixpoint collect_rows (records : list raw_record) (rows : list row)
    (names : gmap string string) : result (list row * gmap string string) :=
  match records with
  | [] => Ok (rows, names)
  | rec :: rest =>
      let iso3 := default "" (rec_countryiso3code rec) in
      if bool_decide (iso3 = "") || bool_decide (iso3 ∈ WB_AGGREGATE_CODES)
      then collect_rows rest rows names
      else
        match rec_date rec with
        | None => collect_rows rest rows names
        | Some year =>
            y ← py_int year;
            collect_rows rest (rows ++ [Row iso3 y (rec_value rec)])
                         (register_name names iso3 (rec_country rec))
        end
  end.

(** What the loop keeps of a record: the country code, the text of the year
    and the value, when the code is not empty, not an aggregate code, and the
    record has a date. *)
Definition surviving (rec : raw_record) : option (string * string * option Q) :=
  let iso3 := default "" (rec_countryiso3code rec) in
  if bool_decide (iso3 = "") || bool_decide (iso3 ∈ WB_AGGREGATE_CODES)
  then None
  else year ← rec_date rec; Some (iso3, year, rec_value rec).

(** A row stems from a surviving record. *)
Definition row_from (k : string * string * option Q) (r : row) : Prop :=
  row_iso3 r = k.1.1 /\ py_int k.1.2 = Ok (row_year r) /\ row_value r = k.2.

(** ** TRANSFORM: [pd.DataFrame(rows).pivot_table(index="year",
    columns="iso3", values="value", aggfunc="first")]

    pandas groups the rows by (year, iso3), takes per group the first value
    that is not null ([GroupBy.first] skips nulls), drops the groups left
    without a value ([dropna=True], the default), and unstacks: the index is
    the ascending list of the years of the surviving groups, the columns the
    ascending list of their country codes. *)

Definition first_value (rows : list row) (y : Z) (c : string) : option Q :=
  head (omap (fun r =>
          if bool_decide (row_year r = y /\ row_iso3 r = c)
          then row_value r else None) rows).

Definition pivot_table (rows : list row) : DataFrame :=
  let kept := filter (fun r => is_Some (row_value r)) rows in
  let index := merge_sort Z.le (remove_dups (row_year <$> kept)) in
  let columns := merge_sort String.le (remove_dups (row_iso3 <$> kept)) in
  mkDataFrame index columns
    ((fun c => (fun y => first_value rows y c) <$> index) <$> columns).

(** [df.sort_index()]: the rows in ascending order of their label (an
    argsort of the index, then every column is taken in that order). *)

Definition label_le (a b : Z * nat) : Prop := a.1 <= b.1.

#[global] Instance label_le_dec a b : Decision (label_le a b).
Proof. unfold label_le. apply _. Defined.

Definition sort_index (df : DataFrame) : DataFrame :=
  let order := merge_sort label_le (zip (df_index df) (seq 0 (df_len df))) in
  mkDataFrame (order.*1) (df_columns df)
    ((fun col => (fun p : Z * nat => mjoin (col !! p.2)) <$> order) <$> df_data df).

(** ** TRANSFORM: [df.interpolate(method="linear", limit=3, axis=0)]

    pandas works column by column ([limit_direction] is "forward" and
    [limit_area] is unset by default).  With method "linear" the index labels
    are ignored and the rows count as equally spaced: the abscissa of a row
    is its position.  For one column:
      - nothing changes when no cell or every cell is valid;
      - every NaN is given [np.interp] of its position over the valid cells:
        linear between the two neighbouring valid cells, the last valid
        value after the last valid cell;
      - then the NaNs to preserve are put back: those before the first valid
        cell, and each NaN at position [x] such that the cells at
        [max(0, x-limit) .. x] are all NaN. *)

Fixpoint valid_points_from (i : nat) (y : list (option Q)) : list (nat * Q) :=
  match y with
  | [] => []
  | Some v :: y' => (i, v) :: valid_points_from (S i) y'
  | None :: y' => valid_points_from (S i) y'
  end.

Definition valid_points (y : list (option Q)) : list (nat * Q) :=
  valid_points_from 0 y.

Definition Qnat (n : nat) : Q := inject_Z (Z.of_nat n).

(** [np.interp(x, xp, fp)] for ascending [xp], the points given as pairs. *)
Fixpoint np_interp (x : nat) (pts : list (nat * Q)) : option Q :=
  match pts with
  | [] => None
  | (x0, y0) :: rest =>
      match rest with
      | [] => Some y0
      | (x1, y1) :: _ =>
          if (x <=? x0)%nat then Some y0
          else if (x <? x1)%nat
               then Some (((y1 - y0) / (Qnat x1 - Qnat x0)) * (Qnat x - Qnat x0) + y0)%Q
               else np_interp x rest
      end
  end.

(** The point [k] steps out of [n] on the straight line from [a] to [b]. *)
Definition lerp (a b : Q) (k n : nat) : Q :=
  (a + (b - a) * Qnat k / Qnat n)%Q.

Definition isna (v : option Q) : bool := bool_decide (v = None).

(** [_interp_limit(invalid, limit, 0)], in the form its docstring gives:
    [x] is kept NaN when [invalid[max(0, x - limit) : x + 1].all()]. *)
Definition interp_limit (invalid : list bool) (limit x : nat) : bool :=
  forallb id (take (S x - (x - limit)) (drop (x - limit) invalid)).

Definition first_valid_index (invalid : list bool) : nat :=
  default 0%nat (fst <$> list_find (fun b => b = false) invalid).

Definition interpolate_1d (limit : nat) (y : list (option Q)) : list (option Q) :=
  let invalid := isna <$> y in
  if forallb id invalid || forallb negb invalid then y
  else
    let pts := valid_points y in
    let start := first_valid_index invalid in
    imap (fun x v =>
            match v with
            | Some _ => v
            | None =>
                if (x <? start)%nat || interp_limit invalid limit x
                then None
                else np_interp x pts
            end) y.

Definition interpolate (limit : nat) (df : DataFrame) : DataFrame :=
  mkDataFrame (df_index df) (df_columns df) (interpolate_1d limit <$> df_data df).

(** ** TRANSFORM: [_records_to_dataframe] *)

Definition records_to_dataframe (records : list raw_record)
    : result (DataFrame * gmap string string) :=
  match records with
  | [] => Ok (empty_frame, ∅)
  | _ =>
      '(rows, names) ← collect_rows records [] ∅;
      match rows with
      | [] => Ok (empty_frame, names)
      | _ =>
          let pivot := pivot_table rows in
          let pivot := sort_index pivot in
          let pivot := interpolate 3 pivot in
          Ok (pivot, names)
      end
  end.

(** ** Growth rates: [_compute_growth_rate]

    [np_power] is numpy's [power] on floats, which leaves the rationals. *)

(** [df.shift(window)] on one column: the values move down by [window] rows
    (up for a negative [window]); the vacated cells are NaN. *)
Definition shift (window : Z) (col : list (option Q)) : list (option Q) :=
  let n := length col in
  if 0 <=? window
  then take n (replicate (Z.to_nat window) None ++ col)
  else drop (Z.to_nat (- window)) col ++ replicate (Z.to_nat (- window) `min` n) None.

(** [x > 0] on a cell; a comparison with NaN is false. *)
Definition gt0 (v : option Q) : bool :=
  match v with
  | Some q => negb (Qle_bool q 0)
  | None => false
  end.

Section growth.
Variable np_power : Q -> Q -> Q.

(** One cell of
    [np.where((df > 0) & (start > 0), np.power(df / start, 1.0 / window) - 1, np.nan)]. *)
Definition growth_cell (window : Z) (cur start : option Q) : option Q :=
  if gt0 cur && gt0 start
  then
    match cur, start with
    | Some e, Some s => Some (np_power (e / s) (1 / inject_Z window) - 1)%Q
    | _, _ => None
    end
  else None.

Definition compute_growth_rate (df : DataFrame) (window : Z) : result DataFrame :=
  if df_empty df || (Z.of_nat (df_len df) <? window)
  then Ok empty_frame
  else if window =? 0
  then Raise ZeroDivisionError          (* 1.0 / window *)
  else Ok (mkDataFrame (df_index df) (df_columns df)
             ((fun col => zip_with (growth_cell window) col (shift window col))
                <$> df_data df)).
End growth.

(** ** Example record sets *)

Definition mk_record (iso3 year : string) (v : option Q) : raw_record :=
  RawRecord (Some iso3) (Some year) v None.

(** The scenario of the specification; the fields of the "WLD" record are
    left open there. *)
Definition scenario_records (wld : raw_record) : list raw_record :=
  [ wld;
    mk_record "USA" "2000" (Some 10%Q);
    mk_record "USA" "2001" None;
    mk_record "USA" "2002" (Some 20%Q) ].

Definition wld_record : raw_record := mk_record "WLD" "2001" (Some 100%Q).

(** Two records for the same year and country, the first without a value. *)
Definition duplicate_records : list raw_record :=
  [ mk_record "USA" "2000" None;
    mk_record "USA" "2000" (Some 7%Q);
    mk_record "USA" "2000" (Some 9%Q) ].

(** One country observed every year from 2000 to 2008, another one in 2000
    and 2005 only. *)
Definition sparse_records : list raw_record :=
  [ mk_record "USA" "2000" (Some 1%Q); mk_record "USA" "2005" (Some 6%Q) ] ++
  ((fun y => mk_record "CAN" y (Some 1%Q)) <$>
     ["2000"; "2001"; "2002"; "2003"; "2004"; "2005"; "2006"; "2007"; "2008"]).

(** One country observed from 2000 to 2004 and again in 2010. *)
Definition gap_records : list raw_record :=
  [ mk_record "USA" "2000" (Some 1%Q); mk_record "USA" "2001" (Some 2%Q);
    mk_record "USA" "2002" (Some 3%Q); mk_record "USA" "2003" (Some 4%Q);
    mk_record "USA" "2004" (Some 5%Q); mk_record "USA" "2010" (Some 6%Q) ].

Definition gap_frame : DataFrame :=
  mkDataFrame [2000; 2001; 2002; 2003; 2004; 2010] ["USA"]
    [[Some 1%Q; Some 2%Q; Some 3%Q; Some 4%Q; Some 5%Q; Some 6%Q]].

(** ** Policy clusters: [CLUSTERS], [INDICATORS], [INDICATOR_TO_CLUSTER] *)

Record cluster_def := ClusterDef {
  description : string;
  indicators : list (string * string) }.   (* short name, provider code; in order *)

Definition CLUSTERS : list (string * cluster_def) := [
  ("energy_transition", ClusterDef
     "Is this country actually decarbonizing, or just greenwashing?" [
       ("co2_emissions", "EN.GHG.CO2.PC.CE.AR5");
       ("renewable_energy", "EG.FEC.RNEW.ZS");
       ("fossil_fuel_energy_pct", "EG.USE.COMM.FO.ZS");
       ("access_electricity", "EG.ELC.ACCS.ZS");
       ("electric_power_kwh", "EG.USE.ELEC.KH.PC");
       ("energy_use_per_capita", "EG.USE.PCAP.KG.OE");
       ("alt_nuclear_energy_pct", "EG.USE.COMM.CL.ZS");
       ("co2_from_transport_pct", "EN.CO2.TRAN.ZS");
       ("co2_from_manufacturing_pct", "EN.CO2.MANF.ZS");
       ("co2_from_electricity_pct", "EN.CO2.ETOT.ZS");
       ("energy_intensity", "EG.EGY.PRIM.PP.KD");
       ("elec_from_coal_pct", "EG.ELC.COAL.ZS");
       ("elec_from_gas_pct", "EG.ELC.NGAS.ZS");
       ("elec_from_oil_pct", "EG.ELC.PETR.ZS");
       ("elec_from_hydro_pct", "EG.ELC.HYRO.ZS");
       ("elec_from_nuclear_pct", "EG.ELC.NUCL.ZS") ]);
  ("agricultural_resilience", ClusterDef
     "Will food security collapse under +2°C warming?" [
       ("cereal_yield", "AG.YLD.CREL.KG");
       ("agricultural_land_pct", "AG.LND.AGRI.ZS");
       ("arable_land_pct", "AG.LND.ARBL.ZS");
       ("fertilizer_consumption", "AG.CON.FERT.ZS");
       ("food_production_index", "AG.PRD.FOOD.XD");
       ("crop_production_index", "AG.PRD.CROP.XD");
       ("livestock_production_index", "AG.PRD.LVSK.XD");
       ("methane_agriculture_pct", "EN.ATM.METH.AG.ZS");
       ("n2o_agriculture_pct", "EN.ATM.NOXE.AG.ZS");
       ("freshwater_withdrawal_agri", "ER.H2O.FWAG.ZS");
       ("freshwater_per_capita", "ER.H2O.INTR.PC");
       ("agriculture_value_added_pct", "NV.AGR.TOTL.ZS");
       ("employment_agriculture_pct", "SL.AGR.EMPL.ZS");
       ("forest_area_pct", "AG.LND.FRST.ZS") ]);
  ("urban_health", ClusterDef
     "Are cities becoming death traps due to pollution and heat?" [
       ("pm25_exposure", "EN.ATM.PM25.MC.M3");
       ("pm25_pop_exposed_pct", "EN.ATM.PM25.MC.ZS");
       ("urban_population_pct", "SP.URB.TOTL.IN.ZS");
       ("urban_population_growth", "SP.URB.GROW");
       ("sanitation_safe_pct", "SH.STA.SMSS.ZS");
       ("water_safe_pct", "SH.H2O.SMDW.ZS");
       ("sanitation_basic_pct", "SH.STA.BASS.ZS");
       ("water_basic_pct", "SH.H2O.BASW.ZS");
       ("mortality_under5", "SH.DYN.MORT");
       ("life_expectancy", "SP.DYN.LE00.IN");
       ("health_expenditure_pct_gdp", "SH.XPD.CHEX.GD.ZS");
       ("population_density", "EN.POP.DNST");
       ("population_total", "SP.POP.TOTL") ]);
  ("economic_risk", ClusterDef
     "Is the economy too dependent on extracting resources?" [
       ("gdp_per_capita", "NY.GDP.PCAP.CD");
       ("gdp_growth", "NY.GDP.MKTP.KD.ZG");
       ("inflation", "FP.CPI.TOTL.ZG");
       ("fdi_net_inflows_pct", "BX.KLT.DINV.WD.GD.ZS");
       ("natural_resource_rents_pct", "NY.GDP.TOTL.RT.ZS");
       ("oil_rents_pct", "NY.GDP.PETR.RT.ZS");
       ("coal_rents_pct", "NY.GDP.COAL.RT.ZS");
       ("mineral_rents_pct", "NY.GDP.MINR.RT.ZS");
       ("gas_rents_pct", "NY.GDP.NGAS.RT.ZS");
       ("forest_rents_pct", "NY.GDP.FRST.RT.ZS");
       ("trade_pct_gdp", "NE.TRD.GNFS.ZS");
       ("external_debt_pct_gni", "DT.DOD.DECT.GN.ZS");
       ("gross_capital_formation_pct", "NE.GDI.TOTL.ZS");
       ("current_account_balance_pct", "BN.CAB.XOKA.GD.ZS") ]) ].

(** ** Python dicts whose iteration order matters: association lists with
    unique keys, in insertion order *)

Fixpoint dict_get {V} (k : string) (d : list (string * V)) : option V :=
  match d with
  | [] => None
  | (k', v) :: d' => if decide (k = k') then Some v else dict_get k d'
  end.

(** [d[k] = v]: in place when the key exists, at the end otherwise. *)
Fixpoint dict_set {V} (k : string) (v : V) (d : list (string * V)) : list (string * V) :=
  match d with
  | [] => [(k, v)]
  | (k', v') :: d' =>
      if decide (k = k') then (k, v) :: d' else (k', v') :: dict_set k v d'
  end.

(** [d.update(other)] *)
Definition dict_update {V} (d other : list (string * V)) : list (string * V) :=
  foldl (fun acc kv => dict_set kv.1 kv.2 acc) d other.

(** The flat [INDICATORS] dict: every indicator of every cluster. *)
Definition INDICATORS : list (string * string) :=
  foldl (fun acc cl => dict_update acc (indicators cl.2)) [] CLUSTERS.

(** [INDICATOR_TO_CLUSTER]: indicator name to cluster name. *)
Definition INDICATOR_TO_CLUSTER : list (string * string) :=
  foldl (fun acc cl =>
           foldl (fun acc' ind => dict_set ind.1 cl.1 acc') acc (indicators cl.2))
        [] CLUSTERS.

(** ** The world outside the collector

    The clock is a sequence of readings, one taken per call of [time.time()];
    the cache file is the text it holds, when it exists; [w_disk_ok] tells
    whether writing the file succeeds; [w_provider] is what the provider
    answers for an indicator code (the empty list when the request fails or
    times out), and [w_requests] logs the codes requested. *)

Record world := World {
  w_clock : nat -> Q;
  w_ticks : nat;
  w_file : option string;
  w_disk_ok : bool;
  w_provider : string -> list raw_record;
  w_requests : list string }.

(** [time.time()] *)
Definition time_time (w : world) : Q * world :=
  (w_clock w (w_ticks w),
   World (w_clock w) (S (w_ticks w)) (w_file w) (w_disk_ok w) (w_provider w) (w_requests w)).

Definition write_file (text : string) (w : world) : world :=
  World (w_clock w) (w_ticks w) (Some text) (w_disk_ok w) (w_provider w) (w_requests w).

(** [_fetch_indicator_sync]: one request; a failure is an empty list. *)
Definition fetch_indicator_sync (indicator_code : string) (w : world)
    : list raw_record * world :=
  (w_provider w indicator_code,
   World (w_clock w) (w_ticks w) (w_file w) (w_disk_ok w) (w_provider w)
         (w_requests w ++ [indicator_code])).

(** [_fetch_indicator] *)
Definition fetch_indicator (name code : string) (w : world)
    : (string * list raw_record) * world :=
  let '(records, w') := fetch_indicator_sync code w in ((name, records), w').

(** [await asyncio.gather] of the fetch tasks: the results come in the order
    of the tasks; the requests are taken in that order too. *)
Fixpoint gather (tasks : list (string * string)) (w : world)
    : list (string * list raw_record) * world :=
  match tasks with
  | [] => ([], w)
  | (name, code) :: rest =>
      let '(res, w1) := fetch_indicator name code w in
      let '(ress, w2) := gather rest w1 in
      (res :: ress, w2)
  end.

(** ** CACHE LAYER

    An entry of the cache dict: the ["_meta"] dict with its timestamp, when
    it has one, or the record list of an indicator.  A cache file holds the
    JSON text of such a dict, or text that does not parse as one. *)

Inductive cache_entry :=
  | CMeta (timestamp : option Q)
  | CRecords (records : list raw_record).

Definition meta_key : string := "_meta".

(** The dict [_save_cache] serialises:
    [cache = {"_meta": {"timestamp": now}}; cache.update(data)]. *)
Definition cache_of (now : Q) (data : list (string * cache_entry))
    : gmap string cache_entry :=
  foldl (fun acc kv => <[kv.1 := kv.2]> acc) {[ meta_key := CMeta (Some now) ]} data.

(** A raw-record map as the entries of a cache dict. *)
Definition as_entries (data : list (string * list raw_record))
    : list (string * cache_entry) :=
  (fun kv => (kv.1, CRecords kv.2)) <$> data.

(** ** The collector *)

Record collector := Collector {
  _dataframes : gmap string DataFrame;
  _country_names : gmap string string;
  _loaded : bool }.

(** [DeepUNCollector()] *)
Definition new_collector : collector := Collector ∅ ∅ false.

Definition growth_key (name : string) : string := name +:+ "_growth_5y".

Section etl.
Variable np_power : Q -> Q -> Q.
(** [int(os.getenv("WB_CACHE_HOURS", "24"))] *)
Variable CACHE_MAX_AGE_HOURS : Z.
(** [json.dumps] and [json.loads] on a cache dict. *)
Variable json_dumps : gmap string cache_entry -> string.
Variable json_loads : string -> option (gmap string cache_entry).

(** [_load_cache]: every failure inside the [try] is a cache miss. *)
Definition load_cache (w : world) : option (gmap string cache_entry) * world :=
  match w_file w with
  | None => (None, w)                                (* not _CACHE_FILE.exists() *)
  | Some raw =>
      match json_loads raw with
      | None => (None, w)                            (* json.loads raises *)
      | Some cache =>
          (* ts = cache.get("_meta", {}).get("timestamp", 0) *)
          match default (CMeta None) (cache !! meta_key) with
          | CRecords _ => (None, w)                  (* a list has no .get *)
          | CMeta timestamp =>
              let ts := default 0%Q timestamp in
              let '(now, w') := time_time w in
              let age_hours := ((now - ts) / 3600)%Q in
              if negb (Qle_bool age_hours (inject_Z CACHE_MAX_AGE_HOURS))
              then (None, w')
              else (Some cache, w')
          end
      end
  end.

(** [_save_cache]: a failure to write is swallowed.  [data] maps indicator
    names to record lists; its entries are typed as cache entries because
    [load_all] passes on what it took from the cache. *)
Definition save_cache (data : list (string * cache_entry)) (w : world) : world :=
  let '(now, w') := time_time w in
  if w_disk_ok w' then write_file (json_dumps (cache_of now data)) w' else w'.

(** The transform of one entry of [raw_data].  Taken from the cache, an entry
    could be the ["_meta"] dict: iterating it yields its keys, and a string
    has no [.get]. *)
Definition transform_entry (entry : cache_entry)
    : result (DataFrame * gmap string string) :=
  match entry with
  | CRecords records => records_to_dataframe records
  | CMeta None => Ok (empty_frame, ∅)               (* {} is falsy *)
  | CMeta (Some _) => Raise AttributeError
  end.

(** The loop "Transform raw records -> DataFrames". *)
Fixpoint transform_all (raw_data : list (string * cache_entry)) (st : collector)
    : result collector :=
  match raw_data with
  | [] => Ok st
  | (name, records) :: rest =>
      '(df, names) ← transform_entry records;
      transform_all rest
        (Collector (<[name := df]> (_dataframes st))
                   (names ∪ _country_names st)      (* .update(names) *)
                   (_loaded st))
  end.

(** The loop "Pre-compute 5-year growth rates for every base indicator". *)
Fixpoint growth_all (names : list string) (st : collector) : result collector :=
  match names with
  | [] => Ok st
  | name :: rest =>
      let df := default empty_frame (_dataframes st !! name) in
      g ← compute_growth_rate np_power df 5;
      growth_all rest
        (Collector (<[growth_key name := g]> (_dataframes st))
                   (_country_names st) (_loaded st))
  end.

Definition set_results (results : list (string * list raw_record))
    (raw_data : list (string * cache_entry)) : list (string * cache_entry) :=
  foldl (fun acc res => dict_set res.1 (CRecords res.2) acc) raw_data results.

(** The branch "Fetch everything - go cluster by cluster". *)
Definition fetch_everything (w : world) : list (string * cache_entry) * world :=
  let '(raw_data, w) :=
    foldl (fun '(raw_data, w) cl =>
             let '(results, w) := gather (indicators cl.2) w in
             (set_results results raw_data, w))
          ([], w) CLUSTERS in
  (raw_data, save_cache raw_data w).

(** The branch "Hydrate from cache - any missing indicators will be
    fetched". *)
Definition hydrate (cached : gmap string cache_entry) (w : world)
    : list (string * cache_entry) * world :=
  let raw_data :=
    foldl (fun acc ind =>
             match cached !! ind.1 with
             | Some entry => dict_set ind.1 entry acc
             | None => acc
             end) [] INDICATORS in
  let missing := filter (fun ind => dict_get ind.1 raw_data = None) INDICATORS in
  match missing with
  | [] => (raw_data, w)
  | _ =>
      let '(results, w) := gather missing w in
      let raw_data := set_results results raw_data in
      (raw_data, save_cache raw_data w)
  end.

(** The part "Try cache first" of [load_all]: the raw records of every
    indicator, from the cache or from the provider. *)
Definition load_raw_data (w : world) : list (string * cache_entry) * world :=
  let '(cached, w) := load_cache w in
  match cached with
  | Some cached =>
      (* [if cached:] an empty dict is falsy *)
      if decide (cached = ∅) then fetch_everything w else hydrate cached w
  | None => fetch_everything w
  end.

(** [load_all].  An exception raised on the way leaves the collector not
    loaded; the tables it had already stored by then are not kept here. *)
Definition load_all (st : collector) (w : world) : result (collector * world) :=
  if _loaded st then Ok (st, w)
  else
    let '(raw_data, w) := load_raw_data w in
    st ← transform_all raw_data st;
    st ← growth_all (INDICATORS.*1) st;
    Ok (Collector (_dataframes st) (_country_names st) true, w).

End etl.

(** [invalidate_cache] *)
Definition invalidate_cache (st : collector) : collector := Collector ∅ ∅ false.

(** ** Rounding: Python's [round(x, ndigits)]

    On a float, [round] gives the multiple of [10^-ndigits] nearest to the
    value, the even one on a tie. *)

Definition round_half_even (q : Q) : Z :=
  let f := Qfloor q in
  match (q - inject_Z f ?= 1 # 2)%Q with
  | Lt => f
  | Gt => f + 1
  | Eq => if Z.even f then f else f + 1
  end.

Definition py_round (q : Q) (ndigits : nat) : Q :=
  (inject_Z (round_half_even (q * inject_Z (10 ^ Z.of_nat ndigits)))
   / inject_Z (10 ^ Z.of_nat ndigits))%Q.

(** ** pandas Series: index labels with their values, NaN being [None] *)

Definition Series (K : Type) : Type := list (K * option Q).

(** [s.dropna()] *)
Definition dropna {K} (s : Series K) : Series K :=
  filter (fun kv => is_Some kv.2) s.

(** [s.empty] *)
Definition series_empty {K} (s : Series K) : bool :=
  match s with [] => true | _ => false end.

(** [s.iloc[-1]]: [IndexError] on an empty series. *)
Definition iloc_last {K} (s : Series K) : result (option Q) :=
  match last s with
  | Some kv => Ok kv.2
  | None => Raise IndexError
  end.

(** [s.iloc[-1] if not s.empty else None] *)
Definition last_or_none {K} (s : Series K) : result (option Q) :=
  if negb (series_empty s) then iloc_last s else Ok None.

(** ** PUBLIC DATA ACCESS *)

Definition get_indicator_df (st : collector) (indicator : string) : DataFrame :=
  default empty_frame (_dataframes st !! indicator).

Definition get_all_indicator_names : list string := INDICATORS.*1.

Definition get_country_name (st : collector) (iso3 : string) : string :=
  default iso3 (_country_names st !! iso3).

(** The frames of the collector in the iteration order of the dict.  The
    result of [get_all_countries] is sorted, so that order does not show. *)
Definition get_all_countries (st : collector) : list string :=
  let countries : gset string :=
    map_fold (fun _ df acc =>
                if df_empty df then acc else list_to_set (df_columns df) ∪ acc)
             ∅ (_dataframes st) in
  merge_sort String.le (elements countries).

(** [df[iso3]]: [KeyError] when the label is not a column. *)
Definition getitem_column (df : DataFrame) (iso3 : string) : result (Series Z) :=
  match df_column df iso3 with
  | Some col => Ok (zip (df_index df) col)
  | None => Raise KeyError
  end.

Definition get_country_series (st : collector) (iso3 indicator : string)
    : result (Series Z) :=
  let df := get_indicator_df st indicator in
  if df_empty df || bool_decide (iso3 ∉ df_columns df)
  then Ok []                                         (* pd.Series(dtype=float) *)
  else s ← getitem_column df iso3; Ok (dropna s).

Definition get_latest_values (st : collector) (indicator : string)
    : result (Series string) :=
  let df := get_indicator_df st indicator in
  if df_empty df then Ok []
  else
    values ← mapM (fun col : list (option Q) =>
                     last_or_none (dropna (zip (df_index df) col)))
                  (df_data df);
    Ok (zip (df_columns df) values).

Record snapshot_row := SnapshotRow {
  snap_iso3 : string;
  snap_country : string;
  snap_values : list (string * option Q) }.       (* indicator -> latest value or None *)

Definition build_master_snapshot (st : collector) : result (list snapshot_row) :=
  mapM (fun iso3 =>
          values ← mapM (fun indicator =>
                           series ← get_country_series st iso3 indicator;
                           v ← last_or_none series;
                           Ok (indicator, v))
                        (INDICATORS.*1);
          Ok (SnapshotRow iso3 (get_country_name st iso3) values))
       (get_all_countries st).

(** ** CLUSTER-LEVEL ACCESS *)

Definition get_cluster_names : list string := CLUSTERS.*1.

Definition get_cluster_indicators (cluster : string) : list string :=
  match dict_get cluster CLUSTERS with
  | None => []
  | Some cdef => (indicators cdef).*1
  end.

(** [str(int(year))] *)
Definition year_key (year : Z) : string := pretty year.

(** [data[yr_str][ind_name] = round(float(val), 4)], the inner dict being
    created on first use. *)
Definition add_point (ind_name : string)
    (data : list (string * list (string * Q))) (point : Z * option Q)
    : list (string * list (string * Q)) :=
  match point.2 with
  | None => data
  | Some val =>
      let yr_str := year_key point.1 in
      let inner := default [] (dict_get yr_str data) in
      dict_set yr_str (dict_set ind_name (py_round val 4) inner) data
  end.

(** The year -> indicator -> value dict of one country over some indicators. *)
Definition yearly_data (st : collector) (iso3 : string) (indicator_names : list string)
    : result (list (string * list (string * Q))) :=
  series_list ← mapM (fun ind_name =>
                        series ← get_country_series st iso3 ind_name;
                        Ok (ind_name, series))
                     indicator_names;
  Ok (foldl (fun acc (named : string * Series Z) =>
               foldl (add_point named.1) acc named.2)
            [] series_list).

Definition get_cluster_data (st : collector) (cluster_name : string)
    : result (list (string * list (string * list (string * Q)))) :=
  match dict_get cluster_name CLUSTERS with
  | None => Ok []
  | Some cdef =>
      per_country ← mapM (fun iso3 =>
                            country_data ← yearly_data st iso3 ((indicators cdef).*1);
                            Ok (iso3, country_data))
                         (get_all_countries st);
      (* has_any: at least one point was stored *)
      Ok (filter (fun entry => entry.2 <> []) per_country)
  end.

Definition get_country_cluster_profile (st : collector) (iso3 : string)
    : result (list (string * list (string * list (string * Q)))) :=
  mapM (fun cl : string * cluster_def =>
          cluster_data ← yearly_data st iso3 ((indicators cl.2).*1);
          Ok (cl.1, cluster_data))
       CLUSTERS.

Record indicator_profile := IndicatorProfile {
  current : option Q;
  history : list (string * Q);        (* str(int(year)) -> value, in index order *)
  growth_5y : option Q }.

Record country_profile := CountryProfile {
  profile_iso3 : string;
  profile_name : string;
  profile_data : list (string * list (string * indicator_profile)) }.

Definition rounded_history (series : Series Z) : list (string * Q) :=
  omap (fun kv => (fun v => (year_key kv.1, py_round v 4)) <$> kv.2) series.

Definition indicator_profile_of (st : collector) (iso3 ind_name : string)
    : result indicator_profile :=
  series ← get_country_series st iso3 ind_name;
  cur ← last_or_none series;
  growth_series ← get_country_series st iso3 (growth_key ind_name);
  growth ← last_or_none growth_series;
  Ok (IndicatorProfile ((fun x => py_round x 4) <$> cur)
                       (rounded_history series)
                       ((fun x => py_round x 6) <$> growth)).

Definition get_country_profile_v2 (st : collector) (iso3 : string)
    : result country_profile :=
  data ← mapM (fun cl : string * cluster_def =>
                 inds ← mapM (fun ind : string * string =>
                                p ← indicator_profile_of st iso3 ind.1;
                                Ok (ind.1, p))
                             (indicators cl.2);
                 Ok (cl.1, inds))
              CLUSTERS;
  Ok (CountryProfile iso3 (get_country_name st iso3) data).

Definition get_countries_meta (st : collector) : list (string * string) :=
  (fun c => (c, get_country_name st c)) <$> get_all_countries st.

Definition get_indicators_meta : list (string * (string * list string)) :=
  (fun cl : string * cluster_def =>
     (cl.1, (description cl.2, (indicators cl.2).*1))) <$> CLUSTERS.

(** ** Unknown identifiers *)

Definition frames_wf (st : collector) : Prop :=
  map_Forall (fun _ df => frame_wf df) (_dataframes st).

(** Every column of every table is a country: not the empty code and not an
    aggregate code. *)
Definition countries_only (st : collector) : Prop :=
  map_Forall (fun _ df => forall c, c ∈ df_columns df ->
                                    c <> "" /\ (c ∉ WB_AGGREGATE_CODES))
             (_dataframes st).

(** No table is stored under the name. *)
Definition unknown_indicator (st : collector) (indicator : string) : Prop :=
  _dataframes st !! indicator = None.

(** No table has the code among its columns. *)
Definition unknown_country (st : collector) (iso3 : string) : Prop :=
  map_Forall (fun _ df => iso3 ∉ df_columns df) (_dataframes st).

(** The profile data of a country without any observation. *)
Definition empty_profile_data : list (string * list (string * indicator_profile)) :=
  (fun cl : string * cluster_def =>
     (cl.1, (fun ind : string * string => (ind.1, IndicatorProfile None [] None))
              <$> indicators cl.2)) <$> CLUSTERS.

(** ** An example world: the provider knows one indicator *)

Definition demo_provider (code : string) : list raw_record :=
  if decide (code = "NY.GDP.PCAP.CD")
  then gap_records ++ [mk_record "CAN" "2000" (Some 3%Q); wld_record]
  else [].

Definition demo_world : world :=
  World (fun n => inject_Z (Z.of_nat n)) 0 None true demo_provider [].

(** A collector holding one table. *)
Definition demo_collector : collector :=
  Collector {[ "gdp_per_capita" := gap_frame ]} {[ "USA" := "United States" ]} true.

(** A raw-record map and a cache codec that knows the one text it wrote. *)
Definition demo_data : list (string * list raw_record) :=
  [ ("co2_emissions", scenario_records wld_record); ("gdp_growth", []) ].

Definition demo_dumps (cache : gmap string cache_entry) : string := "cache".

Definition demo_loads (text : string) : option (gmap string cache_entry) :=
  if decide (text = "cache") then Some (cache_of 0 (as_entries demo_data)) else None.

(** * The analytics engine: [logic/analytics.py] *)

(** ** [pd.DataFrame({"a": s1, "b": s2}).dropna()]: two series aligned on
    their labels

    The row labels are the index of the two series when both have the same
    index, and otherwise the sorted union of the two indexes; a series with a
    repeated label cannot be re-indexed, which raises [ValueError].  A series
    without a value for a label contributes NaN there, and [dropna] keeps the
    rows in which neither value is NaN. *)

Definition aligned_row : Type := string * Q * Q.

Definition union_index (ix iy : list string) : list string :=
  if decide (ix = iy) then ix else merge_sort String.le (remove_dups (ix ++ iy)).

Definition align (x y : Series string) : result (list (string * option Q * option Q)) :=
  if decide (x.*1 = y.*1)
  then Ok (zip_with (fun kx ky => (kx.1, kx.2, ky.2)) x y)
  else if decide (NoDup x.*1 /\ NoDup y.*1)
  then Ok ((fun k => (k, mjoin (dict_get k x), mjoin (dict_get k y)))
             <$> union_index x.*1 y.*1)
  else Raise ValueError.

Definition dropna2 (rows : list (string * option Q * option Q)) : list aligned_row :=
  omap (fun r => match r with
                 | (k, Some a, Some b) => Some (k, a, b)
                 | _ => None
                 end) rows.

Definition combine_series (x y : Series string) : result (list aligned_row) :=
  rows ← align x y; Ok (dropna2 rows).

(** ** [detect_green_growth] *)

Record green_entry := GreenEntry {
  rank : nat;
  green_iso3 : string;
  green_country : string;
  gdp_growth_5y : Q;
  co2_growth_5y : Q;
  decoupling_score : Q }.

(** A row of [combined]: (iso3, co2_growth, gdp_growth). *)
Definition is_green (r : aligned_row) : bool :=
  negb (Qle_bool r.2 0) && negb (Qle_bool 0 r.1.2).

Definition score_of (r : aligned_row) : Q := (r.2 - r.1.2)%Q.

(** The order of [sort_values("decoupling_score", ascending=False)]. *)
Definition score_ge (r1 r2 : aligned_row) : Prop := (score_of r2 <= score_of r1)%Q.

#[global] Instance score_ge_dec r1 r2 : Decision (score_ge r1 r2).
Proof.
  unfold score_ge. destruct (Qlt_le_dec (score_of r1) (score_of r2)) as [Hlt|Hle].
  - right. by apply Qlt_not_le.
  - by left.
Defined.

(** [df.head(n)]: the first [n] rows, all but the last [-n] for a negative
    [n]. *)
Definition head_rows {A} (n : Z) (l : list A) : list A :=
  if 0 <=? n then take (Z.to_nat n) l
  else take (length l - Z.to_nat (- n)) l.

Definition green_entry_of (country_names : gmap string string) (i : nat)
    (r : aligned_row) : green_entry :=
  let iso3 := r.1.1 in
  GreenEntry (i + 1) iso3 (default iso3 (country_names !! iso3))
             (py_round (r.2 * 100) 2)
             (py_round (r.1.2 * 100) 2)
             (py_round (score_of r * 100) 2).

Definition detect_green_growth (co2_growth gdp_growth : Series string)
    (country_names : gmap string string) (top_n : Z) : result (list green_entry) :=
  combined ← combine_series co2_growth gdp_growth;
  let green := filter (fun r => is_green r = true) combined in
  match green with
  | [] => Ok []
  | _ =>
      let sorted := merge_sort score_ge green in
      Ok (imap (green_entry_of country_names) (head_rows top_n sorted))
  end.

(** The scenario of the specification. *)
Definition scenario_gdp_growth : Series string :=
  [ ("A", Some (3 # 100)); ("B", Some (- 1 # 100)) ]%Q.
Definition scenario_co2_growth : Series string :=
  [ ("A", Some (- 2 # 100)); ("B", Some (- 1 # 100)) ]%Q.

(** ** [forecast_trend] *)

Definition Qsum (l : list Q) : Q := foldr Qplus 0%Q l.

(** [np.mean] *)
Definition mean (l : list Q) : Q := (Qsum l / Qnat (length l))%Q.

(** [series.dropna()] as (label, value) pairs. *)
Definition clean_points {K} (series : Series K) : list (K * Q) :=
  omap (fun kv => (fun v => (kv.1, v)) <$> kv.2) series.

(** [clean[yr]]: the value at a label; with a repeated label pandas returns
    a sub-series, of which [float] raises [TypeError]. *)
Definition getitem (clean : list (Z * Q)) (yr : Z) : result Q :=
  match filter (fun kv => kv.1 = yr) clean with
  | [] => Raise KeyError
  | [kv] => Ok kv.2
  | _ => Raise TypeError
  end.

Record trend_point := TrendPoint {
  tp_year : Z;
  tp_actual : option Q;
  tp_trend : Q }.

(** The two dicts [forecast_trend] returns. *)
Inductive forecast :=
  | InsufficientData (target_year : Z)
      (* predicted_value None, error "Insufficient data for trend analysis." *)
  | Forecast (target_year : Z)
      (predicted_value slope_per_year r_squared p_value : Q)
      (trend_points : list trend_point).

(** The sum of squared residuals of the line [a * x + b]. *)
Definition sse (a b : Q) (x y : list Q) : Q :=
  Qsum (zip_with (fun xi yi => (yi - (a * xi + b)) * (yi - (a * xi + b)))%Q x y).

Section forecast.
(** The two-sided p-value of the slope that [scipy.stats.linregress]
    computes from the t distribution. *)
Variable linregress_pvalue : list Q -> list Q -> Q.

(** [scipy.stats.linregress(x, y)]: slope, intercept, the square of
    [r_value] (the code uses [r_value] only squared; [r_value] itself is
    [ssxym / sqrt(ssxm * ssym)], and 0 when [ssym] is 0) and the p-value.
    It raises [ValueError] when all [x] are identical. *)
Definition linregress (x y : list Q) : result (Q * Q * Q * Q) :=
  let xmean := mean x in
  let ymean := mean y in
  let ssxm := mean ((fun xi => (xi - xmean) * (xi - xmean))%Q <$> x) in
  let ssxym := mean (zip_with (fun xi yi => (xi - xmean) * (yi - ymean))%Q x y) in
  let ssym := mean ((fun yi => (yi - ymean) * (yi - ymean))%Q <$> y) in
  if Qeq_bool ssxm 0 then Raise ValueError
  else
    let slope := (ssxym / ssxm)%Q in
    let intercept := (ymean - slope * xmean)%Q in
    let r_squared :=
      if Qeq_bool ssym 0 then 0%Q else (ssxym * ssxym / (ssxm * ssym))%Q in
    Ok (slope, intercept, r_squared, linregress_pvalue x y).

Definition forecast_trend (series : Series Z) (target_year : Z) : result forecast :=
  let clean := clean_points series in
  if (length clean <? 3)%nat then Ok (InsufficientData target_year)
  else
    let x := (fun kv => inject_Z kv.1) <$> clean in
    let y := snd <$> clean in
    '(slope, intercept, r_squared, p_value) ← linregress x y;
    let predicted := (slope * inject_Z target_year + intercept)%Q in
    trend_points ←
      mapM (fun yr =>
              actual ← getitem clean yr;
              Ok (TrendPoint yr (Some (py_round actual 4))
                             (py_round (slope * inject_Z yr + intercept) 4)))
           (clean.*1);
    Ok (Forecast target_year (py_round predicted 4) (py_round slope 6)
                 (py_round r_squared 4) (py_round p_value 6)
                 (trend_points ++ [TrendPoint target_year None (py_round predicted 4)])).
End forecast.

(** The fitted points of a forecast, from the observations. *)
Definition fitted_points (slope intercept : Q) (clean : list (Z * Q)) : list trend_point :=
  (fun kv => TrendPoint kv.1 (Some (py_round kv.2 4))
               (py_round (slope * inject_Z kv.1 + intercept) 4)) <$> clean.

(** A series with a value of more than four decimals. *)
Definition fine_series : Series Z :=
  [ (2000, Some (123456 # 100000)%Q); (2001, Some 2%Q); (2002, None); (2003, Some 3%Q) ].

(** A stand-in for the p-value of a library, for closed examples. *)
Definition demo_pvalue (x y : list Q) : Q := 1 # 3.

(** ** [calculate_correlation]

    The Pearson coefficient is a square root away from the rationals: it is
    a real number here. *)

(** A statistic of the result: Python [None], a float NaN, or a number. *)
Inductive stat :=
  | StatNone
  | StatNaN
  | StatNum (value : R).

(** [round(x, ndigits)] on a real number. *)
Definition round_half_even_R (x : R) : Z :=
  let f := up x - 1 in                    (* the integer part: f <= x < f + 1 *)
  if Rlt_dec (x - IZR f) (1 / 2) then f
  else if Rlt_dec (1 / 2) (x - IZR f) then f + 1
  else if Z.even f then f else f + 1.

Definition py_round_R (x : R) (ndigits : nat) : R :=
  (IZR (round_half_even_R (x * 10 ^ ndigits)) / 10 ^ ndigits)%R.

(** The statistic of [scipy.stats.pearsonr(x, y)]:
    [dot(xm / norm(xm), ym / norm(ym))] for the centered [xm], [ym], clipped
    to [-1, 1]; NaN when an input is constant. *)
Definition pearsonr (x y : list Q) : option R :=
  let xmean := mean x in
  let ymean := mean y in
  let sxx := Qsum ((fun xi => (xi - xmean) * (xi - xmean))%Q <$> x) in
  let syy := Qsum ((fun yi => (yi - ymean) * (yi - ymean))%Q <$> y) in
  let sxy := Qsum (zip_with (fun xi yi => (xi - xmean) * (yi - ymean))%Q x y) in
  if Qeq_bool sxx 0 || Qeq_bool syy 0 then None
  else
    let r := (Q2R sxy / (sqrt (Q2R sxx) * sqrt (Q2R syy)))%R in
    Some (Rmax (Rmin r 1) (-1)).

Record correlation := Correlation {
  pearson_r : stat;
  p_value : stat;
  n_samples : nat;
  scatter : list aligned_row;           (* iso3, x, y *)
  corr_error : option string }.

Definition insufficient_points : string := "Insufficient data points (need >= 3).".

Section correlation.
(** The two-sided p-value that [scipy.stats.pearsonr] attaches to the
    statistic [r] of [n] points. *)
Variable pearson_pvalue : R -> nat -> R.

Definition calculate_correlation (x_series y_series : Series string)
    : result correlation :=
  combined ← combine_series x_series y_series;
  if (length combined <? 3)%nat
  then Ok (Correlation StatNone StatNone (length combined) [] (Some insufficient_points))
  else
    let x := (fun row : aligned_row => row.1.2) <$> combined in
    let y := (fun row : aligned_row => row.2) <$> combined in
    match pearsonr x y with
    | None => Ok (Correlation StatNaN StatNaN (length combined) combined None)
    | Some r =>
        Ok (Correlation (StatNum (py_round_R r 4))
                        (StatNum (py_round_R (pearson_pvalue r (length combined)) 6))
                        (length combined) combined None)
    end.
End correlation.

(** The scenario of the specification. *)
Definition scenario_x : Series string :=
  [ ("A", Some 1%Q); ("B", Some 2%Q); ("C", Some 3%Q) ].
Definition scenario_y : Series string :=
  [ ("A", Some 2%Q); ("B", Some 4%Q); ("C", Some 6%Q) ].

(** ** [build_country_report] *)

(** The entry of one indicator in the report. *)
Inductive indicator_report :=
  | EmptyReport                     (* {"time_series": [], "forecast": None} *)
  | IndicatorReport
      (time_series : list (Z * option Q))   (* year, round(value, 4) *)
      (latest_value : option Q)
      (growth_5y_pct : option Q)
      (fc : forecast).

Record country_report := CountryReport {
  report_iso3 : string;
  report_country : string;
  report_indicators : list (string * indicator_report) }.   (* in catalog order *)

Section report.
Variable linregress_pvalue : list Q -> list Q -> Q.

(** [round(float(growth_series.iloc[-1]) * 100, 2)] when the growth series
    is not empty, [None] otherwise. *)
Definition latest_growth_pct (growth_series : Series Z) : result (option Q) :=
  if negb (series_empty growth_series)
  then g ← iloc_last growth_series;
       Ok (fmap (M := option) (fun x => py_round (x * 100) 2) g)
  else Ok None.

(** The body of the loop over [INDICATORS]. *)
Definition indicator_report_of (st : collector) (iso3 indicator : string)
    : result indicator_report :=
  series ← get_country_series st iso3 indicator;
  if series_empty series then Ok EmptyReport
  else
    let ts_data : list (Z * option Q) :=
      fmap (M := list)
           (fun kv : Z * option Q => (kv.1, (fun v => py_round v 4) <$> kv.2)) series in
    fc ← forecast_trend linregress_pvalue series 2030;
    growth_series ← get_country_series st iso3 (growth_key indicator);
    latest_growth ← latest_growth_pct growth_series;
    latest ← iloc_last series;
    Ok (IndicatorReport ts_data (fmap (M := option) (fun x => py_round x 4) latest)
                        latest_growth fc).

Definition build_country_report (iso3 country_name : string) (st : collector)
    : result country_report :=
  inds ← mapM (fun indicator =>
                 r ← indicator_report_of st iso3 indicator; Ok (indicator, r))
              (INDICATORS.*1);
  Ok (CountryReport iso3 country_name inds).
End report.

(** * The API server: [backend/main.py]

    The handlers read the module-level collector, which [lifespan] loads
    before the first request: here they take its state. *)

(** [idx.intersection(other)]: the labels of [idx] that [other] has too,
    each once. *)
Definition index_intersection (idx other : list string) : list string :=
  remove_dups (filter (fun k => k ∈ other) idx).

Record correlation_response := CorrelationResponse {
  resp_x_indicator : string;
  resp_y_indicator : string;
  resp_pearson_r : stat;
  resp_p_value : stat;
  resp_n_samples : nat;
  resp_scatter : list (aligned_row * string);     (* iso3, x, y, and the name *)
  resp_error : option string }.

Record green_growth_response := GreenGrowthResponse {
  rankings : list green_entry;
  total_green_countries : nat;
  total_analyzed : nat }.

Inductive forecast_response :=
  | NoData (iso3 indicator : string) (target_year : Z) (error : string)
      (* predicted_value None *)
  | ForecastFor (iso3 indicator : string) (result : forecast).

Section api.
Variable np_power : Q -> Q -> Q.
Variable CACHE_MAX_AGE_HOURS : Z.
Variable json_dumps : gmap string cache_entry -> string.
Variable json_loads : string -> option (gmap string cache_entry).
Variable linregress_pvalue : list Q -> list Q -> Q.
Variable pearson_pvalue : R -> nat -> R.
(** [str.upper] *)
Variable str_upper : string -> string.

(** [lifespan]: the collector created with the module is loaded at
    startup. *)
Definition lifespan (w : world) : result (collector * world) :=
  load_all np_power CACHE_MAX_AGE_HOURS json_dumps json_loads new_collector w.

(** GET /api/v1/data/master *)
Definition get_master_data (st : collector) : result (list snapshot_row) :=
  build_master_snapshot st.

(** GET /api/v2/country/{iso3} *)
Definition get_country_profile (st : collector) (iso3 : string) : result country_profile :=
  get_country_profile_v2 st (str_upper iso3).

(** GET /api/v2/analytics/correlation/{x_indicator}/{y_indicator} *)
Definition get_correlation (st : collector) (x_indicator y_indicator : string)
    : result correlation_response :=
  x_latest ← get_latest_values st x_indicator;
  y_latest ← get_latest_values st y_indicator;
  if series_empty x_latest || series_empty y_latest
  then Ok (CorrelationResponse x_indicator y_indicator StatNone StatNone 0 [] None)
  else
    result ← calculate_correlation pearson_pvalue x_latest y_latest;
    let points :=
      (fun point : aligned_row => (point, get_country_name st point.1.1))
        <$> scatter result in
    Ok (CorrelationResponse x_indicator y_indicator
          (pearson_r result) (p_value result) (n_samples result)
          points (corr_error result)).

(** GET /api/v2/analytics/green-growth *)
Definition get_green_growth (st : collector) : result green_growth_response :=
  co2_growth ← get_latest_values st "co2_emissions_growth_5y";
  gdp_growth ← get_latest_values st "gdp_growth_growth_5y";
  ranked ← detect_green_growth co2_growth gdp_growth (_country_names st) 10;
  let analyzed :=
    index_intersection (dropna co2_growth).*1 (dropna gdp_growth).*1 in
  Ok (GreenGrowthResponse ranked (length ranked) (length analyzed)).

(** GET /api/v2/analytics/forecast/{iso3}/{indicator} *)
Definition get_forecast (st : collector) (iso3 indicator : string)
    : result forecast_response :=
  let iso3 := str_upper iso3 in
  series ← get_country_series st iso3 indicator;
  if series_empty series
  then Ok (NoData iso3 indicator 2030
             ("No data for " +:+ indicator +:+ " in " +:+ iso3))
  else
    result ← forecast_trend linregress_pvalue series 2030;
    Ok (ForecastFor iso3 indicator result).

(** GET /api/v2/meta/countries *)
Definition get_countries (st : collector) : list (string * string) :=
  get_countries_meta st.

(** GET /api/v2/meta/indicators *)
Definition get_indicators : list (string * (string * list string)) :=
  get_indicators_meta.
End api.

(** ** Invariants of the tables *)

(** Ascending, pairwise different row labels and column labels. *)
Definition frame_ordered (df : DataFrame) : Prop :=
  Sorted Z.le (df_index df) /\ NoDup (df_index df) /\
  Sorted String.le (df_columns df) /\ NoDup (df_columns df).

Definition frames_ordered (st : collector) : Prop :=
  map_Forall (fun _ df => frame_ordered df) (_dataframes st).

(** ** The name a record gives to its country

    The "value" of its country dict, the code itself when the dict has no
    "value" (or the record no "country"), nothing when the field is not a
    dict. *)
Definition country_name_of (iso3 : string) (country : option country_obj)
    : option string :=
  match default (CountryDict None) country with
  | CountryDict v => Some (default iso3 v)
  | CountryOther => None
  end.

(** The name a record gives to the country [c], when it survives the loop
    with that code. *)
Definition name_in (c : string) (rec : raw_record) : option string :=
  match surviving rec with
  | Some (c', _, _) =>
      if decide (c' = c) then country_name_of c (rec_country rec) else None
  | None => None
  end.

(** ** Reading [load_all]: what the cache holds and what it lacks *)

(** The world once the requests for [codes] have been sent. *)
Definition after_requests (codes : list string) (w : world) : world :=
  World (w_clock w) (w_ticks w) (w_file w) (w_disk_ok w) (w_provider w)
        (w_requests w ++ codes).

(** What the provider answers to the tasks, as raw data. *)
Definition answers (w : world) (tasks : list (string * string))
    : list (string * cache_entry) :=
  (fun t => (t.1, CRecords (w_provider w t.2))) <$> tasks.

(** The entries a cache dict holds for the indicators of the catalog, and
    the indicators it has no entry for, both in catalog order. *)
Definition cache_hits (cached : gmap string cache_entry) : list (string * cache_entry) :=
  omap (fun ind : string * string => (fun e => (ind.1, e)) <$> cached !! ind.1) INDICATORS.

Definition cache_misses (cached : gmap string cache_entry) : list (string * string) :=
  filter (fun ind : string * string => cached !! ind.1 = None) INDICATORS.

(** The same world with another answer to "does writing the file succeed". *)
Definition with_disk (ok : bool) (w : world) : world :=
  World (w_clock w) (w_ticks w) (w_file w) ok (w_provider w) (w_requests w).

(** A cache codec for the example world: it reads back the dict that the
    first load of that world writes. *)
Definition warm_loads (text : string) : option (gmap string cache_entry) :=
  Some (cache_of (w_clock demo_world 0) (answers demo_world INDICATORS)).

(** ** Two series in the other order *)

(** An aligned row with its two values exchanged. *)
Definition swap_values {A} (r : string * A * A) : string * A * A :=
  (r.1.1, r.2, r.1.2).

(** A table with a row for every year from 2000 to 2005. *)
Definition yearly_frame : DataFrame :=
  mkDataFrame [2000; 2001; 2002; 2003; 2004; 2005] ["USA"]
    [[Some 1%Q; Some 2%Q; Some 3%Q; Some 4%Q; Some 5%Q; Some 6%Q]].

(** ** The row a record contributes

    The row the loop of [_records_to_dataframe] appends for a record, when
    the record survives and its year is an integer. *)
Definition row_of (rec : raw_record) : option row :=
  match surviving rec with
  | Some (c, d, v) =>
      match py_int d with
      | Ok y => Some (Row c y v)
      | Raise _ => None
      end
  | None => None
  end.

(** Rows of the same year and country that have a value have the same
    one. *)
Definition consistent_rows (rows : list row) : Prop :=
  forall r1 r2 v1 v2, r1 ∈ rows -> r2 ∈ rows ->
    row_year r1 = row_year r2 -> row_iso3 r1 = row_iso3 r2 ->
    row_value r1 = Some v1 -> row_value r2 = Some v2 -> v1 = v2.


(** * Properties *)

(** ** Interpolation of one column *)

Section interpolation.
Implicit Types (col pre post : list (option Q)) (a b : Q).

Lemma valid_points_from_app k col1 col2 :
  valid_points_from k (col1 ++ col2) =
  valid_points_from k col1 ++ valid_points_from (k + length col1) col2.
Proof.
  revert k. induction col1 as [|[v|] col1 IH]; intros k; simpl.
  - by rewrite Nat.add_0_r.
  - rewrite IH. do 3 f_equal. lia.
  - rewrite IH. do 2 f_equal. lia.
Qed.

Lemma valid_points_from_nans k m :
  valid_points_from k (replicate m None) = [].
Proof. revert k. induction m; intros k; simpl; auto. Qed.

Lemma valid_points_from_bound k col x v :
  (x, v) ∈ valid_points_from k col -> (k <= x < k + length col)%nat.
Proof.
  revert k. induction col as [|[w|] col IH]; intros k; simpl.
  - by intros ?%elem_of_nil.
  - intros [Heq|Hin]%elem_of_cons.
    + inversion Heq; lia.
    + apply IH in Hin. lia.
  - intros Hin. apply IH in Hin. lia.
Qed.

(** [np_interp] between two neighbouring sample points. *)
Lemma np_interp_between x l1 p a n b l2 :
  (forall x0 y0, (x0, y0) ∈ l1 -> (x0 < p)%nat) ->
  (p < x < n)%nat ->
  np_interp x (l1 ++ (p, a) :: (n, b) :: l2) =
  Some (((b - a) / (Qnat n - Qnat p)) * (Qnat x - Qnat p) + a)%Q.
Proof.
  intros Hl1 Hx. induction l1 as [|[x0 y0] l1 IH]; simpl.
  - destruct (Nat.leb_spec x p); [lia|].
    destruct (Nat.ltb_spec x n); [done|lia].
  - assert (x0 < p)%nat by (eapply Hl1; left).
    destruct (l1 ++ (p, a) :: (n, b) :: l2) as [|[x1 y1] rest] eqn:Hrest.
    { by destruct l1. }
    assert (x1 <= p)%nat.
    { destruct l1 as [|[x1' y1'] l1]; simpl in Hrest; inversion Hrest; subst.
      - lia.
      - assert (x1 < p)%nat; [|lia]. eapply Hl1. right; left. }
    destruct (Nat.leb_spec x x0); [lia|].
    destruct (Nat.ltb_spec x x1); [lia|].
    apply IH. intros ???. eapply Hl1. by right.
Qed.

(** [np_interp] to the right of the last sample point. *)
Lemma np_interp_after x l1 p a :
  (forall x0 y0, (x0, y0) ∈ l1 -> (x0 < p)%nat) ->
  (p < x)%nat ->
  np_interp x (l1 ++ [(p, a)]) = Some a.
Proof.
  intros Hl1 Hx. induction l1 as [|[x0 y0] l1 IH]; simpl; [done|].
  assert (x0 < p)%nat by (eapply Hl1; left).
  destruct (l1 ++ [(p, a)]) as [|[x1 y1] rest] eqn:Hrest.
  { by destruct l1. }
  assert (x1 <= p)%nat.
  { destruct l1 as [|[x1' y1'] l1]; simpl in Hrest; inversion Hrest; subst.
    - lia.
    - assert (x1 < p)%nat; [|lia]. eapply Hl1. right; left. }
  destruct (Nat.leb_spec x x0); [lia|].
  destruct (Nat.ltb_spec x x1); [lia|].
  apply IH. intros ???. eapply Hl1. by right.
Qed.
End interpolation.

Lemma forallb_lookup {A} (f : A -> bool) (l : list A) :
  forallb f l = true <-> forall i x, l !! i = Some x -> f x = true.
Proof.
  rewrite forallb_forall. split.
  - intros H i x Hi. apply H, list_elem_of_In, list_elem_of_lookup. eauto.
  - intros H x [i Hi]%list_elem_of_In%list_elem_of_lookup. eauto.
Qed.

Lemma forallb_slice (l : list bool) k n :
  forallb id (take n (drop k l)) = true <->
  forall j, (k <= j < k + n)%nat -> (j < length l)%nat -> l !! j = Some true.
Proof.
  rewrite forallb_lookup. split.
  - intros H j Hj Hlen.
    destruct (lookup_lt_is_Some_2 l j Hlen) as [b Hb].
    rewrite Hb. f_equal. apply (H (j - k)%nat).
    rewrite lookup_take_lt by lia. rewrite lookup_drop.
    by replace (k + (j - k))%nat with j by lia.
  - intros H i x Hi.
    apply lookup_take_Some in Hi as [Hi Hlt]. rewrite lookup_drop in Hi.
    specialize (H (k + i)%nat). rewrite Hi in H.
    assert (Some x = Some true) as [= ->]; [|done].
    apply H; [lia|]. by eapply lookup_lt_Some.
Qed.

Section interpolate_1d.
Implicit Types (col pre post : list (option Q)) (a b : Q).

Lemma interp_limit_spec (invalid : list bool) limit x :
  interp_limit invalid limit x = true <->
  forall j, (x - limit <= j <= x)%nat -> (j < length invalid)%nat ->
            invalid !! j = Some true.
Proof.
  unfold interp_limit. rewrite forallb_slice. split.
  - intros H j Hj. apply H. lia.
  - intros H j Hj. apply H. lia.
Qed.

Lemma first_valid_index_le col j v :
  col !! j = Some (Some v) -> (first_valid_index (isna <$> col) <= j)%nat.
Proof.
  intros Hj. unfold first_valid_index.
  destruct (list_find _ _) as [[i0 b0]|] eqn:Hfind; simpl.
  - apply list_find_Some in Hfind as (_ & _ & Hmin).
    destruct (decide (i0 <= j)%nat) as [|Hgt]; [done|].
    exfalso. eapply (Hmin j false); [|lia|done].
    by rewrite list_lookup_fmap, Hj.
  - lia.
Qed.


Lemma interpolate_1d_length limit col :
  length (interpolate_1d limit col) = length col.
Proof.
  unfold interpolate_1d. destruct (_ || _); [done|]. by rewrite length_imap.
Qed.

(** Observed cells keep their value. *)
Lemma interpolate_1d_valid limit col i v :
  col !! i = Some (Some v) -> interpolate_1d limit col !! i = Some (Some v).
Proof.
  intros Hi. unfold interpolate_1d. destruct (_ || _); [done|].
  by rewrite list_lookup_imap, Hi.
Qed.

(** A NaN whose [limit] predecessors are NaN too (or that has fewer
    predecessors, all NaN) stays NaN. *)
Lemma interpolate_1d_far limit col i :
  (forall j, (i - limit <= j <= i)%nat -> (j < length col)%nat -> col !! j = Some None) ->
  (i < length col)%nat ->
  interpolate_1d limit col !! i = Some None.
Proof.
  intros Hwin Hlen.
  assert (col !! i = Some None) as Hi by (apply Hwin; lia).
  unfold interpolate_1d. destruct (_ || _); [done|].
  rewrite list_lookup_imap, Hi. simpl. f_equal.
  assert (interp_limit (isna <$> col) limit i = true) as ->.
  { apply interp_limit_spec. intros j Hj Hjlen. rewrite length_fmap in Hjlen.
    by rewrite list_lookup_fmap, Hwin. }
  by rewrite orb_true_r.
Qed.

(** The shape of the result at a NaN that has a valid cell among its
    [limit] predecessors. *)
Lemma interpolate_1d_near limit col p a i :
  col !! p = Some (Some a) -> col !! i = Some None ->
  (p < i <= p + limit)%nat ->
  interpolate_1d limit col !! i = Some (np_interp i (valid_points col)).
Proof.
  intros Hp Hi Hpi. unfold interpolate_1d.
  assert (forallb id (isna <$> col) = false) as ->.
  { apply not_true_is_false. rewrite forallb_lookup. intros H.
    specialize (H p false). rewrite list_lookup_fmap, Hp in H. by specialize (H eq_refl). }
  assert (forallb negb (isna <$> col) = false) as ->.
  { apply not_true_is_false. rewrite forallb_lookup. intros H.
    specialize (H i true). rewrite list_lookup_fmap, Hi in H. by specialize (H eq_refl). }
  simpl. rewrite list_lookup_imap, Hi. simpl. f_equal.
  pose proof (first_valid_index_le _ _ _ Hp) as Hfirst.
  destruct (Nat.ltb_spec i (first_valid_index (isna <$> col))) as [|_]; [lia|]. simpl.
  assert (interp_limit (isna <$> col) limit i = false) as ->; [|done].
  apply not_true_is_false. rewrite interp_limit_spec. intros H.
  specialize (H p). rewrite list_lookup_fmap, Hp in H.
  assert (Some false = Some true); [|done].
  apply H; [lia|]. rewrite length_fmap. by eapply lookup_lt_Some.
Qed.

Lemma lerp_eq a b (p n x k s : nat) :
  (n = p + s)%nat -> (x = p + k)%nat -> (0 < s)%nat ->
  ((b - a) / (Qnat n - Qnat p) * (Qnat x - Qnat p) + a == lerp a b k s)%Q.
Proof.
  intros -> -> Hs. unfold lerp, Qnat.
  rewrite !Nat2Z.inj_add, !inject_Z_plus.
  assert (~ inject_Z (Z.of_nat s) == 0)%Q.
  { intros H. apply (inject_Z_injective (Z.of_nat s) 0) in H. lia. }
  field. intros Hs'. apply H. rewrite <- Hs'. ring.
Qed.

(** Inside a run of NaNs between two observed cells, the first [limit]
    cells are filled on the straight line between the two values. *)
Theorem interpolate_1d_gap limit pre a m b post t :
  (t < m)%nat -> (t < limit)%nat ->
  exists w,
    interpolate_1d limit (pre ++ Some a :: replicate m None ++ Some b :: post)
      !! (length pre + 1 + t)%nat = Some (Some w) /\
    (w == lerp a b (S t) (S m))%Q.
Proof.
  intros Htm Htl.
  set (col := pre ++ Some a :: replicate m None ++ Some b :: post).
  assert (col !! length pre = Some (Some a)) as Hp.
  { unfold col. by rewrite list_lookup_middle. }
  assert (col !! (length pre + 1 + t)%nat = Some None) as Hi.
  { unfold col. rewrite lookup_app_r by lia.
    replace (length pre + 1 + t - length pre)%nat with (S t) by lia. simpl.
    rewrite lookup_app_l by (rewrite length_replicate; lia).
    by apply lookup_replicate_2. }
  rewrite (interpolate_1d_near limit col _ a) by (done || lia).
  unfold valid_points, col. rewrite valid_points_from_app. simpl.
  rewrite valid_points_from_app, valid_points_from_nans. simpl.
  rewrite length_replicate.
  rewrite np_interp_between.
  - eexists; split; [done|]. apply lerp_eq; lia.
  - intros x0 y0 Hin%valid_points_from_bound. lia.
  - lia.
Qed.

(** After the last observed cell, the first [limit] cells repeat its
    value. *)
Theorem interpolate_1d_tail limit pre a m t :
  (t < m)%nat -> (t < limit)%nat ->
  interpolate_1d limit (pre ++ Some a :: replicate m None)
    !! (length pre + 1 + t)%nat = Some (Some a).
Proof.
  intros Htm Htl.
  set (col := pre ++ Some a :: replicate m None).
  assert (col !! length pre = Some (Some a)) as Hp.
  { unfold col. by rewrite list_lookup_middle. }
  assert (col !! (length pre + 1 + t)%nat = Some None) as Hi.
  { unfold col. rewrite lookup_app_r by lia.
    replace (length pre + 1 + t - length pre)%nat with (S t) by lia. simpl.
    by apply lookup_replicate_2. }
  rewrite (interpolate_1d_near limit col _ a) by (done || lia).
  unfold valid_points, col. rewrite valid_points_from_app. simpl.
  rewrite valid_points_from_nans. f_equal.
  apply np_interp_after; [|lia].
  intros x0 y0 Hin%valid_points_from_bound. lia.
Qed.
End interpolate_1d.

(** ** Positions, sorting and the pivot *)

Lemma position_elem_of {A} `{EqDecision A} (x : A) (l : list A) :
  x ∈ l -> exists i, position x l = Some i /\ l !! i = Some x.
Proof.
  intros Hin. unfold position.
  destruct (list_find_elem_of (fun y => y = x) l x Hin eq_refl) as [[i y] Hfind].
  rewrite Hfind. apply list_find_Some in Hfind as (Hi & -> & _). eauto.
Qed.

Lemma position_Some {A} `{EqDecision A} (x : A) (l : list A) i :
  position x l = Some i -> l !! i = Some x.
Proof.
  unfold position. destruct (list_find _ _) as [[j y]|] eqn:Hfind; [|done].
  intros [= <-]. by apply list_find_Some in Hfind as (Hi & -> & _).
Qed.

Lemma position_None {A} `{EqDecision A} (x : A) (l : list A) :
  x ∉ l -> position x l = None.
Proof.
  intros Hnin. unfold position.
  destruct (list_find _ _) as [[j y]|] eqn:Hfind; [|done].
  apply list_find_Some in Hfind as (Hi & -> & _).
  exfalso. apply Hnin. by eapply list_elem_of_lookup_2.
Qed.

Lemma position_NoDup {A} `{EqDecision A} (l : list A) i x :
  NoDup l -> l !! i = Some x -> position x l = Some i.
Proof.
  intros Hnd Hi.
  destruct (position_elem_of x l) as (j & Hj & Hj'); [by eapply list_elem_of_lookup_2|].
  rewrite Hj. f_equal. by eapply NoDup_lookup.
Qed.

#[local] Instance label_le_trans : Transitive label_le.
Proof. intros a b c. unfold label_le. lia. Qed.
#[local] Instance label_le_total : Total label_le.
Proof. intros a b. unfold label_le. lia. Qed.

Lemma Sorted_zip_labels (index : list Z) k :
  Sorted Z.le index -> Sorted label_le (zip index (seq k (length index))).
Proof.
  intros Hs. revert k. induction Hs as [|x l Hl IH Hhd]; intros k; simpl; [constructor|].
  constructor; [apply IH|].
  destruct Hhd; simpl; constructor. done.
Qed.

Lemma fst_zip_seq (index : list Z) k :
  (zip index (seq k (length index))).*1 = index.
Proof. apply fst_zip. by rewrite length_seq. Qed.

Lemma sort_labels_sorted (index : list Z) :
  Sorted Z.le index -> NoDup index ->
  merge_sort label_le (zip index (seq 0 (length index))) = zip index (seq 0 (length index)).
Proof.
  intros Hs Hnd.
  apply (Sorted_unique_strong label_le).
  - intros [y1 i1] [y2 i2] H1 H2 Hle1 Hle2.
    rewrite merge_sort_Permutation in H1.
    unfold label_le in *; simpl in *. assert (y1 = y2) as -> by lia.
    apply list_elem_of_lookup in H1 as [j1 H1], H2 as [j2 H2].
    apply lookup_zip_Some in H1 as [H1 H1'], H2 as [H2 H2'].
    apply lookup_seq in H1' as [-> _], H2' as [-> _]. simpl.
    f_equal. by eapply NoDup_lookup.
  - apply Sorted_merge_sort; apply _.
  - by apply Sorted_zip_labels.
  - apply merge_sort_Permutation.
Qed.

Lemma sort_index_sorted df :
  frame_wf df -> Sorted Z.le (df_index df) -> NoDup (df_index df) ->
  sort_index df = df.
Proof.
  intros [_ Hwf] Hs Hnd. destruct df as [index columns data]; simpl in *.
  unfold sort_index, df_len; simpl.
  rewrite sort_labels_sorted by done. rewrite fst_zip_seq. f_equal.
  rewrite <- (list_fmap_id data) at 2. apply Forall_fmap_ext_1.
  eapply Forall_impl; [exact Hwf|]. intros col Hlen. unfold df_len in Hlen; simpl in Hlen.
  apply list_eq. intros i. rewrite list_lookup_fmap.
  destruct (decide (i < length index)%nat) as [Hi|Hi].
  - destruct (lookup_lt_is_Some_2 index i Hi) as [y Hy].
    assert (zip index (seq 0 (length index)) !! i = Some (y, i)) as ->.
    { apply lookup_zip_Some. split; [done|]. by apply lookup_seq. }
    simpl. destruct (lookup_lt_is_Some_2 col i) as [v ->]; [lia|]. done.
  - rewrite (lookup_ge_None_2 col) by lia.
    rewrite lookup_ge_None_2; [done|].
    rewrite length_zip, length_seq. lia.
Qed.

Section pivot.
Implicit Types (rows : list row).

Lemma pivot_index_elem_of rows y :
  y ∈ df_index (pivot_table rows) <->
  exists r, r ∈ rows /\ is_Some (row_value r) /\ row_year r = y.
Proof.
  simpl. rewrite merge_sort_Permutation, elem_of_remove_dups, list_elem_of_fmap.
  split.
  - intros (r & -> & [Hv Hr]%list_elem_of_filter). eauto.
  - intros (r & Hr & Hv & <-). exists r. by rewrite list_elem_of_filter.
Qed.

Lemma pivot_columns_elem_of rows c :
  c ∈ df_columns (pivot_table rows) <->
  exists r, r ∈ rows /\ is_Some (row_value r) /\ row_iso3 r = c.
Proof.
  simpl. rewrite merge_sort_Permutation, elem_of_remove_dups, list_elem_of_fmap.
  split.
  - intros (r & -> & [Hv Hr]%list_elem_of_filter). eauto.
  - intros (r & Hr & Hv & <-). exists r. by rewrite list_elem_of_filter.
Qed.

Lemma pivot_index_sorted rows : Sorted Z.le (df_index (pivot_table rows)).
Proof. apply Sorted_merge_sort; apply _. Qed.

Lemma pivot_index_NoDup rows : NoDup (df_index (pivot_table rows)).
Proof. simpl. rewrite merge_sort_Permutation. apply NoDup_remove_dups. Qed.

Lemma pivot_columns_NoDup rows : NoDup (df_columns (pivot_table rows)).
Proof. simpl. rewrite merge_sort_Permutation. apply NoDup_remove_dups. Qed.

Lemma pivot_wf rows : frame_wf (pivot_table rows).
Proof.
  split; simpl.
  - by rewrite length_fmap.
  - apply Forall_fmap, Forall_forall. intros c _. simpl.
    unfold df_len; simpl. by rewrite length_fmap.
Qed.

Lemma pivot_column rows c :
  c ∈ df_columns (pivot_table rows) ->
  df_column (pivot_table rows) c =
  Some ((fun y => first_value rows y c) <$> df_index (pivot_table rows)).
Proof.
  intros Hc. unfold df_column.
  destruct (position_elem_of _ _ Hc) as (j & -> & Hj). simpl.
  simpl in Hj. by rewrite list_lookup_fmap, Hj.
Qed.
End pivot.

(** ** The record loop *)

Lemma collect_rows_ok records rows0 names0 rows names :
  collect_rows records rows0 names0 = Ok (rows, names) ->
  exists new, rows = rows0 ++ new /\ Forall2 row_from (omap surviving records) new.
Proof.
  revert rows0 names0. induction records as [|rec rest IH]; intros rows0 names0; simpl.
  - intros [= <- <-]. exists []. by rewrite app_nil_r.
  - unfold surviving. destruct (_ || _).
    { apply IH. }
    destruct (rec_date rec) as [d|]; simpl; [|apply IH].
    destruct (py_int d) as [y|e] eqn:Hy; simpl; [|done].
    intros (new & -> & Hnew)%IH.
    exists (Row (default "" (rec_countryiso3code rec)) y (rec_value rec) :: new).
    split; [by rewrite <- app_assoc|].
    constructor; [done|done].
Qed.

Lemma surviving_code rec c d v :
  surviving rec = Some (c, d, v) ->
  rec_countryiso3code rec = Some c /\ c <> "" /\ (c ∉ WB_AGGREGATE_CODES) /\
  rec_date rec = Some d /\ rec_value rec = v.
Proof.
  unfold surviving.
  destruct (bool_decide _) eqn:H1; [done|].
  destruct (bool_decide (_ ∈ _)) eqn:H2; [done|]. simpl.
  apply bool_decide_eq_false in H1, H2.
  destruct (rec_date rec) as [d'|]; simpl; [|done].
  intros [= <- <- <-].
  destruct (rec_countryiso3code rec) as [c|]; simpl in *; [|done]. done.
Qed.

Lemma records_to_dataframe_ok records df names :
  records_to_dataframe records = Ok (df, names) ->
  exists rows,
    collect_rows records [] ∅ = Ok (rows, names) /\
    df = interpolate 3 (pivot_table rows).
Proof.
  unfold records_to_dataframe. destruct records as [|rec rest].
  { intros [= <- <-]. by exists []. }
  destruct (collect_rows (rec :: rest) [] ∅) as [[rows names']|e]; simpl; [|done].
  destruct rows as [|r rows].
  { intros [= <- <-]. by exists []. }
  intros [= <- <-]. exists (r :: rows). split; [done|].
  rewrite sort_index_sorted;
    auto using pivot_wf, pivot_index_sorted, pivot_index_NoDup.
Qed.

Lemma interpolate_column limit df c col :
  df_column df c = Some col ->
  df_column (interpolate limit df) c = Some (interpolate_1d limit col).
Proof.
  unfold df_column; simpl. destruct (position c (df_columns df)) as [j|]; simpl; [|done].
  intros Hj. by rewrite list_lookup_fmap, Hj.
Qed.

Lemma head_omap_app {A B} (f : A -> option B) l1 x l2 v :
  (forall x', x' ∈ l1 -> f x' = None) -> f x = Some v ->
  head (omap f (l1 ++ x :: l2)) = Some v.
Proof.
  intros Hnone Hx. induction l1 as [|x' l1 IH]; simpl.
  - by rewrite Hx.
  - rewrite (Hnone x') by left. apply IH. intros. apply Hnone. by right.
Qed.

Lemma first_value_app rows1 r rows2 y c v :
  (forall r', r' ∈ rows1 -> row_year r' = y -> row_iso3 r' = c -> row_value r' = None) ->
  row_year r = y -> row_iso3 r = c -> row_value r = Some v ->
  first_value (rows1 ++ r :: rows2) y c = Some v.
Proof.
  intros Hnone Hy Hc Hv. unfold first_value. apply head_omap_app.
  - intros r' Hr'. case_bool_decide as Hk; [|done]. destruct Hk. by apply Hnone.
  - by rewrite bool_decide_eq_true_2.
Qed.

(** The cell of a first non-null value, in the finished table. *)
Lemma transform_cell rows y c v :
  first_value rows y c = Some v ->
  df_cell (interpolate 3 (pivot_table rows)) y c = Some v.
Proof.
  intros Hfirst.
  assert (exists r, r ∈ rows /\ is_Some (row_value r) /\ row_year r = y /\ row_iso3 r = c)
    as (r & Hr & Hv & Hy & Hc).
  { unfold first_value in Hfirst. apply head_Some_elem_of in Hfirst.
    apply list_elem_of_omap in Hfirst as (r & Hr & Hf).
    case_bool_decide as Hk; [|done]. destruct Hk. exists r. by rewrite Hf. }
  assert (c ∈ df_columns (pivot_table rows)) as Hcol
      by (apply pivot_columns_elem_of; eauto).
  assert (y ∈ df_index (pivot_table rows)) as Hyear
      by (apply pivot_index_elem_of; eauto).
  unfold df_cell.
  rewrite (interpolate_column _ _ _ _ (pivot_column _ _ Hcol)). simpl.
  destruct (position_elem_of _ _ Hyear) as (i & Hpos & Hi). simpl in Hpos. rewrite Hpos. simpl.
  erewrite interpolate_1d_valid; [done|].
  rewrite list_lookup_fmap. simpl in Hi. by rewrite Hi, <- Hfirst.
Qed.

(** ** Duplicates of a (year, country) pair *)

(** C2, as amended: among the surviving records of one (year, country code)
    pair, the first one in input order whose value is not null gives the
    cell of the table. *)
Theorem duplicate_first_non_null records df names pre rec post c d y v :
  records_to_dataframe records = Ok (df, names) ->
  records = pre ++ rec :: post ->
  surviving rec = Some (c, d, Some v) ->
  py_int d = Ok y ->
  (forall rec' d' v', rec' ∈ pre -> surviving rec' = Some (c, d', v') ->
                      py_int d' = Ok y -> v' = None) ->
  df_cell df y c = Some v.
Proof.
  intros (rows & Hrows & ->)%records_to_dataframe_ok -> Hrec Hy Hpre.
  apply collect_rows_ok in Hrows as (new & -> & Hnew). simpl.
  rewrite omap_app in Hnew. simpl in Hnew. rewrite Hrec in Hnew.
  apply Forall2_app_inv_l in Hnew as (new1 & new2 & Hnew1 & Hnew2 & ->).
  apply Forall2_cons_inv_l in Hnew2 as (r & new2' & (Hrc & Hry & Hrv) & _ & ->).
  simpl in *. rewrite Hy in Hry. injection Hry as Hry.
  apply transform_cell, first_value_app; try done.
  intros r' Hr' Hy' Hc'.
  apply list_elem_of_lookup in Hr' as [i Hi].
  destruct (Forall2_lookup_r _ _ _ _ _ Hnew1 Hi) as ([[c' d'] v'] & Hk & Hc'' & Hd' & Hv').
  simpl in *. rewrite Hv'.
  apply list_elem_of_lookup_2, list_elem_of_omap in Hk as (rec' & Hin & Hs).
  eapply (Hpre rec' d'); [done| |congruence].
  rewrite Hs. do 2 f_equal. congruence.
Qed.

Lemma duplicate_first_non_null_witness :
  df_cell (mkDataFrame [2000] ["USA"] [[Some 7%Q]]) 2000 "USA" = Some 7%Q.
Proof.
  apply (duplicate_first_non_null duplicate_records _ {["USA" := "USA"]}
           [mk_record "USA" "2000" None] (mk_record "USA" "2000" (Some 7%Q))
           [mk_record "USA" "2000" (Some 9%Q)] "USA" "2000" 2000 7%Q).
  - vm_compute. reflexivity.
  - reflexivity.
  - vm_compute. reflexivity.
  - reflexivity.
  - intros rec' d' v' Hin Hs _.
    apply list_elem_of_singleton in Hin. subst rec'.
    vm_compute in Hs. congruence.
Defined.

(** The claim as stated fails: the cell does not hold the value of the first
    record of the pair when that value is null. *)
Lemma first_record_value_not_kept :
  exists df names first rest,
    duplicate_records = first :: rest /\
    records_to_dataframe duplicate_records = Ok (df, names) /\
    surviving first = Some ("USA", "2000", rec_value first) /\
    df_cell df 2000 "USA" <> rec_value first.
Proof.
  do 4 eexists. split; [reflexivity|]. split; [vm_compute; reflexivity|].
  split; [vm_compute; reflexivity|]. vm_compute. discriminate.
Qed.

(** ** Aggregate codes *)

Lemma collect_rows_codes records rows names r :
  collect_rows records [] ∅ = Ok (rows, names) -> r ∈ rows ->
  row_iso3 r <> "" /\ (row_iso3 r ∉ WB_AGGREGATE_CODES) /\
  exists rec d, rec ∈ records /\ rec_countryiso3code rec = Some (row_iso3 r) /\
                rec_date rec = Some d /\ py_int d = Ok (row_year r).
Proof.
  intros (new & -> & Hnew)%collect_rows_ok Hr. simpl in *.
  apply list_elem_of_lookup in Hr as [i Hi].
  destruct (Forall2_lookup_r _ _ _ _ _ Hnew Hi) as ([[c d] v] & Hk & Hc & Hd & Hv).
  simpl in *.
  apply list_elem_of_lookup_2, list_elem_of_omap in Hk as (rec & Hin & Hs).
  apply surviving_code in Hs as (Hcode & Hne & Hagg & Hdate & _).
  rewrite Hc. repeat split; [done..|]. by exists rec, d.
Qed.

Lemma growth_columns np_power df window g :
  compute_growth_rate np_power df window = Ok g ->
  df_columns g ⊆ df_columns df.
Proof.
  unfold compute_growth_rate. destruct (_ || _).
  { intros [= <-]. simpl. apply list_subseteq_nil. }
  destruct (window =? 0); [done|]. by intros [= <-].
Qed.

Lemma transform_columns records df names :
  records_to_dataframe records = Ok (df, names) ->
  forall c, c ∈ df_columns df ->
    c <> "" /\ (c ∉ WB_AGGREGATE_CODES) /\
    exists rec d, rec ∈ records /\ rec_countryiso3code rec = Some c /\
                  rec_date rec = Some d.
Proof.
  intros (rows & Hrows & ->)%records_to_dataframe_ok.
  intros c (r & Hr & _ & <-)%pivot_columns_elem_of.
  destruct (collect_rows_codes _ _ _ _ Hrows Hr) as (? & ? & rec & d & ? & ? & ? & _).
  eauto 10.
Qed.

(** C10, as amended: no empty or aggregate code is a column of an indicator
    table or of its growth table, and every column stems from a record with
    a country code and a year.  In the scenario the "WLD" record is dropped,
    USA 2000 = 10 and USA 2002 = 20 are kept, and the table has no row for
    2001, a year without a value for any country; once another country has a
    value for 2001, USA 2001 is interpolated to 15. *)
Theorem aggregates_never_columns np_power records df names wld :
  records_to_dataframe records = Ok (df, names) ->
  rec_countryiso3code wld = Some "WLD" ->
  (forall c, c ∈ df_columns df ->
     c <> "" /\ (c ∉ WB_AGGREGATE_CODES) /\
     exists rec d, rec ∈ records /\ rec_countryiso3code rec = Some c /\
                   rec_date rec = Some d) /\
  (forall g c, compute_growth_rate np_power df 5 = Ok g -> c ∈ df_columns g ->
     c <> "" /\ (c ∉ WB_AGGREGATE_CODES)) /\
  (exists names',
     records_to_dataframe (scenario_records wld) =
     Ok (mkDataFrame [2000; 2002] ["USA"] [[Some 10%Q; Some 20%Q]], names')) /\
  (exists df' names' w,
     records_to_dataframe (scenario_records wld ++ [mk_record "CAN" "2001" (Some 1%Q)]) =
     Ok (df', names') /\
     df_index df' = [2000; 2001; 2002] /\
     df_cell df' 2000 "USA" = Some 10%Q /\
     df_cell df' 2001 "USA" = Some w /\ (w == 15)%Q /\
     df_cell df' 2002 "USA" = Some 20%Q /\
     "WLD" ∉ df_columns df').
Proof.
  intros Hok Hwld.
  pose proof (transform_columns _ _ _ Hok) as Hcols.
  split; [exact Hcols|]. split.
  { intros g c Hg Hc. apply (growth_columns _ _ _ _ Hg) in Hc.
    destruct (Hcols c Hc) as (? & ? & _). done. }
  assert (forall rest rows names0,
            collect_rows (wld :: rest) rows names0 = collect_rows rest rows names0) as Hskip.
  { intros. simpl. by rewrite Hwld. }
  split.
  - unfold records_to_dataframe, scenario_records. rewrite Hskip.
    eexists. vm_compute. reflexivity.
  - unfold records_to_dataframe, scenario_records. simpl app. rewrite Hskip.
    do 3 eexists. split; [vm_compute; reflexivity|].
    repeat split; try (vm_compute; reflexivity).
    vm_compute. intros H. repeat (inversion H as [|? ? ? H']; clear H; rename H' into H).
Qed.

Lemma aggregates_never_columns_witness :
  records_to_dataframe (scenario_records wld_record) =
    Ok (mkDataFrame [2000; 2002] ["USA"] [[Some 10%Q; Some 20%Q]], {["USA" := "USA"]}) /\
  rec_countryiso3code wld_record = Some "WLD" /\
  "USA" <> "" /\ ("USA" ∉ WB_AGGREGATE_CODES).
Proof.
  assert (records_to_dataframe (scenario_records wld_record) =
    Ok (mkDataFrame [2000; 2002] ["USA"] [[Some 10%Q; Some 20%Q]], {["USA" := "USA"]}))
    as Hok by (vm_compute; reflexivity).
  assert (rec_countryiso3code wld_record = Some "WLD") as Hwld by reflexivity.
  split; [exact Hok|]. split; [exact Hwld|].
  destruct (aggregates_never_columns (fun x _ => x) _ _ _ _ Hok Hwld) as (Hcols & _).
  destruct (Hcols "USA") as (Hne & Hagg & _); [by left|]. by split.
Defined.

(** The claim as stated fails on its scenario: the table has no cell for
    (2001, USA). *)
Lemma scenario_2001_not_interpolated :
  exists df names,
    records_to_dataframe (scenario_records wld_record) = Ok (df, names) /\
    (2001 ∉ df_index df) /\
    df_cell df 2001 "USA" = None.
Proof.
  do 2 eexists. split; [vm_compute; reflexivity|]. split; [|vm_compute; reflexivity].
  simpl. intros H. repeat (inversion H as [|? ? ? H']; clear H; rename H' into H).
Qed.

(** ** Interpolation in the table *)




(** ** Growth rates *)

Lemma shift_length window col : length (shift window col) = length col.
Proof.
  unfold shift. destruct (0 <=? window).
  - rewrite length_take, length_app, length_replicate. lia.
  - rewrite length_app, length_drop, length_replicate. lia.
Qed.

Lemma shift_lookup (w : nat) col i :
  (i < length col)%nat ->
  shift (Z.of_nat w) col !! i = if (i <? w)%nat then Some None else col !! (i - w)%nat.
Proof.
  intros Hi. unfold shift.
  destruct (Z.leb_spec 0 (Z.of_nat w)); [|lia].
  rewrite Nat2Z.id, lookup_take_lt by done.
  destruct (Nat.ltb_spec i w).
  - rewrite lookup_app_l by (rewrite length_replicate; lia).
    by apply lookup_replicate_2.
  - rewrite lookup_app_r by (rewrite length_replicate; lia).
    by rewrite length_replicate.
Qed.

Lemma growth_cell_None_l np_power window start :
  growth_cell np_power window None start = None.
Proof. done. Qed.

Lemma growth_cell_None_r np_power window cur :
  growth_cell np_power window cur None = None.
Proof. unfold growth_cell. destruct cur; simpl; by rewrite ?andb_false_r. Qed.

Lemma position_seqZ (y0 : Z) (n : nat) (t : Z) :
  position t (seqZ y0 (Z.of_nat n)) =
  if bool_decide (y0 <= t < y0 + Z.of_nat n) then Some (Z.to_nat (t - y0)) else None.
Proof.
  case_bool_decide as Ht.
  - apply position_NoDup; [apply NoDup_seqZ|].
    rewrite lookup_seqZ. lia.
  - apply position_None. rewrite elem_of_seqZ. lia.
Qed.

(** On a table whose index is a run of consecutive years the code computes
    the five-year growth of the claim: the cell of year [t] is built from
    the values of the years [t] and [t - 5], and is absent unless both are
    present and positive. *)
Lemma growth_rate_consecutive_years np_power df g y0 :
  frame_wf df ->
  df_index df = seqZ y0 (Z.of_nat (df_len df)) ->
  compute_growth_rate np_power df 5 = Ok g ->
  forall t c,
    df_cell g t c = growth_cell np_power 5 (df_cell df t c) (df_cell df (t - 5) c).
Proof.
  intros [Hlen Hwf] Hidx Hg t c.
  unfold compute_growth_rate in Hg.
  destruct (df_empty df || _) eqn:Hsmall.
  - injection Hg as <-. unfold df_cell at 1. simpl.
    apply orb_true_iff in Hsmall as [Hempty|Hshort].
    + unfold df_empty in Hempty. apply orb_true_iff in Hempty as [He|He];
        apply bool_decide_eq_true in He.
      * unfold df_cell. rewrite He. simpl.
        destruct (df_column df c); simpl; by rewrite ?growth_cell_None_l.
      * unfold df_cell, df_column. rewrite He. simpl. by rewrite ?growth_cell_None_l.
    + apply Z.ltb_lt in Hshort. unfold df_cell.
      destruct (df_column df c) as [col|]; simpl; [|done].
      rewrite Hidx, !position_seqZ.
      repeat case_bool_decide; simpl;
        rewrite ?growth_cell_None_l, ?growth_cell_None_r; try done. lia.
  - simpl in Hg. injection Hg as <-.
    unfold df_cell, df_column. simpl.
    destruct (position c (df_columns df)) as [j|]; simpl; [|done].
    rewrite list_lookup_fmap.
    destruct (df_data df !! j) as [col|] eqn:Hcol; simpl; [|done].
    assert (length col = df_len df) as Hcollen.
    { rewrite Forall_forall in Hwf. apply Hwf. by eapply list_elem_of_lookup_2. }
    rewrite Hidx, !position_seqZ.
    case_bool_decide as Ht; simpl; [|done].
    rewrite lookup_zip_with.
    destruct (lookup_lt_is_Some_2 col (Z.to_nat (t - y0))) as [v Hv]; [lia|].
    rewrite Hv. simpl. rewrite (shift_lookup 5) by lia.
    case_bool_decide as Ht5; simpl.
    + destruct (Nat.ltb_spec (Z.to_nat (t - y0)) 5); [lia|].
      replace (Z.to_nat (t - 5 - y0)) with (Z.to_nat (t - y0) - 5)%nat by lia.
      destruct (lookup_lt_is_Some_2 col (Z.to_nat (t - y0) - 5)) as [v' Hv']; [lia|].
      by rewrite Hv'.
    + destruct (Nat.ltb_spec (Z.to_nat (t - y0)) 5); [|lia]. simpl.
      by rewrite growth_cell_None_r.
Qed.

(** C3 at a table with a gap in its years: the cell of 2010 is built from the
    value five rows above, which is the one of 2000, although the table has
    no value for 2005. *)
Theorem growth_shift_counts_rows np_power :
  exists names g,
    records_to_dataframe gap_records = Ok (gap_frame, names) /\
    compute_growth_rate np_power gap_frame 5 = Ok g /\
    df_cell gap_frame 2010 "USA" = Some 6%Q /\
    df_cell gap_frame (2010 - 5) "USA" = None /\
    df_cell gap_frame 2000 "USA" = Some 1%Q /\
    df_cell g 2010 "USA" = growth_cell np_power 5 (Some 6%Q) (Some 1%Q) /\
    growth_cell np_power 5 (Some 6%Q) (Some 1%Q) =
      Some (np_power (6 / 1) (1 / 5) - 1)%Q.
Proof.
  do 2 eexists. split; [vm_compute; reflexivity|].
  split; [vm_compute; reflexivity|].
  repeat split; vm_compute; reflexivity.
Qed.

(** ** Load orchestration *)

Lemma load_all_loaded np_power max_age dumps loads st w st' w' :
  load_all np_power max_age dumps loads st w = Ok (st', w') ->
  _loaded st' = true.
Proof.
  unfold load_all. destruct (_loaded st) eqn:Hl.
  { by intros [= <- <-]. }
  destruct (load_raw_data _ _ _ w) as [raw_data w1].
  destruct (transform_all raw_data st) as [st1|]; [|done].
  unfold mbind, result_bind.
  destruct (growth_all np_power _ st1) as [st2|]; [|done].
  by intros [= <- <-].
Qed.

(** C4: after a completed [load_all] the collector is loaded, and a second
    [load_all] returns the same collector and the same world: no request is
    sent, the clock is not read, the cache file is not touched, and every
    table and the country registry are as they were. *)
Theorem load_all_idempotent np_power max_age dumps loads st w st' w' :
  load_all np_power max_age dumps loads st w = Ok (st', w') ->
  _loaded st' = true /\
  load_all np_power max_age dumps loads st' w' = Ok (st', w').
Proof.
  intros Hload. pose proof (load_all_loaded _ _ _ _ _ _ _ _ Hload) as Hl.
  split; [done|]. unfold load_all. by rewrite Hl.
Qed.

Lemma demo_load_Ok :
  is_ok (load_all (fun x _ => x) 24 (fun _ => "cache") (fun _ => None)
                  new_collector demo_world) = true.
Proof. vm_compute. reflexivity. Qed.

Lemma load_all_idempotent_witness :
  exists st' w',
    load_all (fun x _ => x) 24 (fun _ => "cache") (fun _ => None)
             new_collector demo_world = Ok (st', w') /\
    _loaded st' = true /\
    load_all (fun x _ => x) 24 (fun _ => "cache") (fun _ => None) st' w' = Ok (st', w').
Proof.
  pose proof demo_load_Ok as Hok.
  destruct (load_all (fun x _ => x) 24 (fun _ => "cache") (fun _ => None)
                     new_collector demo_world) as [[st' w']|e] eqn:Hload;
    [|discriminate Hok].
  exists st', w'. split; [reflexivity|].
  exact (load_all_idempotent (fun x _ => x) 24 (fun _ => "cache") (fun _ => None)
           new_collector demo_world st' w' Hload).
Defined.

(** The first load of the example world does send one request per
    indicator and writes the cache file; the collector then knows the
    indicator the provider answered, with its growth table. *)
Lemma first_load_fetches :
  match load_all (fun x _ => x) 24 (fun _ => "cache") (fun _ => None)
                 new_collector demo_world with
  | Ok (st', w') =>
      Some (length (w_requests w'), w_file w', size (_dataframes st'),
            get_latest_values st' "gdp_per_capita")
  | Raise _ => None
  end = Some (57%nat, Some "cache", 114%nat, Ok [("CAN", Some 3%Q); ("USA", Some 6%Q)]).
Proof. vm_compute. reflexivity. Qed.

(** ** The data access facade *)

Lemma mapM_Ok_fmap {A B} (f : A -> result B) (g : A -> B) (l : list A) :
  (forall x, x ∈ l -> f x = Ok (g x)) -> mapM f l = Ok (g <$> l).
Proof.
  induction l as [|x l IH]; intros Hf; simpl; [done|].
  rewrite Hf by left. simpl. rewrite IH; [done|].
  intros. apply Hf. by right.
Qed.

Lemma mapM_Ok {A B} (f : A -> result B) (l : list A) :
  (forall x, x ∈ l -> exists y, f x = Ok y) -> exists ys, mapM f l = Ok ys.
Proof.
  induction l as [|x l IH]; intros Hf; simpl; [by eexists|].
  destruct (Hf x) as [y ->]; [by left|]. simpl.
  destruct IH as [ys ->]; [intros; apply Hf; by right|]. simpl. by eexists.
Qed.

Lemma last_or_none_Ok {K} (s : Series K) : exists v, last_or_none s = Ok v.
Proof.
  unfold last_or_none, iloc_last. destruct s as [|kv s]; simpl; [by eexists|].
  destruct (last (kv :: s)) as [kv'|] eqn:Hlast; [by eexists|].
  by apply last_None in Hlast.
Qed.

Lemma get_indicator_df_unknown st indicator :
  unknown_indicator st indicator -> get_indicator_df st indicator = empty_frame.
Proof. unfold unknown_indicator, get_indicator_df. by intros ->. Qed.

Lemma get_indicator_df_wf st indicator :
  frames_wf st -> frame_wf (get_indicator_df st indicator).
Proof.
  intros Hwf. unfold get_indicator_df.
  destruct (_dataframes st !! indicator) as [df|] eqn:Hdf; simpl.
  - by eapply Hwf.
  - split; simpl; [done|constructor].
Qed.

Lemma get_indicator_df_columns st iso3 indicator :
  unknown_country st iso3 -> iso3 ∉ df_columns (get_indicator_df st indicator).
Proof.
  intros Hc. unfold get_indicator_df.
  destruct (_dataframes st !! indicator) as [df|] eqn:Hdf; simpl.
  - by eapply Hc.
  - apply not_elem_of_nil.
Qed.

Lemma get_country_series_no_column st iso3 indicator :
  iso3 ∉ df_columns (get_indicator_df st indicator) ->
  get_country_series st iso3 indicator = Ok [].
Proof.
  intros Hc. unfold get_country_series.
  rewrite (bool_decide_eq_true_2 _ Hc). by rewrite orb_true_r.
Qed.

Lemma get_country_series_Ok st iso3 indicator :
  frames_wf st -> exists s, get_country_series st iso3 indicator = Ok s.
Proof.
  intros Hwf. unfold get_country_series.
  destruct (df_empty _ || _) eqn:Hguard; [by eexists|].
  apply orb_false_iff in Hguard as [_ Hcol].
  apply bool_decide_eq_false in Hcol. apply dec_stable in Hcol.
  unfold getitem_column, df_column.
  destruct (position_elem_of _ _ Hcol) as (j & -> & Hj). simpl.
  destruct (get_indicator_df_wf st indicator Hwf) as [Hlen _].
  destruct (lookup_lt_is_Some_2 (df_data (get_indicator_df st indicator)) j) as [col ->].
  { rewrite Hlen. by eapply lookup_lt_Some. }
  simpl. by eexists.
Qed.

Lemma get_latest_values_Ok st indicator :
  exists s, get_latest_values st indicator = Ok s.
Proof.
  unfold get_latest_values. destruct (df_empty _); [by eexists|].
  destruct (mapM_Ok
    (fun col : list (option Q) =>
       last_or_none (dropna (zip (df_index (get_indicator_df st indicator)) col)))
    (df_data (get_indicator_df st indicator))) as [values ->].
  { intros col _. apply last_or_none_Ok. }
  simpl. by eexists.
Qed.

Lemma indicator_profile_of_Ok st iso3 ind_name :
  frames_wf st -> exists p, indicator_profile_of st iso3 ind_name = Ok p.
Proof.
  intros Hwf. unfold indicator_profile_of.
  destruct (get_country_series_Ok st iso3 ind_name Hwf) as [s ->]. simpl.
  destruct (last_or_none_Ok s) as [v ->]. simpl.
  destruct (get_country_series_Ok st iso3 (growth_key ind_name) Hwf) as [gs ->]. simpl.
  destruct (last_or_none_Ok gs) as [gv ->]. simpl. by eexists.
Qed.

Lemma indicator_profile_of_unknown st iso3 ind_name :
  unknown_country st iso3 ->
  indicator_profile_of st iso3 ind_name = Ok (IndicatorProfile None [] None).
Proof.
  intros Hc. unfold indicator_profile_of.
  by rewrite !get_country_series_no_column by by apply get_indicator_df_columns.
Qed.

Lemma get_country_profile_v2_Ok st iso3 :
  frames_wf st -> exists p, get_country_profile_v2 st iso3 = Ok p.
Proof.
  intros Hwf. unfold get_country_profile_v2.
  match goal with |- context [mapM ?f CLUSTERS] => destruct (mapM_Ok f CLUSTERS) as [data ->] end.
  { intros cl _.
    match goal with |- context [mapM ?f ?l] => destruct (mapM_Ok f l) as [inds ->] end.
    - intros ind _. destruct (indicator_profile_of_Ok st iso3 ind.1 Hwf) as [p ->].
      simpl. by eexists.
    - simpl. by eexists. }
  simpl. by eexists.
Qed.

Lemma get_country_profile_v2_unknown st iso3 :
  unknown_country st iso3 ->
  get_country_profile_v2 st iso3 =
  Ok (CountryProfile iso3 (get_country_name st iso3) empty_profile_data).
Proof.
  intros Hc. unfold get_country_profile_v2, empty_profile_data.
  erewrite mapM_Ok_fmap; [done|].
  intros cl _. simpl.
  erewrite mapM_Ok_fmap; [done|].
  intros ind _. simpl. by rewrite indicator_profile_of_unknown.
Qed.

Lemma yearly_data_Ok st iso3 names :
  frames_wf st -> exists d, yearly_data st iso3 names = Ok d.
Proof.
  intros Hwf. unfold yearly_data.
  match goal with |- context [mapM ?f ?l] => destruct (mapM_Ok f l) as [sl ->] end.
  - intros ind _. destruct (get_country_series_Ok st iso3 ind Hwf) as [s ->].
    simpl. by eexists.
  - simpl. by eexists.
Qed.

Lemma yearly_data_unknown st iso3 names :
  unknown_country st iso3 -> yearly_data st iso3 names = Ok [].
Proof.
  intros Hc. unfold yearly_data.
  erewrite (mapM_Ok_fmap _ (fun ind_name : string => (ind_name, ([] : Series Z)))).
  - simpl. f_equal. induction names as [|n names IH]; simpl; [done|]. apply IH.
  - intros ind _. simpl.
    by rewrite get_country_series_no_column by by apply get_indicator_df_columns.
Qed.

Lemma build_master_snapshot_Ok st :
  frames_wf st -> exists rows, build_master_snapshot st = Ok rows.
Proof.
  intros Hwf. unfold build_master_snapshot. apply mapM_Ok. intros iso3 _.
  match goal with |- context [mapM ?f ?l] => destruct (mapM_Ok f l) as [vs ->] end.
  - intros ind _. destruct (get_country_series_Ok st iso3 ind Hwf) as [s ->]. simpl.
    destruct (last_or_none_Ok s) as [v ->]. simpl. by eexists.
  - simpl. by eexists.
Qed.

Lemma get_cluster_data_Ok st cluster :
  frames_wf st -> exists d, get_cluster_data st cluster = Ok d.
Proof.
  intros Hwf. unfold get_cluster_data.
  destruct (dict_get cluster CLUSTERS) as [cdef|]; [|by eexists].
  match goal with |- context [mapM ?f ?l] => destruct (mapM_Ok f l) as [pc ->] end.
  - intros iso3 _. destruct (yearly_data_Ok st iso3 (indicators cdef).*1 Hwf) as [d ->].
    simpl. by eexists.
  - simpl. by eexists.
Qed.

Lemma get_country_cluster_profile_Ok st iso3 :
  frames_wf st -> exists p, get_country_cluster_profile st iso3 = Ok p.
Proof.
  intros Hwf. unfold get_country_cluster_profile. apply mapM_Ok. intros cl _.
  destruct (yearly_data_Ok st iso3 (indicators cl.2).*1 Hwf) as [d ->].
  simpl. by eexists.
Qed.

Lemma get_country_cluster_profile_unknown st iso3 :
  unknown_country st iso3 ->
  get_country_cluster_profile st iso3 =
  Ok ((fun cl : string * cluster_def => (cl.1, [])) <$> CLUSTERS).
Proof.
  intros Hc. unfold get_country_cluster_profile.
  apply mapM_Ok_fmap. intros cl _. by rewrite yearly_data_unknown.
Qed.

(** *** The tables of a loaded collector are well formed *)

Lemma empty_frame_wf : frame_wf empty_frame.
Proof. split; simpl; [done|constructor]. Qed.

Lemma interpolate_wf limit df : frame_wf df -> frame_wf (interpolate limit df).
Proof.
  intros [Hlen Hcols]. split; simpl.
  - by rewrite length_fmap.
  - apply Forall_fmap. eapply Forall_impl; [exact Hcols|].
    intros col Hcol. simpl. by rewrite interpolate_1d_length.
Qed.

Lemma records_to_dataframe_wf records df names :
  records_to_dataframe records = Ok (df, names) -> frame_wf df.
Proof.
  intros (rows & _ & ->)%records_to_dataframe_ok.
  apply interpolate_wf, pivot_wf.
Qed.

Lemma compute_growth_rate_wf np_power df window g :
  frame_wf df -> compute_growth_rate np_power df window = Ok g -> frame_wf g.
Proof.
  intros [Hlen Hcols]. unfold compute_growth_rate.
  destruct (_ || _); [intros [= <-]; apply empty_frame_wf|].
  destruct (window =? 0); [done|]. intros [= <-]. split; simpl.
  - by rewrite length_fmap.
  - apply Forall_fmap. eapply Forall_impl; [exact Hcols|].
    intros col Hcol. simpl. unfold df_len in *. simpl.
    rewrite length_zip_with, shift_length. lia.
Qed.

Lemma transform_all_wf raw_data st st' :
  frames_wf st -> transform_all raw_data st = Ok st' -> frames_wf st'.
Proof.
  revert st. induction raw_data as [|[name entry] rest IH]; intros st Hwf; simpl.
  { by intros [= <-]. }
  destruct (transform_entry entry) as [[df names]|] eqn:Hentry; simpl; [|done].
  apply IH. unfold frames_wf; simpl. apply map_Forall_insert_2; [|done].
  destruct entry as [[ts|]|records]; simpl in Hentry.
  - done.
  - injection Hentry as <- <-. apply empty_frame_wf.
  - by eapply records_to_dataframe_wf.
Qed.

Lemma growth_all_wf np_power names st st' :
  frames_wf st -> growth_all np_power names st = Ok st' -> frames_wf st'.
Proof.
  revert st. induction names as [|name rest IH]; intros st Hwf; simpl.
  { by intros [= <-]. }
  destruct (compute_growth_rate _ _ _) as [g|] eqn:Hg; simpl; [|done].
  apply IH. unfold frames_wf; simpl. apply map_Forall_insert_2; [|done].
  eapply compute_growth_rate_wf; [|exact Hg].
  by apply get_indicator_df_wf.
Qed.

Lemma load_all_frames_wf np_power max_age dumps loads st w st' w' :
  frames_wf st ->
  load_all np_power max_age dumps loads st w = Ok (st', w') ->
  frames_wf st'.
Proof.
  intros Hwf. unfold load_all. destruct (_loaded st).
  { by intros [= <- <-]. }
  destruct (load_raw_data _ _ _ w) as [raw_data w1].
  destruct (transform_all raw_data st) as [st1|] eqn:H1; [|done].
  unfold mbind, result_bind.
  destruct (growth_all np_power _ st1) as [st2|] eqn:H2; [|done].
  intros [= <- <-]. unfold frames_wf; simpl.
  eapply growth_all_wf; [|exact H2]. by eapply transform_all_wf.
Qed.

Lemma new_collector_wf : frames_wf new_collector.
Proof. apply map_Forall_empty. Qed.

(** *** The tables of a loaded collector have countries as columns *)

Lemma transform_all_country_columns raw_data st st' :
  countries_only st -> transform_all raw_data st = Ok st' -> countries_only st'.
Proof.
  revert st. induction raw_data as [|[name entry] rest IH]; intros st Hst; simpl.
  { by intros [= <-]. }
  destruct (transform_entry entry) as [[df names]|] eqn:Hentry; simpl; [|done].
  apply IH. unfold countries_only; simpl. apply map_Forall_insert_2; [|done].
  destruct entry as [[ts|]|records]; simpl in Hentry.
  - done.
  - injection Hentry as <- <-. by intros c Hc%elem_of_nil.
  - intros c Hc. destruct (transform_columns _ _ _ Hentry c Hc) as (? & ? & _). done.
Qed.

Lemma growth_all_country_columns np_power names st st' :
  countries_only st -> growth_all np_power names st = Ok st' -> countries_only st'.
Proof.
  revert st. induction names as [|name rest IH]; intros st Hst; simpl.
  { by intros [= <-]. }
  destruct (compute_growth_rate _ _ _) as [g|] eqn:Hg; simpl; [|done].
  apply IH. unfold countries_only; simpl. apply map_Forall_insert_2; [|done].
  intros c Hc. apply (growth_columns _ _ _ _ Hg) in Hc.
  destruct (_dataframes st !! name) as [df|] eqn:Hdf; simpl in Hc.
  - by apply (Hst name df).
  - by apply elem_of_nil in Hc.
Qed.

(** No table of the collector, indicator table or growth table, has an
    empty or aggregate code as a column once [load_all] has filled it. *)
Lemma load_all_country_columns np_power max_age dumps loads st w st' w' :
  countries_only st ->
  load_all np_power max_age dumps loads st w = Ok (st', w') ->
  countries_only st'.
Proof.
  intros Hst. unfold load_all. destruct (_loaded st).
  { by intros [= <- <-]. }
  destruct (load_raw_data _ _ _ w) as [raw_data w1].
  destruct (transform_all raw_data st) as [st1|] eqn:H1; [|done].
  unfold mbind, result_bind.
  destruct (growth_all np_power _ st1) as [st2|] eqn:H2; [|done].
  intros [= <- <-]. unfold countries_only; simpl.
  eapply growth_all_country_columns; [|exact H2].
  by eapply transform_all_country_columns.
Qed.

(** C9: on a collector with well-formed tables (such as any collector that
    [load_all] filled) no accessor raises; an indicator name without a table
    gives the empty frame, an empty series and empty latest values; a
    country code that is a column of no table gives an empty series for
    every indicator, a profile whose every indicator has no current value,
    an empty history and no growth, an empty legacy profile, and its own
    code as the display name when the registry does not know it; an unknown
    cluster name gives no indicators and no data. *)
Theorem facade_unknown_is_empty st iso3 indicator cluster :
  frames_wf st ->
  ((exists s, get_country_series st iso3 indicator = Ok s) /\
   (exists s, get_latest_values st indicator = Ok s) /\
   (exists p, get_country_profile_v2 st iso3 = Ok p) /\
   (exists p, get_country_cluster_profile st iso3 = Ok p) /\
   (exists rows, build_master_snapshot st = Ok rows) /\
   (exists d, get_cluster_data st cluster = Ok d)) /\
  (unknown_indicator st indicator ->
     get_indicator_df st indicator = empty_frame /\
     get_country_series st iso3 indicator = Ok [] /\
     get_latest_values st indicator = Ok []) /\
  (unknown_country st iso3 ->
     get_country_series st iso3 indicator = Ok [] /\
     get_country_profile_v2 st iso3 =
       Ok (CountryProfile iso3 (get_country_name st iso3) empty_profile_data) /\
     get_country_cluster_profile st iso3 =
       Ok ((fun cl : string * cluster_def => (cl.1, [])) <$> CLUSTERS)) /\
  (_country_names st !! iso3 = None -> get_country_name st iso3 = iso3) /\
  (dict_get cluster CLUSTERS = None ->
     get_cluster_indicators cluster = [] /\ get_cluster_data st cluster = Ok []).
Proof.
  intros Hwf. split; [|split; [|split; [|split]]].
  - auto 10 using get_country_series_Ok, get_latest_values_Ok,
      get_country_profile_v2_Ok, get_country_cluster_profile_Ok,
      build_master_snapshot_Ok, get_cluster_data_Ok.
  - intros Hind. pose proof (get_indicator_df_unknown _ _ Hind) as Hdf.
    split; [done|]. split.
    + apply get_country_series_no_column. rewrite Hdf. apply not_elem_of_nil.
    + unfold get_latest_values. by rewrite Hdf.
  - intros Hc. split; [|split].
    + by apply get_country_series_no_column, get_indicator_df_columns.
    + by apply get_country_profile_v2_unknown.
    + by apply get_country_cluster_profile_unknown.
  - unfold get_country_name. by intros ->.
  - unfold get_cluster_indicators, get_cluster_data. by intros ->.
Qed.

Lemma demo_collector_wf : frames_wf demo_collector.
Proof.
  apply map_Forall_singleton. split; simpl; [done|].
  repeat constructor.
Qed.

Lemma facade_unknown_is_empty_witness :
  frames_wf demo_collector /\
  unknown_indicator demo_collector "no_such_indicator" /\
  unknown_country demo_collector "XXX" /\
  get_country_series demo_collector "XXX" "gdp_per_capita" = Ok [] /\
  get_country_series demo_collector "USA" "no_such_indicator" = Ok [] /\
  get_latest_values demo_collector "no_such_indicator" = Ok [] /\
  get_country_profile_v2 demo_collector "XXX" =
    Ok (CountryProfile "XXX" (get_country_name demo_collector "XXX") empty_profile_data).
Proof.
  assert (unknown_indicator demo_collector "no_such_indicator") as Hind by reflexivity.
  assert (unknown_country demo_collector "XXX") as Hc.
  { apply map_Forall_singleton. simpl. intros H.
    repeat (inversion H as [|? ? ? H']; clear H; rename H' into H). }
  destruct (facade_unknown_is_empty demo_collector "XXX" "gdp_per_capita" ""
              demo_collector_wf) as (_ & _ & Hunk_c & _).
  destruct (facade_unknown_is_empty demo_collector "USA" "no_such_indicator" ""
              demo_collector_wf) as (_ & Hunk_ind & _).
  destruct (Hunk_ind Hind) as (_ & Hs & Hl).
  destruct (Hunk_c Hc) as (Hs' & Hp & _).
  split; [exact demo_collector_wf|]. split; [exact Hind|]. split; [exact Hc|].
  split; [exact Hs'|]. split; [exact Hs|]. split; [exact Hl|]. exact Hp.
Defined.

(** ** The cache store *)

Lemma dict_get_None {V} (name : string) (d : list (string * V)) :
  name ∉ d.*1 -> dict_get name d = None.
Proof.
  induction d as [|[k v] d IH]; simpl; [done|].
  intros Hnin. apply not_elem_of_cons in Hnin as [Hne Hnin].
  by rewrite decide_False, IH.
Qed.

Lemma dict_get_as_entries name data :
  dict_get name (as_entries data) = CRecords <$> dict_get name data.
Proof.
  induction data as [|[k v] data IH]; simpl; [done|].
  by destruct (decide (name = k)).
Qed.

Lemma foldl_insert_lookup {V} (m : gmap string V) (d : list (string * V)) name :
  NoDup d.*1 ->
  foldl (fun acc kv => <[kv.1 := kv.2]> acc) m d !! name =
  match dict_get name d with
  | Some v => Some v
  | None => m !! name
  end.
Proof.
  revert m. induction d as [|[k v] d IH]; intros m Hnd; simpl; [done|].
  apply NoDup_cons in Hnd as [Hk Hnd]. rewrite IH by done.
  destruct (decide (name = k)) as [->|Hne].
  - rewrite dict_get_None by done. apply lookup_insert_eq.
  - destruct (dict_get name d); [done|]. by apply lookup_insert_ne.
Qed.

Lemma cache_of_lookup now data name :
  NoDup data.*1 -> name <> meta_key ->
  cache_of now (as_entries data) !! name = CRecords <$> dict_get name data.
Proof.
  intros Hnd Hne. unfold cache_of. rewrite foldl_insert_lookup.
  - rewrite dict_get_as_entries. destruct (dict_get name data); simpl; [done|].
    by apply lookup_singleton_ne.
  - unfold as_entries. by rewrite <- list_fmap_compose.
Qed.

Lemma cache_of_meta now data :
  meta_key ∉ data.*1 ->
  cache_of now (as_entries data) !! meta_key = Some (CMeta (Some now)).
Proof.
  intros Hnin. unfold cache_of.
  assert (forall m : gmap string cache_entry,
            foldl (fun acc kv => <[kv.1 := kv.2]> acc) m (as_entries data) !! meta_key
            = m !! meta_key) as ->.
  { induction data as [|[k v] data IH]; intros m; simpl; [done|].
    simpl in Hnin. apply not_elem_of_cons in Hnin as [Hne Hnin].
    rewrite IH by done. by apply lookup_insert_ne. }
  apply lookup_singleton_eq.
Qed.

Lemma cache_read_after_write max_age dumps loads data w :
  NoDup data.*1 ->
  meta_key ∉ data.*1 ->
  w_disk_ok w = true ->
  loads (dumps (cache_of (w_clock w (w_ticks w)) (as_entries data))) =
    Some (cache_of (w_clock w (w_ticks w)) (as_entries data)) ->
  ((w_clock w (S (w_ticks w)) - w_clock w (w_ticks w)) / 3600 <= inject_Z max_age)%Q ->
  exists cache w',
    load_cache max_age loads (save_cache dumps (as_entries data) w) = (Some cache, w') /\
    forall name, name <> meta_key -> cache !! name = CRecords <$> dict_get name data.
Proof.
  intros Hnd Hmeta Hdisk Hcodec Hfresh.
  unfold save_cache, load_cache, time_time, write_file. simpl.
  rewrite Hdisk. simpl. rewrite Hcodec, cache_of_meta by done. simpl.
  apply Qle_bool_iff in Hfresh. rewrite Hfresh. simpl.
  do 2 eexists. split; [done|].
  intros name Hne. by apply cache_of_lookup.
Qed.

Lemma meta_key_not_indicator : meta_key ∉ INDICATORS.*1.
Proof. apply (bool_decide_unpack _). vm_compute. exact I. Qed.

(** C5: for a raw-record map keyed by indicator names, when the write
    succeeds, the JSON text of the written dict parses back to that dict,
    and the clock reading of the read is within the freshness window of the
    one of the write, the cache read returns a dict that holds under every
    indicator name exactly the records written under it, and nothing under
    an indicator name that was not written. *)
Theorem cache_round_trip max_age dumps loads data w :
  NoDup data.*1 ->
  data.*1 ⊆ INDICATORS.*1 ->
  w_disk_ok w = true ->
  loads (dumps (cache_of (w_clock w (w_ticks w)) (as_entries data))) =
    Some (cache_of (w_clock w (w_ticks w)) (as_entries data)) ->
  ((w_clock w (S (w_ticks w)) - w_clock w (w_ticks w)) / 3600 <= inject_Z max_age)%Q ->
  exists cache w',
    load_cache max_age loads (save_cache dumps (as_entries data) w) = (Some cache, w') /\
    forall name, name ∈ INDICATORS.*1 ->
                 cache !! name = CRecords <$> dict_get name data.
Proof.
  intros Hnd Hkeys Hdisk Hcodec Hfresh.
  destruct (cache_read_after_write max_age dumps loads data w)
    as (cache & w' & Hread & Hsame); try done.
  { intros Hin. apply meta_key_not_indicator. by apply Hkeys. }
  exists cache, w'. split; [done|]. intros name Hname. apply Hsame.
  intros ->. by apply meta_key_not_indicator.
Qed.

(** The key ["_meta"] is reserved: a map that uses it overwrites the
    timestamp entry, and the read that follows is a cache miss. *)
Lemma cache_meta_key_reserved max_age dumps loads w :
  w_disk_ok w = true ->
  loads (dumps (cache_of (w_clock w (w_ticks w)) (as_entries [(meta_key, [])]))) =
    Some (cache_of (w_clock w (w_ticks w)) (as_entries [(meta_key, [])])) ->
  (load_cache max_age loads (save_cache dumps (as_entries [(meta_key, [])]) w)).1 = None.
Proof.
  intros Hdisk Hcodec.
  assert (forall t, cache_of t (as_entries [(meta_key, [])]) !! meta_key
                    = Some (CRecords [])) as Hmeta.
  { intros t. unfold cache_of, as_entries. simpl. apply lookup_insert_eq. }
  revert Hcodec Hmeta. generalize (as_entries [(meta_key, [])]).
  intros entries Hcodec Hmeta.
  unfold save_cache, load_cache, time_time, write_file. simpl.
  rewrite Hdisk. simpl. by rewrite Hcodec, Hmeta.
Qed.

Lemma cache_round_trip_witness :
  exists cache w',
    load_cache 24 demo_loads (save_cache demo_dumps (as_entries demo_data) demo_world)
      = (Some cache, w') /\
    cache !! "co2_emissions" = Some (CRecords (scenario_records wld_record)) /\
    cache !! "gdp_growth" = Some (CRecords []) /\
    cache !! "inflation" = None.
Proof.
  destruct (cache_round_trip 24 demo_dumps demo_loads demo_data demo_world)
    as (cache & w' & Hread & Hsame).
  - apply (bool_decide_unpack _). vm_compute. exact I.
  - apply (bool_decide_unpack _). vm_compute. exact I.
  - reflexivity.
  - reflexivity.
  - vm_compute. discriminate.
  - exists cache, w'. split; [exact Hread|].
    split; [|split].
    + rewrite Hsame; [reflexivity|]. apply (bool_decide_unpack _). vm_compute. exact I.
    + rewrite Hsame; [reflexivity|]. apply (bool_decide_unpack _). vm_compute. exact I.
    + rewrite Hsame; [reflexivity|]. apply (bool_decide_unpack _). vm_compute. exact I.
Defined.

(** ** Aligning two series *)

Lemma dict_get_lookup {V} (d : list (string * V)) i k v :
  NoDup d.*1 -> d !! i = Some (k, v) -> dict_get k d = Some v.
Proof.
  revert i. induction d as [|[k' v'] d IH]; intros i Hnd Hi; simpl; [done|].
  apply NoDup_cons in Hnd as [Hk Hnd].
  destruct i as [|i]; simpl in Hi.
  - injection Hi as -> ->. by rewrite decide_True.
  - rewrite decide_False; [by eapply IH|].
    intros ->. apply Hk. apply list_elem_of_fmap. exists (k', v). split; [done|].
    by eapply list_elem_of_lookup_2.
Qed.

Lemma dict_get_Some {V} (d : list (string * V)) k v :
  dict_get k d = Some v -> (k, v) ∈ d.
Proof.
  induction d as [|[k' v'] d IH]; simpl; [done|].
  destruct (decide (k = k')) as [->|Hne].
  - intros [= ->]. left.
  - intros H. right. by apply IH.
Qed.

Lemma dict_get_elem_of {V} (d : list (string * V)) k v :
  NoDup d.*1 -> (k, v) ∈ d -> dict_get k d = Some v.
Proof.
  intros Hnd [i Hi]%list_elem_of_lookup. by eapply dict_get_lookup.
Qed.

Lemma elem_of_dropna2 rows k a b :
  (k, a, b) ∈ dropna2 rows <-> (k, Some a, Some b) ∈ rows.
Proof.
  unfold dropna2. rewrite list_elem_of_omap. split.
  - intros ([[k' [a'|]] [b'|]] & Hin & Heq); simplify_eq. done.
  - intros Hin. by exists (k, Some a, Some b).
Qed.

Lemma dropna2_keys_sublist rows : (dropna2 rows).*1.*1 `sublist_of` rows.*1.*1.
Proof.
  induction rows as [|[[k [a|]] [b|]] rows IH]; simpl;
    try (by constructor); by apply sublist_cons.
Qed.

Lemma align_keys x y rows :
  align x y = Ok rows -> NoDup x.*1 -> NoDup y.*1 -> NoDup rows.*1.*1.
Proof.
  unfold align. intros Hal Hx Hy. destruct (decide (x.*1 = y.*1)) as [Heq|Hne].
  - injection Hal as <-.
    assert ((zip_with (fun kx ky : string * option Q => (kx.1, kx.2, ky.2)) x y).*1.*1 = x.*1)
      as ->; [|done].
    clear Hx Hy. revert y Heq. induction x as [|[k a] x IH]; intros [|[k' b] y] Heq;
      simpl in *; try done.
    injection Heq as -> Heq. f_equal. by apply IH.
  - destruct (decide _); [|done]. injection Hal as <-.
    rewrite <- !list_fmap_compose.
    assert (((fst ∘ fst) ∘ (fun k : string => (k, mjoin (dict_get k x), mjoin (dict_get k y))))
            <$> union_index x.*1 y.*1 = union_index x.*1 y.*1) as ->.
    { rewrite <- (list_fmap_id (union_index _ _)) at 2. by apply list_fmap_ext. }
    unfold union_index. rewrite decide_False by done.
    rewrite merge_sort_Permutation. apply NoDup_remove_dups.
Qed.

Lemma align_rows x y rows k a b :
  align x y = Ok rows -> NoDup x.*1 -> NoDup y.*1 ->
  (k, Some a, Some b) ∈ rows <->
  dict_get k x = Some (Some a) /\ dict_get k y = Some (Some b).
Proof.
  unfold align. intros Hal Hx Hy. destruct (decide (x.*1 = y.*1)) as [Heq|Hne].
  - injection Hal as <-. split.
    + intros [i Hi]%list_elem_of_lookup. apply lookup_zip_with_Some in Hi
        as ([k1 a1] & [k2 b2] & Hrow & Hxi & Hyi). simpl in Hrow. simplify_eq.
      assert (k1 = k2) as <-.
      { assert (x.*1 !! i = Some k1) as H1 by (by rewrite list_lookup_fmap, Hxi).
        assert (y.*1 !! i = Some k2) as H2 by (by rewrite list_lookup_fmap, Hyi).
        rewrite Heq in H1. congruence. }
      split; by eapply dict_get_lookup.
    + intros [Hkx Hky]. apply dict_get_Some in Hkx, Hky.
      apply list_elem_of_lookup in Hkx as [i Hi], Hky as [j Hj].
      assert (i = j) as <-.
      { eapply (NoDup_lookup x.*1 i j k); [done| |].
        - by rewrite list_lookup_fmap, Hi.
        - rewrite Heq. by rewrite list_lookup_fmap, Hj. }
      apply list_elem_of_lookup. exists i. apply lookup_zip_with_Some.
      by exists (k, Some a), (k, Some b).
  - destruct (decide _); [|done]. injection Hal as <-.
    rewrite list_elem_of_fmap. split.
    + intros (k' & Heq & _). injection Heq as <- Ha Hb.
      split.
      * destruct (dict_get k x) as [[?|]|]; simpl in *; congruence.
      * destruct (dict_get k y) as [[?|]|]; simpl in *; congruence.
    + intros [Hkx Hky]. exists k. rewrite Hkx, Hky. split; [done|].
      unfold union_index. rewrite decide_False by done.
      rewrite merge_sort_Permutation, elem_of_remove_dups, elem_of_app. left.
      apply list_elem_of_fmap. exists (k, Some a). split; [done|].
      by apply dict_get_Some.
Qed.

(** The aligned rows are the labels with a value in both series. *)
Lemma combine_series_spec x y :
  NoDup x.*1 -> NoDup y.*1 ->
  exists rows,
    combine_series x y = Ok rows /\
    NoDup rows.*1.*1 /\
    forall k a b, (k, a, b) ∈ rows <->
                  dict_get k x = Some (Some a) /\ dict_get k y = Some (Some b).
Proof.
  intros Hx Hy. unfold combine_series.
  destruct (align x y) as [rows|e] eqn:Hal.
  - exists (dropna2 rows). split; [done|]. split.
    + eapply sublist_NoDup; [by eapply align_keys|apply dropna2_keys_sublist].
    + intros k a b. rewrite elem_of_dropna2. by eapply align_rows.
  - exfalso. unfold align in Hal. destruct (decide _); [done|].
    destruct (decide _) as [|Hn]; [done|]. by apply Hn.
Qed.

(** ** Green-growth ranking *)

Lemma is_green_spec k c g :
  is_green (k, c, g) = true <-> (0 < g /\ c < 0)%Q.
Proof.
  unfold is_green. simpl. rewrite andb_true_iff, !negb_true_iff.
  rewrite <- !not_true_iff_false, !Qle_bool_iff.
  split; intros [H1 H2]; split; (by apply Qnot_le_lt) || (by apply Qlt_not_le).
Qed.

#[local] Instance score_ge_trans : Transitive score_ge.
Proof. intros a b c Hab Hbc. unfold score_ge in *. by eapply Qle_trans. Qed.

#[local] Instance score_ge_total : Total score_ge.
Proof.
  intros a b. unfold score_ge.
  destruct (Qlt_le_dec (score_of a) (score_of b)) as [Hlt|Hle]; [|by left].
  right. by apply Qlt_le_weak.
Qed.

Lemma head_rows_nonneg {A} (n : Z) (l : list A) :
  0 <= n -> head_rows n l = take (Z.to_nat n) l.
Proof. intros Hn. unfold head_rows. by destruct (Z.leb_spec 0 n); [|lia]. Qed.



(** ** Least squares *)

Section sums.
Context {A : Type} (fx fy : A -> Q).
Implicit Types (l : list A) (a b m : Q).
Local Open Scope Q_scope.

Lemma Qnat_S (n : nat) : Qnat (S n) == 1 + Qnat n.
Proof. unfold Qnat. rewrite Nat2Z.inj_succ, <- Z.add_1_l, inject_Z_plus. reflexivity. Qed.

Lemma zip_with_fmap_same {B} (f : Q -> Q -> B) l :
  zip_with f (fx <$> l) (fy <$> l) = (fun p => f (fx p) (fy p)) <$> l.
Proof. induction l as [|p l IH]; csimpl; [done|]. by f_equal. Qed.

Lemma Qsquare_nonneg (x : Q) : 0 <= x * x.
Proof.
  destruct x as [n d]. unfold Qle, Qmult. simpl. rewrite Z.mul_1_r.
  apply Z.square_nonneg.
Qed.

Lemma Qsum_nonneg (qs : list Q) : Forall (fun q => 0 <= q) qs -> 0 <= Qsum qs.
Proof.
  induction 1 as [|q qs Hq _ IH]; simpl; [apply Qle_refl|].
  replace 0 with (0 + 0) by reflexivity. by apply Qplus_le_compat.
Qed.

Lemma sse_expand a b l :
  sse a b (fx <$> l) (fy <$> l) ==
    Qsum ((fun p => fy p * fy p) <$> l)
    - 2 * a * Qsum ((fun p => fx p * fy p) <$> l)
    - 2 * b * Qsum (fy <$> l)
    + a * a * Qsum ((fun p => fx p * fx p) <$> l)
    + 2 * a * b * Qsum (fx <$> l)
    + b * b * Qnat (length l).
Proof.
  unfold sse. rewrite zip_with_fmap_same.
  induction l as [|p l IH]; csimpl; [unfold Qnat; simpl; ring|].
  rewrite IH, Qnat_S. ring.
Qed.

Lemma centered_squares (f : A -> Q) m l :
  Qsum ((fun xi => (xi - m) * (xi - m)) <$> (f <$> l)) ==
    Qsum ((fun p => f p * f p) <$> l) - 2 * m * Qsum (f <$> l)
    + m * m * Qnat (length l).
Proof.
  induction l as [|p l IH]; csimpl; [unfold Qnat; simpl; ring|].
  rewrite IH, Qnat_S. ring.
Qed.

Lemma centered_products mx my l :
  Qsum (zip_with (fun xi yi => (xi - mx) * (yi - my)) (fx <$> l) (fy <$> l)) ==
    Qsum ((fun p => fx p * fy p) <$> l) - mx * Qsum (fy <$> l)
    - my * Qsum (fx <$> l) + mx * my * Qnat (length l).
Proof.
  rewrite zip_with_fmap_same.
  induction l as [|p l IH]; csimpl; [unfold Qnat; simpl; ring|].
  rewrite IH, Qnat_S. ring.
Qed.

Lemma line_squares al be l :
  Qsum ((fun p => (al * fx p + be) * (al * fx p + be)) <$> l) ==
    al * al * Qsum ((fun p => fx p * fx p) <$> l)
    + 2 * al * be * Qsum (fx <$> l) + be * be * Qnat (length l).
Proof.
  induction l as [|p l IH]; csimpl; [unfold Qnat; simpl; ring|].
  rewrite IH, Qnat_S. ring.
Qed.

Lemma line_squares_nonneg al be l :
  0 <= Qsum ((fun p => (al * fx p + be) * (al * fx p + be)) <$> l).
Proof.
  apply Qsum_nonneg, Forall_fmap, Forall_forall. intros p _. simpl.
  apply Qsquare_nonneg.
Qed.
End sums.

Lemma centered_nonzero (n S SS : Q) :
  (~ (SS - 2 * (S / n) * S + S / n * (S / n) * n) / n == 0 ->
   ~ n == 0 /\ ~ SS * n - 2 * S * S + S * S == 0)%Q.
Proof.
  intros Hss.
  assert (~ n == 0)%Q as Hn.
  { intros Hn. apply Hss. unfold Qdiv.
    etransitivity; [apply Qmult_comp; [reflexivity|apply Qinv_comp, Hn]|].
    apply Qmult_0_r. }
  split; [exact Hn|]. intros H0. apply Hss.
  transitivity ((SS * n - 2 * S * S + S * S) / (n * n))%Q; [by field|].
  unfold Qdiv. etransitivity; [apply Qmult_comp; [exact H0|reflexivity]|].
  apply Qmult_0_l.
Qed.

Section least_squares.
Context {A : Type} (fx fy : A -> Q).
Local Open Scope Q_scope.

(** The line of [linregress] has the least sum of squared residuals. *)
Lemma linregress_least_squares pv (l : list A) slope intercept r2 p :
  linregress pv (fx <$> l) (fy <$> l) = Ok (slope, intercept, r2, p) ->
  forall a b,
    sse slope intercept (fx <$> l) (fy <$> l) <= sse a b (fx <$> l) (fy <$> l).
Proof.
  unfold linregress.
  destruct (Qeq_bool _ 0) eqn:Hss; [done|].
  intros [= <- <- _ _] a b.
  apply Qeq_bool_neq in Hss.
  rewrite !sse_expand.
  pose proof (line_squares_nonneg fx
    (mean (zip_with (fun xi yi => (xi - mean (fx <$> l)) * (yi - mean (fy <$> l)))
             (fx <$> l) (fy <$> l))
     / mean ((fun xi => (xi - mean (fx <$> l)) * (xi - mean (fx <$> l))) <$> (fx <$> l)) - a)
    (mean (fy <$> l)
     - mean (zip_with (fun xi yi => (xi - mean (fx <$> l)) * (yi - mean (fy <$> l)))
               (fx <$> l) (fy <$> l))
       / mean ((fun xi => (xi - mean (fx <$> l)) * (xi - mean (fx <$> l))) <$> (fx <$> l))
       * mean (fx <$> l) - b) l) as Hnonneg.
  rewrite line_squares in Hnonneg.
  revert Hss Hnonneg. unfold mean.
  rewrite !length_fmap, !length_zip_with, !length_fmap, Nat.min_id.
  rewrite centered_squares, centered_products.
  set (n := Qnat (length l)).
  set (Sx := Qsum (fx <$> l)). set (Sy := Qsum (fy <$> l)).
  set (Sxx := Qsum ((fun p0 => fx p0 * fx p0) <$> l)).
  set (Sxy := Qsum ((fun p0 => fx p0 * fy p0) <$> l)).
  set (Syy := Qsum ((fun p0 => fy p0 * fy p0) <$> l)).
  clearbody n Sx Sy Sxx Sxy Syy. clear.
  intros Hss Hnonneg.
  apply Qle_minus_iff.
  eapply Qle_trans; [exact Hnonneg|].
  apply Qle_lteq. right. clear Hnonneg. field.
  by apply centered_nonzero.
Qed.
End least_squares.

Section forecast_props.
Local Open Scope Q_scope.

Lemma Qsquare_zero (x : Q) : x * x == 0 -> x == 0.
Proof. intros H. by destruct (Qmult_integral _ _ H). Qed.

Lemma Qsum_zero (qs : list Q) :
  Forall (fun q => 0 <= q) qs -> Qsum qs == 0 -> Forall (fun q => q == 0) qs.
Proof.
  induction 1 as [|q qs Hq Hqs IH]; intros Hsum; [constructor|].
  change (q + Qsum qs == 0) in Hsum.
  pose proof (Qsum_nonneg qs Hqs) as Hrest. cbv beta in *.
  assert (q == 0) as Hq0 by Lqa.lra.
  constructor; [done|]. apply IH. Lqa.lra.
Qed.

Lemma Qnat_nonzero (n : nat) : (0 < n)%nat -> ~ Qnat n == 0.
Proof.
  intros Hn H. unfold Qnat in H.
  apply (inject_Z_injective (Z.of_nat n) 0) in H. lia.
Qed.

(** With two different abscissas the regression is defined. *)
Lemma linregress_Ok pv (clean : list (Z * Q)) :
  NoDup clean.*1 -> (2 <= length clean)%nat ->
  exists slope intercept r2,
    linregress pv ((fun kv => inject_Z kv.1) <$> clean) (snd <$> clean) =
    Ok (slope, intercept, r2,
        pv ((fun kv => inject_Z kv.1) <$> clean) (snd <$> clean)).
Proof.
  intros Hnd Hlen. unfold linregress.
  destruct (Qeq_bool _ 0) eqn:Hss; [|by do 3 eexists].
  exfalso. apply Qeq_bool_eq in Hss. unfold mean at 1 in Hss.
  rewrite !length_fmap in Hss.
  assert (Qsum ((fun xi => (xi - mean ((fun kv : Z * Q => inject_Z kv.1) <$> clean))
                           * (xi - mean ((fun kv : Z * Q => inject_Z kv.1) <$> clean)))
                  <$> ((fun kv : Z * Q => inject_Z kv.1) <$> clean)) == 0) as Hsum.
  { pose proof (Qnat_nonzero (length clean) ltac:(lia)) as Hn.
    revert Hss Hn. generalize (Qnat (length clean)).
    match goal with |- context [Qsum ?l] => generalize (Qsum l) end.
    intros s n Hss Hn.
    transitivity (s / n * n); [by field|].
    etransitivity; [apply Qmult_comp; [exact Hss|reflexivity]|]. apply Qmult_0_l. }
  apply Qsum_zero in Hsum.
  2:{ apply Forall_fmap, Forall_forall. intros q _. apply Qsquare_nonneg. }
  destruct clean as [|[y1 v1] [|[y2 v2] clean]]; simpl in Hlen; try lia.
  simpl in Hnd. apply NoDup_cons in Hnd as [Hne _].
  rewrite not_elem_of_cons in Hne. destruct Hne as [Hne _].
  rewrite <- list_fmap_compose in Hsum.
  apply Forall_fmap in Hsum. simpl in Hsum.
  apply Forall_cons in Hsum as [H1 Hsum]. apply Forall_cons in Hsum as [H2 _].
  simpl in H1, H2. apply Qsquare_zero in H1, H2.
  apply Hne. apply inject_Z_injective. Lqa.lra.
Qed.

Lemma filter_key_fresh (clean : list (Z * Q)) yr :
  yr ∉ clean.*1 -> filter (fun kv : Z * Q => kv.1 = yr) clean = [].
Proof.
  induction clean as [|[y w] clean IH]; simpl; [done|].
  intros [Hne Hnin]%not_elem_of_cons.
  rewrite filter_cons_False by (simpl; congruence). by apply IH.
Qed.

Lemma getitem_NoDup (clean : list (Z * Q)) yr v :
  NoDup clean.*1 -> (yr, v) ∈ clean -> getitem clean yr = Ok v.
Proof.
  intros Hnd Hin. unfold getitem.
  assert (filter (fun kv : Z * Q => kv.1 = yr) clean = [(yr, v)]) as ->; [|done].
  induction clean as [|[y w] clean IH]; [by apply elem_of_nil in Hin|].
  simpl in Hnd. apply NoDup_cons in Hnd as [Hy Hnd].
  apply elem_of_cons in Hin as [Heq|Hin].
  - injection Heq as <- <-. rewrite filter_cons_True by done. f_equal.
    by apply filter_key_fresh.
  - rewrite filter_cons_False; [by apply IH|].
    simpl. intros ->. apply Hy. apply list_elem_of_fmap. by exists (yr, v).
Qed.

Lemma mapM_fmap_Ok {A B C} (f : B -> result C) (g : A -> B) (h : A -> C) (l : list A) :
  (forall x, x ∈ l -> f (g x) = Ok (h x)) -> mapM f (g <$> l) = Ok (h <$> l).
Proof.
  induction l as [|x l IH]; intros Hf; [done|].
  change (mapM f (g <$> x :: l)) with
    (y ← f (g x); k ← mapM f (g <$> l); mret (y :: k)).
  rewrite Hf by left. rewrite IH; [done|].
  intros. apply Hf. by right.
Qed.

Lemma clean_points_NoDup {K} (series : Series K) :
  NoDup series.*1 -> NoDup (clean_points series).*1.
Proof.
  intros Hnd. eapply sublist_NoDup; [exact Hnd|]. clear Hnd.
  induction series as [|[k [v|]] series IH]; simpl;
    [constructor|by apply sublist_skip|by apply sublist_cons].
Qed.
End forecast_props.

Section forecast_claim.
Local Open Scope Q_scope.

Lemma mean_zero (qs : list Q) : mean qs == 0 -> Qsum qs == 0.
Proof.
  destruct qs as [|q qs]; [done|]. unfold mean.
  pose proof (Qnat_nonzero (length (q :: qs)) ltac:(simpl; lia)) as Hn.
  revert Hn. generalize (Qnat (length (q :: qs))) (Qsum (q :: qs)). intros n s Hn Hs.
  transitivity (s / n * n); [by field|].
  etransitivity; [apply Qmult_comp; [exact Hs|reflexivity]|]. apply Qmult_0_l.
Qed.

(** The squared [r_value] is the coefficient of determination of the
    fitted line. *)
Lemma linregress_r_squared {A} (fx fy : A -> Q) pv (l : list A) slope intercept r2 p :
  linregress pv (fx <$> l) (fy <$> l) = Ok (slope, intercept, r2, p) ->
  ~ Qsum ((fun yi => (yi - mean (fy <$> l)) * (yi - mean (fy <$> l))) <$> (fy <$> l)) == 0 ->
  r2 == 1 - sse slope intercept (fx <$> l) (fy <$> l)
            / Qsum ((fun yi => (yi - mean (fy <$> l)) * (yi - mean (fy <$> l)))
                      <$> (fy <$> l)).
Proof.
  unfold linregress.
  destruct (Qeq_bool _ 0) eqn:Hss; [done|].
  intros [= <- <- <- _] Hsst.
  apply Qeq_bool_neq in Hss.
  destruct (Qeq_bool (mean _) 0) eqn:Hssy.
  { exfalso. apply Hsst. apply Qeq_bool_eq in Hssy. by apply mean_zero. }
  apply Qeq_bool_neq in Hssy.
  rewrite sse_expand.
  revert Hss Hssy Hsst. unfold mean.
  rewrite !length_fmap, !length_zip_with, !length_fmap, Nat.min_id.
  rewrite !centered_squares, centered_products.
  set (n := Qnat (length l)).
  set (Sx := Qsum (fx <$> l)). set (Sy := Qsum (fy <$> l)).
  set (Sxx := Qsum ((fun p0 => fx p0 * fx p0) <$> l)).
  set (Sxy := Qsum ((fun p0 => fx p0 * fy p0) <$> l)).
  set (Syy := Qsum ((fun p0 => fy p0 * fy p0) <$> l)).
  clearbody n Sx Sy Sxx Sxy Syy. clear.
  intros Hss Hssy Hsst.
  field.
  destruct (centered_nonzero _ _ _ Hss) as [Hn Hx].
  destruct (centered_nonzero _ _ _ Hssy) as [_ Hy]. done.
Qed.



End forecast_claim.

(** ** Correlation *)

Lemma up_IZR (z : Z) : up (IZR z) = z + 1.
Proof.
  symmetry. apply tech_up.
  - rewrite plus_IZR. lra.
  - rewrite plus_IZR. lra.
Qed.

Lemma round_half_even_R_IZR (z : Z) : round_half_even_R (IZR z) = z.
Proof.
  unfold round_half_even_R. rewrite up_IZR.
  replace (z + 1 - 1) with z by lia.
  destruct (Rlt_dec _ _) as [|Hn]; [done|]. exfalso. apply Hn. lra.
Qed.

Lemma py_round_R_one (ndigits : nat) : py_round_R 1 ndigits = 1%R.
Proof.
  unfold py_round_R.
  replace (1 * 10 ^ ndigits)%R with (IZR (10 ^ Z.of_nat ndigits)).
  - rewrite round_half_even_R_IZR.
    replace (IZR (10 ^ Z.of_nat ndigits)) with (10 ^ ndigits)%R.
    + field. apply pow_nonzero. lra.
    + by rewrite <- pow_IZR.
  - rewrite <- pow_IZR. lra.
Qed.

Lemma scenario_pearsonr :
  pearsonr [1; 2; 3]%Q [2; 4; 6]%Q = Some 1%R.
Proof.
  unfold pearsonr.
  set (sxx := Qsum _). set (syy := Qsum _). set (sxy := Qsum _).
  assert (Qeq_bool sxx 0 || Qeq_bool syy 0 = false) as -> by (vm_compute; reflexivity).
  assert (sxx == 2)%Q as Hxx by (vm_compute; reflexivity).
  assert (syy == 8)%Q as Hyy by (vm_compute; reflexivity).
  assert (sxy == 4)%Q as Hxy by (vm_compute; reflexivity).
  apply Qeq_eqR in Hxx, Hyy, Hxy. rewrite Hxx, Hyy, Hxy.
  replace (Q2R 2) with 2%R by (unfold Q2R; simpl; lra).
  replace (Q2R 8) with 8%R by (unfold Q2R; simpl; lra).
  replace (Q2R 4) with 4%R by (unfold Q2R; simpl; lra).
  rewrite <- sqrt_mult by lra.
  replace (2 * 8)%R with (4 * 4)%R by lra.
  rewrite sqrt_square by lra.
  replace (4 / 4)%R with 1%R by lra.
  rewrite Rmin_left by lra. rewrite Rmax_left by lra. done.
Qed.



(** * Further properties of the code *)

(** ** The shape of an indicator table *)

Lemma pivot_columns_sorted rows : Sorted String.le (df_columns (pivot_table rows)).
Proof. apply Sorted_merge_sort; apply _. Qed.

Lemma rows_of_surviving (ks : list (string * string * option Q)) rows r :
  Forall2 row_from ks rows ->
  r ∈ rows <-> exists k, k ∈ ks /\ row_from k r.
Proof.
  intros HF. split.
  - intros Hr. apply list_elem_of_lookup in Hr as [i Hi].
    destruct (Forall2_lookup_r _ _ _ _ _ HF Hi) as (k & Hk & Hkr).
    exists k. split; [by eapply list_elem_of_lookup_2|done].
  - intros (k & Hk & Hkr). apply list_elem_of_lookup in Hk as [i Hi].
    destruct (Forall2_lookup_l _ _ _ _ _ HF Hi) as (r' & Hr' & Hkr').
    assert (r = r') as ->; [|by eapply list_elem_of_lookup_2].
    destruct Hkr as (H1 & H2 & H3), Hkr' as (H1' & H2' & H3').
    destruct r, r'; simpl in *. congruence.
Qed.

Lemma records_to_dataframe_ordered records df names :
  records_to_dataframe records = Ok (df, names) -> frame_ordered df.
Proof.
  intros (rows & _ & ->)%records_to_dataframe_ok. repeat split.
  - apply pivot_index_sorted.
  - apply pivot_index_NoDup.
  - apply pivot_columns_sorted.
  - apply pivot_columns_NoDup.
Qed.

(** X1: the rows of an indicator table are the years, in ascending order
    and each once, for which a surviving record carries a value, and its
    columns are the country codes, in ascending order and each once, of the
    surviving records that carry a value. *)
Theorem table_rows_and_columns records df names :
  records_to_dataframe records = Ok (df, names) ->
  frame_ordered df /\
  (forall y, y ∈ df_index df <->
     exists rec c d v, rec ∈ records /\ surviving rec = Some (c, d, Some v) /\
                       py_int d = Ok y) /\
  (forall c, c ∈ df_columns df <->
     exists rec d v, rec ∈ records /\ surviving rec = Some (c, d, Some v)).
Proof.
  intros Hok.
  destruct (records_to_dataframe_ok _ _ _ Hok) as (rows & Hrows & ->).
  destruct (collect_rows_ok _ _ _ _ _ Hrows) as (new & Hnew & HF).
  simpl in Hnew. subst new.
  assert (forall r, r ∈ rows <-> exists k, k ∈ omap surviving records /\ row_from k r)
    as Hmem by (intros r; by apply rows_of_surviving).
  split; [|split].
  - by eapply records_to_dataframe_ordered.
  - intros y. change (df_index (interpolate 3 (pivot_table rows)))
      with (df_index (pivot_table rows)).
    rewrite pivot_index_elem_of. split.
    + intros (r & Hr & [v Hv] & <-).
      apply Hmem in Hr as ([[c d] v'] & Hk & Hc & Hd & Hval). simpl in *.
      apply list_elem_of_omap in Hk as (rec & Hrec & Hs).
      exists rec, c, d, v. split; [done|]. split; [|done]. congruence.
    + intros (rec & c & d & v & Hrec & Hs & Hy).
      assert ((c, d, Some v) ∈ omap surviving records) as Hk.
      { apply list_elem_of_omap. eauto. }
      apply list_elem_of_lookup in Hk as [i Hi].
      destruct (Forall2_lookup_l _ _ _ _ _ HF Hi) as (r & Hr & Hc & Hd & Hv).
      simpl in *. exists r. split; [by eapply list_elem_of_lookup_2|].
      split; [by rewrite Hv|]. congruence.
  - intros c. change (df_columns (interpolate 3 (pivot_table rows)))
      with (df_columns (pivot_table rows)).
    rewrite pivot_columns_elem_of. split.
    + intros (r & Hr & [v Hv] & <-).
      apply Hmem in Hr as ([[c d] v'] & Hk & Hc & Hd & Hval). simpl in *.
      apply list_elem_of_omap in Hk as (rec & Hrec & Hs).
      exists rec, d, v. split; [done|]. congruence.
    + intros (rec & d & v & Hrec & Hs).
      assert ((c, d, Some v) ∈ omap surviving records) as Hk.
      { apply list_elem_of_omap. eauto. }
      apply list_elem_of_lookup in Hk as [i Hi].
      destruct (Forall2_lookup_l _ _ _ _ _ HF Hi) as (r & Hr & Hc & Hd & Hv).
      simpl in *. exists r. split; [by eapply list_elem_of_lookup_2|].
      split; [by rewrite Hv|done].
Qed.

Lemma table_rows_and_columns_witness :
  records_to_dataframe (scenario_records wld_record) =
    Ok (mkDataFrame [2000; 2002] ["USA"] [[Some 10%Q; Some 20%Q]], {["USA" := "USA"]}) /\
  frame_ordered (mkDataFrame [2000; 2002] ["USA"] [[Some 10%Q; Some 20%Q]]).
Proof.
  assert (records_to_dataframe (scenario_records wld_record) =
    Ok (mkDataFrame [2000; 2002] ["USA"] [[Some 10%Q; Some 20%Q]], {["USA" := "USA"]}))
    as Hok by (vm_compute; reflexivity).
  split; [exact Hok|].
  exact (proj1 (table_rows_and_columns _ _ _ Hok)).
Defined.

(** ** The country registry *)

Lemma register_name_lookup names iso3 country c :
  register_name names iso3 country !! c =
  match names !! c with
  | Some n => Some n
  | None => if decide (iso3 = c) then country_name_of c country else None
  end.
Proof.
  unfold register_name, country_name_of.
  destruct (names !! iso3) as [n0|] eqn:Hn0.
  - destruct (names !! c) as [n|] eqn:Hn; [done|].
    destruct (decide (iso3 = c)) as [->|]; [congruence|done].
  - destruct (default (CountryDict None) country) as [v|].
    + destruct (decide (iso3 = c)) as [->|Hne].
      * by rewrite lookup_insert_eq, Hn0.
      * rewrite lookup_insert_ne by done. by destruct (names !! c).
    + destruct (names !! c) as [n|] eqn:Hn; [done|]. by destruct (decide _).
Qed.

Lemma collect_rows_names records rows0 names0 rows names c :
  collect_rows records rows0 names0 = Ok (rows, names) ->
  names !! c =
  match names0 !! c with
  | Some n => Some n
  | None => head (omap (name_in c) records)
  end.
Proof.
  revert rows0 names0. induction records as [|rec rest IH]; intros rows0 names0; simpl.
  - intros [= <- <-]. by destruct (names0 !! c).
  - unfold name_in at 1, surviving.
    destruct (_ || _) eqn:Hskip.
    { apply IH. }
    destruct (rec_date rec) as [d|]; simpl; [|apply IH].
    destruct (py_int d) as [y|e] eqn:Hy; simpl; [|done].
    intros Hrest. rewrite (IH _ _ Hrest), register_name_lookup.
    destruct (names0 !! c) as [n|]; [done|].
    destruct (decide _) as [Heq|]; [|done].
    rewrite <- Heq. by destruct (country_name_of _ _).
Qed.

Lemma head_omap_Some {A B} (f : A -> option B) (l : list A) y :
  head (omap f l) = Some y -> exists x, x ∈ l /\ f x = Some y.
Proof.
  induction l as [|x l IH]; simpl; [done|].
  destruct (f x) as [y'|] eqn:Hx; simpl.
  - intros [= ->]. exists x. split; [by left|done].
  - intros (x' & Hin & Hx')%IH. exists x'. split; [by right|done].
Qed.

Lemma name_in_Some c rec n :
  name_in c rec = Some n <->
  exists d v, surviving rec = Some (c, d, v) /\ country_name_of c (rec_country rec) = Some n.
Proof.
  unfold name_in. destruct (surviving rec) as [[[c' d] v]|].
  - destruct (decide (c' = c)) as [->|Hne].
    + split; [eauto|]. by intros (d' & v' & [= <- <-] & Hn).
    + split; [done|]. by intros (d' & v' & [= -> <- <-] & Hn).
  - split; [done|]. by intros (d' & v' & ? & _).
Qed.

(** X2: the registry built with a table knows only real country codes, and
    the name of a code is the one given by the first surviving record of
    that code whose country field is a dict (the code itself when the dict
    has no name). *)
Theorem registry_first_name records df names :
  records_to_dataframe records = Ok (df, names) ->
  (forall c n, names !! c = Some n ->
     c <> "" /\ (c ∉ WB_AGGREGATE_CODES) /\
     exists rec d v, rec ∈ records /\ surviving rec = Some (c, d, v) /\
                     country_name_of c (rec_country rec) = Some n) /\
  (forall pre rec post c d v n,
     records = pre ++ rec :: post ->
     surviving rec = Some (c, d, v) ->
     country_name_of c (rec_country rec) = Some n ->
     (forall rec' d' v', rec' ∈ pre -> surviving rec' = Some (c, d', v') ->
                         country_name_of c (rec_country rec') = None) ->
     names !! c = Some n).
Proof.
  intros Hok.
  destruct (records_to_dataframe_ok _ _ _ Hok) as (rows & Hrows & _).
  assert (forall c, names !! c = head (omap (name_in c) records)) as Hnames.
  { intros c. by rewrite (collect_rows_names _ _ _ _ _ c Hrows), lookup_empty. }
  split.
  - intros c n. rewrite Hnames.
    intros (rec & Hrec & (d & v & Hs & Hn)%name_in_Some)%head_omap_Some.
    destruct (surviving_code _ _ _ _ Hs) as (_ & Hne & Hagg & _).
    split; [done|]. split; [done|]. eauto 10.
  - intros pre rec post c d v n -> Hs Hn Hpre. rewrite Hnames.
    apply head_omap_app.
    + intros rec' Hin. destruct (name_in c rec') as [n'|] eqn:Hn'; [|done].
      apply name_in_Some in Hn' as (d' & v' & Hs' & Hn').
      rewrite (Hpre _ _ _ Hin Hs') in Hn'. done.
    + apply name_in_Some. eauto.
Qed.

Lemma registry_first_name_witness :
  records_to_dataframe (scenario_records wld_record) =
    Ok (mkDataFrame [2000; 2002] ["USA"] [[Some 10%Q; Some 20%Q]], {["USA" := "USA"]}) /\
  "USA" <> "" /\ ("USA" ∉ WB_AGGREGATE_CODES).
Proof.
  assert (records_to_dataframe (scenario_records wld_record) =
    Ok (mkDataFrame [2000; 2002] ["USA"] [[Some 10%Q; Some 20%Q]], {["USA" := "USA"]}))
    as Hok by (vm_compute; reflexivity).
  split; [exact Hok|].
  destruct (registry_first_name _ _ _ Hok) as (Hkeys & _).
  destruct (Hkeys "USA" "USA") as (Hne & Hagg & _); [reflexivity|]. by split.
Defined.

(** ** Growth rates, row by row *)

(** X3: for a window of [w >= 1] rows the growth table is empty when the
    table is empty or has fewer than [w] rows; otherwise it has the rows and
    columns of the table, and a cell of row [i] holds a value exactly when
    the cell and the cell [w] rows above both hold a strictly positive
    value, the value being [(e / s) ^ (1 / w) - 1]: the first [w] rows of a
    growth table are absent, and no growth is computed from a zero or
    negative value. *)
Theorem growth_needs_positive_endpoints np_power df (w : nat) g :
  frame_wf df -> (0 < w)%nat ->
  compute_growth_rate np_power df (Z.of_nat w) = Ok g ->
  (df_empty df = true \/ (df_len df < w)%nat -> g = empty_frame) /\
  (df_empty df = false -> (w <= df_len df)%nat ->
     df_index g = df_index df /\ df_columns g = df_columns df /\
     forall c col, df_column df c = Some col ->
       exists out, df_column g c = Some out /\ length out = length col /\
         forall i x, out !! i = Some (Some x) <->
           exists e s, (w <= i)%nat /\
             col !! i = Some (Some e) /\ col !! (i - w)%nat = Some (Some s) /\
             (0 < e)%Q /\ (0 < s)%Q /\
             x = (np_power (e / s) (1 / inject_Z (Z.of_nat w)) - 1)%Q).
Proof.
  intros [Hlen Hwf] Hw Hg. unfold compute_growth_rate in Hg.
  destruct (df_empty df) eqn:Hempty; simpl in Hg.
  { injection Hg as <-. split; [done|]. done. }
  destruct (Z.ltb_spec (Z.of_nat (df_len df)) (Z.of_nat w)) as [Hshort|Hlong].
  { injection Hg as <-. split; [done|]. lia. }
  destruct (Z.eqb_spec (Z.of_nat w) 0) as [|_]; [lia|].
  injection Hg as <-. split; [intros [|]; [done|lia]|].
  intros _ _. split; [done|]. split; [done|].
  intros c col. unfold df_column. simpl.
  destruct (position c (df_columns df)) as [j|]; simpl; [|done].
  intros Hcol. rewrite list_lookup_fmap, Hcol. simpl.
  eexists. split; [done|].
  split. { rewrite length_zip_with, shift_length. lia. }
  intros i x. rewrite lookup_zip_with. split.
  - destruct (col !! i) as [cur|] eqn:Hi; simpl; [|done].
    rewrite shift_lookup by (by eapply lookup_lt_Some).
    destruct (Nat.ltb_spec i w) as [Hiw|Hiw]; simpl.
    { by rewrite growth_cell_None_r. }
    destruct (col !! (i - w)%nat) as [start|] eqn:Hs; simpl; [|done].
    unfold growth_cell.
    destruct cur as [e|]; simpl; [|done].
    destruct start as [s|]; simpl; [|by rewrite andb_false_r].
    destruct (Qle_bool e 0) eqn:He; simpl; [done|].
    destruct (Qle_bool s 0) eqn:Hs0; simpl; [done|].
    intros [= <-]. exists e, s. repeat split; try done.
    + apply Qnot_le_lt. rewrite <- Qle_bool_iff. by rewrite He.
    + apply Qnot_le_lt. rewrite <- Qle_bool_iff. by rewrite Hs0.
  - intros (e & s & Hiw & Hi & Hs & He & Hs0 & ->).
    rewrite Hi. simpl.
    rewrite shift_lookup by (by eapply lookup_lt_Some).
    destruct (Nat.ltb_spec i w) as [|_]; [lia|].
    rewrite Hs. simpl. unfold growth_cell. simpl.
    assert (Qle_bool e 0 = false) as ->.
    { apply not_true_is_false. rewrite Qle_bool_iff. by apply Qlt_not_le. }
    assert (Qle_bool s 0 = false) as ->.
    { apply not_true_is_false. rewrite Qle_bool_iff. by apply Qlt_not_le. }
    done.
Qed.

Lemma growth_needs_positive_endpoints_witness :
  exists g,
    compute_growth_rate (fun x _ => x) gap_frame 5 = Ok g /\
    df_index g = df_index gap_frame /\ df_columns g = df_columns gap_frame.
Proof.
  assert (compute_growth_rate (fun x _ => x) gap_frame 5 =
          Ok (mkDataFrame [2000; 2001; 2002; 2003; 2004; 2010] ["USA"]
                [[None; None; None; None; None; Some 5%Q]])) as Hg
    by (vm_compute; reflexivity).
  assert (frame_wf gap_frame) as Hwf by (split; [reflexivity|repeat constructor]).
  assert (0 < 5)%nat as Hw by lia.
  eexists. split; [exact Hg|].
  destruct (growth_needs_positive_endpoints (fun x _ => x) gap_frame 5 _ Hwf Hw Hg)
    as (_ & Hshape).
  destruct Hshape as (Hi & Hc & _); [reflexivity|vm_compute; lia|]. by split.
Defined.

(** ** What a load requests and stores *)

Lemma dict_set_fresh {V} (k : string) (v : V) (d : list (string * V)) :
  k ∉ d.*1 -> dict_set k v d = d ++ [(k, v)].
Proof.
  induction d as [|[k' v'] d IH]; simpl; [done|].
  intros Hk. apply not_elem_of_cons in Hk as [Hne Hk].
  rewrite decide_False by done. by rewrite IH.
Qed.

Lemma gather_spec tasks w :
  gather tasks w =
  ((fun t : string * string => (t.1, w_provider w t.2)) <$> tasks,
   after_requests tasks.*2 w).
Proof.
  revert w. induction tasks as [|[name code] rest IH]; intros w; simpl.
  - unfold after_requests. rewrite app_nil_r. by destruct w.
  - unfold fetch_indicator, fetch_indicator_sync. rewrite IH. simpl.
    unfold after_requests. simpl. by rewrite <- app_assoc.
Qed.

Lemma set_results_app results raw :
  NoDup (raw.*1 ++ results.*1) ->
  set_results results raw =
  raw ++ ((fun r : string * list raw_record => (r.1, CRecords r.2)) <$> results).
Proof.
  unfold set_results. revert raw.
  induction results as [|[name records] rest IH]; intros raw Hnd; simpl.
  - by rewrite app_nil_r.
  - rewrite dict_set_fresh.
    + rewrite IH; [by rewrite <- app_assoc|].
      rewrite fmap_app. simpl. by rewrite <- app_assoc.
    + apply NoDup_app in Hnd as (_ & Hdisj & _).
      intros Hin. apply (Hdisj _ Hin). by left.
Qed.

Lemma fetch_clusters_spec (cls : list (string * cluster_def)) raw w :
  NoDup (raw.*1 ++ (cls ≫= fun cl => indicators cl.2).*1) ->
  foldl (fun '(raw_data, w) (cl : string * cluster_def) =>
           let '(results, w) := gather (indicators cl.2) w in
           (set_results results raw_data, w))
        (raw, w) cls =
  (raw ++ answers w (cls ≫= fun cl => indicators cl.2),
   after_requests (cls ≫= fun cl => indicators cl.2).*2 w).
Proof.
  revert raw w. induction cls as [|cl cls IH]; intros raw w Hnd; simpl.
  - unfold after_requests, answers. simpl. rewrite !app_nil_r. by destruct w.
  - rewrite gather_spec. simpl in Hnd. rewrite fmap_app in Hnd.
    rewrite set_results_app.
    2:{ rewrite <- list_fmap_compose. simpl.
        rewrite app_assoc in Hnd. by apply NoDup_app in Hnd as (Hnd & _). }
    rewrite IH.
    2:{ rewrite fmap_app, <- !list_fmap_compose. simpl.
        by rewrite <- app_assoc. }
    unfold answers, after_requests. simpl.
    rewrite <- list_fmap_compose, !fmap_app, <- !app_assoc. reflexivity.
Qed.

Lemma INDICATORS_clusters : INDICATORS = CLUSTERS ≫= fun cl => indicators cl.2.
Proof. vm_compute. reflexivity. Qed.

Lemma INDICATORS_NoDup : NoDup INDICATORS.*1.
Proof. apply (bool_decide_unpack _). vm_compute. exact I. Qed.

Lemma save_cache_requests dumps data w :
  w_requests (save_cache dumps data w) = w_requests w /\
  w_provider (save_cache dumps data w) = w_provider w.
Proof. unfold save_cache, time_time, write_file. simpl. by destruct (w_disk_ok w). Qed.

Lemma load_cache_world max_age loads w :
  w_requests (load_cache max_age loads w).2 = w_requests w /\
  w_provider (load_cache max_age loads w).2 = w_provider w /\
  w_file (load_cache max_age loads w).2 = w_file w /\
  w_disk_ok (load_cache max_age loads w).2 = w_disk_ok w /\
  w_clock (load_cache max_age loads w).2 = w_clock w.
Proof.
  unfold load_cache. destruct (w_file w) as [raw|] eqn:Hfile; [|done].
  destruct (loads raw) as [cache|]; [|done].
  destruct (default _ _) as [ts|]; [|done]. simpl.
  by destruct (negb _).
Qed.

Lemma fetch_everything_spec dumps w :
  fetch_everything dumps w =
  (answers w INDICATORS,
   save_cache dumps (answers w INDICATORS) (after_requests INDICATORS.*2 w)).
Proof.
  unfold fetch_everything. rewrite fetch_clusters_spec.
  - by rewrite <- INDICATORS_clusters.
  - rewrite <- INDICATORS_clusters. apply INDICATORS_NoDup.
Qed.

Lemma INDICATORS_nonempty : exists ind inds, INDICATORS = ind :: inds.
Proof. vm_compute. eauto. Qed.

Local Opaque INDICATORS.

Lemma filter_ext_in {A} (P Q : A -> Prop) `{!forall x, Decision (P x)}
    `{!forall x, Decision (Q x)} (l : list A) :
  (forall x, x ∈ l -> P x <-> Q x) -> filter P l = filter Q l.
Proof.
  induction l as [|x l IH]; intros Hext; [done|].
  rewrite !filter_cons.
  rewrite IH by (intros y Hy; apply Hext; by right).
  destruct (decide (P x)) as [HP|HP], (decide (Q x)) as [HQ|HQ]; try done.
  - exfalso. apply HQ, Hext; [by left|done].
  - exfalso. apply HP, Hext; [by left|done].
Qed.

Lemma dict_get_not_elem {V} (k : string) (d : list (string * V)) :
  dict_get k d = None -> k ∉ d.*1.
Proof.
  induction d as [|[k' v] d IH]; simpl; [intros _; apply not_elem_of_nil|].
  destruct (decide (k = k')) as [->|Hne]; [done|].
  intros Hd. apply not_elem_of_cons. split; [done|by apply IH].
Qed.

Lemma cache_hits_elem_of cached name entry :
  (name, entry) ∈ cache_hits cached <->
  name ∈ INDICATORS.*1 /\ cached !! name = Some entry.
Proof.
  unfold cache_hits. rewrite list_elem_of_omap. split.
  - intros ([n code] & Hin & Hf). simpl in Hf.
    destruct (cached !! n) as [e|] eqn:He; simpl in Hf; [|done].
    injection Hf as <- <-. split; [|done].
    apply list_elem_of_fmap. by exists (n, code).
  - intros [([n code] & -> & Hin)%list_elem_of_fmap He].
    exists (n, code). split; [done|]. simpl in *. by rewrite He.
Qed.

Lemma cache_hits_keys cached name :
  name ∈ (cache_hits cached).*1 <-> name ∈ INDICATORS.*1 /\ is_Some (cached !! name).
Proof.
  rewrite list_elem_of_fmap. split.
  - intros ([n e] & -> & [Hn He]%cache_hits_elem_of). eauto.
  - intros [Hn [e He]]. exists (name, e). split; [done|].
    by apply cache_hits_elem_of.
Qed.

Lemma cache_misses_elem_of cached ind :
  ind ∈ cache_misses cached <-> ind ∈ INDICATORS /\ cached !! ind.1 = None.
Proof. unfold cache_misses. rewrite list_elem_of_filter. tauto. Qed.

Lemma hits_misses_perm cached :
  (cache_hits cached).*1 ++ (cache_misses cached).*1 ≡ₚ INDICATORS.*1.
Proof.
  unfold cache_hits, cache_misses. generalize INDICATORS as inds.
  induction inds as [|[n code] inds IH]; [done|].
  rewrite filter_cons. simpl.
  destruct (cached !! n) as [e|] eqn:He; simpl.
  - by rewrite IH.
  - rewrite <- Permutation_middle. by rewrite IH.
Qed.

Lemma hits_misses_NoDup cached :
  NoDup ((cache_hits cached).*1 ++ (cache_misses cached).*1).
Proof. rewrite hits_misses_perm. apply INDICATORS_NoDup. Qed.

Lemma hydrate_hits (cached : gmap string cache_entry) (inds : list (string * string)) acc :
  NoDup (acc.*1 ++ inds.*1) ->
  foldl (fun acc (ind : string * string) =>
           match cached !! ind.1 with
           | Some entry => dict_set ind.1 entry acc
           | None => acc
           end) acc inds =
  acc ++ omap (fun ind : string * string => (fun e => (ind.1, e)) <$> cached !! ind.1) inds.
Proof.
  revert acc. induction inds as [|[n code] inds IH]; intros acc Hnd; simpl.
  - by rewrite app_nil_r.
  - simpl in Hnd. destruct (cached !! n) as [e|] eqn:He; simpl.
    + rewrite dict_set_fresh.
      2:{ apply NoDup_app in Hnd as (_ & Hdisj & _).
          intros Hin. apply (Hdisj _ Hin). by left. }
      rewrite IH; [by rewrite <- app_assoc|].
      rewrite fmap_app. simpl. by rewrite <- app_assoc.
    + apply IH. rewrite <- Permutation_middle in Hnd.
      by apply NoDup_cons in Hnd as [_ Hnd].
Qed.

Lemma hydrate_spec dumps cached w :
  hydrate dumps cached w =
  (cache_hits cached ++ answers w (cache_misses cached),
   match cache_misses cached with
   | [] => w
   | _ => save_cache dumps (cache_hits cached ++ answers w (cache_misses cached))
                     (after_requests (cache_misses cached).*2 w)
   end).
Proof.
  unfold hydrate.
  rewrite (hydrate_hits cached INDICATORS []) by apply INDICATORS_NoDup.
  rewrite app_nil_l. fold (cache_hits cached).
  assert (filter (fun ind : string * string => dict_get ind.1 (cache_hits cached) = None)
                 INDICATORS = cache_misses cached) as ->.
  { apply filter_ext_in. intros [n code] Hin. simpl. split.
    - intros Hd%dict_get_not_elem.
      destruct (cached !! n) as [e|] eqn:He; [|done].
      exfalso. apply Hd, cache_hits_keys. split; [|by rewrite He].
      apply list_elem_of_fmap. by exists (n, code).
    - intros He. apply dict_get_None. rewrite cache_hits_keys, He.
      intros [_ [e [=]]]. }
  pose proof (hits_misses_NoDup cached) as Hnd.
  destruct (cache_misses cached) as [|m ms].
  - unfold answers. simpl. by rewrite app_nil_r.
  - rewrite gather_spec, set_results_app.
    2:{ rewrite <- list_fmap_compose. exact Hnd. }
    rewrite <- list_fmap_compose. reflexivity.
Qed.

Lemma cache_hits_empty : cache_hits ∅ = [].
Proof.
  unfold cache_hits. generalize INDICATORS as inds.
  induction inds as [|ind inds IH]; [done|]. simpl. by rewrite lookup_empty.
Qed.

Lemma cache_misses_empty : cache_misses ∅ = INDICATORS.
Proof.
  unfold cache_misses. generalize INDICATORS as inds.
  induction inds as [|ind inds IH]; [done|].
  rewrite filter_cons, decide_True by apply lookup_empty. by rewrite IH.
Qed.

(** The raw data of a load: what the usable cache holds for the catalog,
    followed by the provider's answers for what it lacks. *)
Lemma load_raw_data_spec max_age dumps loads w :
  let cached := default ∅ (load_cache max_age loads w).1 in
  let w1 := (load_cache max_age loads w).2 in
  let raw_data := cache_hits cached ++ answers w (cache_misses cached) in
  load_raw_data max_age dumps loads w =
  (raw_data,
   match cache_misses cached with
   | [] => w1
   | _ => save_cache dumps raw_data (after_requests (cache_misses cached).*2 w1)
   end).
Proof.
  intros cached w1 raw_data. unfold load_raw_data.
  destruct (load_cache_world max_age loads w) as (_ & Hprov & _).
  assert (answers w1 = answers w) as Hans.
  { unfold answers, w1. by rewrite Hprov. }
  subst cached w1 raw_data.
  destruct INDICATORS_nonempty as (ind & inds & Hinds).
  destruct (load_cache max_age loads w) as [[cached|] w1]; simpl in *.
  - destruct (decide (cached = ∅)) as [->|Hne].
    + rewrite fetch_everything_spec, cache_hits_empty, cache_misses_empty, Hans.
      rewrite app_nil_l. revert Hinds. generalize INDICATORS. by intros l ->.
    + by rewrite hydrate_spec, Hans.
  - rewrite fetch_everything_spec, cache_hits_empty, cache_misses_empty, Hans.
    rewrite app_nil_l. revert Hinds. generalize INDICATORS. by intros l ->.
Qed.

Local Transparent INDICATORS.

Local Opaque INDICATORS.

Lemma load_all_unloaded np_power max_age dumps loads st w st' w' :
  _loaded st = false ->
  load_all np_power max_age dumps loads st w = Ok (st', w') ->
  let cached := default ∅ (load_cache max_age loads w).1 in
  let raw_data := cache_hits cached ++ answers w (cache_misses cached) in
  exists st1 st2,
    transform_all raw_data st = Ok st1 /\
    growth_all np_power INDICATORS.*1 st1 = Ok st2 /\
    st' = Collector (_dataframes st2) (_country_names st2) true /\
    w' = match cache_misses cached with
         | [] => (load_cache max_age loads w).2
         | _ => save_cache dumps raw_data
                  (after_requests (cache_misses cached).*2 (load_cache max_age loads w).2)
         end.
Proof.
  intros Hl Hload cached raw_data. unfold load_all in Hload.
  rewrite Hl, load_raw_data_spec in Hload.
  fold cached raw_data in Hload.
  destruct (transform_all raw_data st) as [st1|] eqn:H1; [|done].
  unfold mbind, result_bind in Hload.
  destruct (growth_all np_power _ st1) as [st2|] eqn:H2; [|done].
  injection Hload as <- <-. by exists st1, st2.
Qed.


Local Transparent INDICATORS.


Lemma transform_all_lookup raw_data st st' :
  NoDup raw_data.*1 ->
  transform_all raw_data st = Ok st' ->
  (forall name entry, (name, entry) ∈ raw_data ->
     exists df names, transform_entry entry = Ok (df, names) /\
                      _dataframes st' !! name = Some df) /\
  (forall name, name ∉ raw_data.*1 -> _dataframes st' !! name = _dataframes st !! name).
Proof.
  revert st. induction raw_data as [|[n e] rest IH]; intros st Hnd; simpl.
  { intros [= <-]. split; [by intros ?? ?%elem_of_nil|done]. }
  apply NoDup_cons in Hnd as [Hn Hnd]. simpl in Hn.
  destruct (transform_entry e) as [[df names]|] eqn:He; simpl; [|done].
  intros Hrest. destruct (IH _ Hnd Hrest) as [Hin Hout]. simpl in Hout.
  split.
  - intros name entry [[= -> ->]|Hmem]%elem_of_cons.
    + exists df, names. split; [done|].
      by rewrite (Hout _ Hn), lookup_insert_eq.
    + by apply Hin.
  - intros name [Hne Hnot]%not_elem_of_cons.
    rewrite (Hout _ Hnot). by rewrite lookup_insert_ne.
Qed.

Lemma growth_all_lookup np_power names st st' :
  NoDup (growth_key <$> names) ->
  (forall n n', n ∈ names -> n' ∈ names -> growth_key n <> n') ->
  growth_all np_power names st = Ok st' ->
  (forall n, n ∈ names ->
     exists g, compute_growth_rate np_power (get_indicator_df st n) 5 = Ok g /\
               _dataframes st' !! growth_key n = Some g) /\
  (forall k, k ∉ growth_key <$> names -> _dataframes st' !! k = _dataframes st !! k) /\
  _country_names st' = _country_names st.
Proof.
  revert st. induction names as [|n rest IH]; intros st Hnd Hdisj; simpl.
  { intros [= <-]. split; [by intros ? ?%elem_of_nil|done]. }
  rewrite fmap_cons in Hnd. apply NoDup_cons in Hnd as [Hn Hnd].
  fold (get_indicator_df st n).
  destruct (compute_growth_rate np_power (get_indicator_df st n) 5) as [g|] eqn:Hg;
    simpl; [|done].
  intros Hrest.
  assert (forall m m', m ∈ rest -> m' ∈ rest -> growth_key m <> m') as Hdisj'.
  { intros m m' Hm Hm'. apply Hdisj; by right. }
  destruct (IH _ Hnd Hdisj' Hrest) as (Hin & Hout & Hnames).
  simpl in Hout, Hnames. split; [|split; [|done]].
  - intros m [->|Hm]%elem_of_cons.
    + exists g. split; [done|]. by rewrite (Hout _ Hn), lookup_insert_eq.
    + destruct (Hin m Hm) as (gm & Hgm & Hlk). exists gm. split; [|done].
      rewrite <- Hgm. f_equal. unfold get_indicator_df. simpl.
      rewrite lookup_insert_ne; [done|]. apply Hdisj; [by left|by right].
  - intros k [Hne Hnot]%not_elem_of_cons.
    rewrite (Hout _ Hnot). by rewrite lookup_insert_ne.
Qed.

Lemma growth_keys_NoDup : NoDup (growth_key <$> INDICATORS.*1).
Proof. apply (bool_decide_unpack _). vm_compute. exact I. Qed.

Lemma growth_keys_fresh n n' :
  n ∈ INDICATORS.*1 -> n' ∈ INDICATORS.*1 -> growth_key n <> n'.
Proof.
  assert (Forall (fun n => growth_key n ∉ INDICATORS.*1) INDICATORS.*1) as HF.
  { apply (bool_decide_unpack _). vm_compute. exact I. }
  intros Hn Hn' <-. rewrite Forall_forall in HF. by apply (HF n).
Qed.

Local Opaque INDICATORS.

Lemma raw_data_entries (cached : gmap string cache_entry) w name code :
  (name, code) ∈ INDICATORS ->
  (name, default (CRecords (w_provider w code)) (cached !! name))
    ∈ cache_hits cached ++ answers w (cache_misses cached).
Proof.
  intros Hin. apply elem_of_app.
  destruct (cached !! name) as [e|] eqn:He; simpl.
  - left. apply cache_hits_elem_of. split; [|done].
    apply list_elem_of_fmap. by exists (name, code).
  - right. unfold answers. apply list_elem_of_fmap. exists (name, code).
    split; [done|]. by apply cache_misses_elem_of.
Qed.

Lemma raw_data_keys (cached : gmap string cache_entry) w :
  (cache_hits cached ++ answers w (cache_misses cached)).*1 ≡ₚ INDICATORS.*1.
Proof.
  rewrite fmap_app. unfold answers. rewrite <- list_fmap_compose.
  apply hits_misses_perm.
Qed.

(** X5: after a load, the table of every indicator of the catalog is the
    transform of the entry the usable cache holds for it, or else of the
    records the provider answered, and the table stored under
    [<name>_growth_5y] is the growth table of that table for a window of
    5. *)
Theorem load_all_tables np_power max_age dumps loads st w st' w' :
  _loaded st = false ->
  load_all np_power max_age dumps loads st w = Ok (st', w') ->
  let cached := default ∅ (load_cache max_age loads w).1 in
  forall name code, (name, code) ∈ INDICATORS ->
    exists df names g,
      transform_entry (default (CRecords (w_provider w code)) (cached !! name))
        = Ok (df, names) /\
      _dataframes st' !! name = Some df /\
      compute_growth_rate np_power df 5 = Ok g /\
      _dataframes st' !! growth_key name = Some g.
Proof.
  intros Hl Hload cached name code Hin.
  destruct (load_all_unloaded _ _ _ _ _ _ _ _ Hl Hload)
    as (st1 & st2 & H1 & H2 & -> & _).
  fold cached in H1.
  assert (name ∈ INDICATORS.*1) as Hname.
  { apply list_elem_of_fmap. by exists (name, code). }
  assert (NoDup (cache_hits cached ++ answers w (cache_misses cached)).*1) as Hnd.
  { rewrite raw_data_keys. apply INDICATORS_NoDup. }
  destruct (transform_all_lookup _ _ _ Hnd H1) as [Htab _].
  destruct (Htab _ _ (raw_data_entries cached w name code Hin))
    as (df & names & Hentry & Hdf).
  destruct (growth_all_lookup _ _ _ _ growth_keys_NoDup growth_keys_fresh H2)
    as (Hgrow & Hkeep & _).
  destruct (Hgrow name Hname) as (g & Hg & Hlk).
  exists df, names, g. simpl. split; [done|].
  unfold get_indicator_df in Hg. rewrite Hdf in Hg. simpl in Hg.
  split; [|by split].
  rewrite Hkeep; [done|].
  intros (n & Heq & Hn)%list_elem_of_fmap.
  by apply (growth_keys_fresh n name).
Qed.

Local Transparent INDICATORS.

Lemma load_all_tables_witness :
  exists st' w',
    load_all (fun x _ => x) 24 (fun _ => "cache") (fun _ => None)
             new_collector demo_world = Ok (st', w') /\
    is_Some (_dataframes st' !! "gdp_per_capita") /\
    is_Some (_dataframes st' !! growth_key "gdp_per_capita").
Proof.
  pose proof demo_load_Ok as Hok.
  destruct (load_all (fun x _ => x) 24 (fun _ => "cache") (fun _ => None)
                     new_collector demo_world) as [[st' w']|e] eqn:Hload;
    [|discriminate Hok].
  exists st', w'. split; [reflexivity|].
  destruct (load_all_tables (fun x _ => x) 24 (fun _ => "cache")
              (fun _ => None) new_collector demo_world st' w' eq_refl Hload
              "gdp_per_capita" "NY.GDP.PCAP.CD")
    as (df & names & g & _ & Hdf & _ & Hg).
  - apply (bool_decide_unpack _). vm_compute. exact I.
  - split; eauto.
Defined.

Local Opaque INDICATORS.

Lemma load_all_eq np_power max_age dumps loads st w :
  _loaded st = false ->
  let cached := default ∅ (load_cache max_age loads w).1 in
  let raw_data := cache_hits cached ++ answers w (cache_misses cached) in
  load_all np_power max_age dumps loads st w =
  (st1 ← transform_all raw_data st;
   st2 ← growth_all np_power INDICATORS.*1 st1;
   Ok (Collector (_dataframes st2) (_country_names st2) true,
       match cache_misses cached with
       | [] => (load_cache max_age loads w).2
       | _ => save_cache dumps raw_data
                (after_requests (cache_misses cached).*2 (load_cache max_age loads w).2)
       end)).
Proof.
  intros Hl cached raw_data. unfold load_all.
  rewrite Hl, load_raw_data_spec. reflexivity.
Qed.

Lemma omap_all_Some {A B} (f : A -> option B) (g : A -> B) (l : list A) :
  (forall x, x ∈ l -> f x = Some (g x)) -> omap f l = g <$> l.
Proof.
  induction l as [|x l IH]; intros Hf; [done|]. simpl.
  rewrite (Hf x) by (by left). simpl. f_equal.
  apply IH. intros y Hy. apply Hf. by right.
Qed.

Lemma filter_none {A} (P : A -> Prop) `{!forall x, Decision (P x)} (l : list A) :
  (forall x, x ∈ l -> ~ P x) -> filter P l = [].
Proof.
  induction l as [|x l IH]; intros Hf; [done|].
  rewrite filter_cons, decide_False by (apply Hf; by left).
  apply IH. intros y Hy. apply Hf. by right.
Qed.

Lemma answers_keys w tasks : (answers w tasks).*1 = tasks.*1.
Proof. unfold answers. by rewrite <- list_fmap_compose. Qed.

Lemma cache_of_answers now w name code :
  (name, code) ∈ INDICATORS ->
  cache_of now (answers w INDICATORS) !! name = Some (CRecords (w_provider w code)).
Proof.
  intros Hin. unfold cache_of. rewrite foldl_insert_lookup.
  2:{ rewrite answers_keys. apply INDICATORS_NoDup. }
  rewrite (dict_get_elem_of _ name (CRecords (w_provider w code))); [done| |].
  - rewrite answers_keys. apply INDICATORS_NoDup.
  - unfold answers. apply list_elem_of_fmap. by exists (name, code).
Qed.

Lemma cache_of_answers_meta now w :
  cache_of now (answers w INDICATORS) !! meta_key = Some (CMeta (Some now)).
Proof.
  unfold cache_of. rewrite foldl_insert_lookup.
  2:{ rewrite answers_keys. apply INDICATORS_NoDup. }
  rewrite dict_get_None; [by rewrite lookup_singleton_eq|].
  rewrite answers_keys. apply meta_key_not_indicator.
Qed.

(** X6: after the first load of a server without a cache file, when the
    file was written, reads back as the dict written and is read back within
    the freshness window, the load that follows [invalidate_cache] sends no
    request, leaves the file as it is, and rebuilds the same tables and the
    same country registry: [invalidate_cache] forgets the tables, not the
    cache file. *)
Theorem reload_served_from_cache np_power max_age dumps loads w st' w' :
  w_file w = None -> w_disk_ok w = true ->
  loads (dumps (cache_of (w_clock w (w_ticks w)) (answers w INDICATORS))) =
    Some (cache_of (w_clock w (w_ticks w)) (answers w INDICATORS)) ->
  ((w_clock w (S (w_ticks w)) - w_clock w (w_ticks w)) / 3600 <= inject_Z max_age)%Q ->
  load_all np_power max_age dumps loads new_collector w = Ok (st', w') ->
  exists w'',
    load_all np_power max_age dumps loads (invalidate_cache st') w' = Ok (st', w'') /\
    w_requests w'' = w_requests w' /\ w_file w'' = w_file w'.
Proof.
  intros Hfile Hdisk Hcodec Hfresh Hload.
  set (now := w_clock w (w_ticks w)) in *.
  set (raw := answers w INDICATORS) in *.
  assert (load_cache max_age loads w = (None, w)) as Hmiss.
  { unfold load_cache. by rewrite Hfile. }
  rewrite load_all_eq in Hload by done. rewrite Hmiss in Hload. simpl in Hload.
  rewrite cache_hits_empty, cache_misses_empty, app_nil_l in Hload.
  fold raw in Hload.
  destruct INDICATORS_nonempty as (ind & inds & Hinds).
  assert (match INDICATORS with
          | [] => w
          | _ => save_cache dumps raw (after_requests INDICATORS.*2 w)
          end = save_cache dumps raw (after_requests INDICATORS.*2 w)) as Hw.
  { by rewrite Hinds. }
  rewrite Hw in Hload. clear Hw ind inds Hinds.
  destruct (transform_all raw new_collector) as [st1|] eqn:H1; [|done].
  unfold mbind, result_bind in Hload.
  destruct (growth_all np_power _ st1) as [st2|] eqn:H2; [|done].
  injection Hload as <- <-.
  set (w1 := save_cache dumps raw (after_requests INDICATORS.*2 w)).
  assert (load_cache max_age loads w1 =
          (Some (cache_of now raw),
           World (w_clock w) (S (S (w_ticks w))) (w_file w1) true (w_provider w)
                 (w_requests w ++ INDICATORS.*2))) as Hhit.
  { unfold w1, save_cache, load_cache, time_time, write_file. simpl.
    rewrite Hdisk. simpl. fold now. rewrite Hcodec.
    unfold raw. rewrite cache_of_answers_meta. simpl.
    fold now.
    destruct (Qle_bool _ _) eqn:Hle; [done|].
    exfalso. apply not_true_iff_false in Hle. apply Hle.
    apply Qle_bool_iff. exact Hfresh. }
  assert (cache_hits (cache_of now raw) = raw) as Hhits.
  { unfold cache_hits.
    transitivity ((fun t : string * string => (t.1, CRecords (w_provider w t.2)))
                    <$> INDICATORS); [|done].
    apply omap_all_Some. intros [name code] Hin. simpl. unfold raw.
    by rewrite (cache_of_answers now w name code). }
  assert (cache_misses (cache_of now raw) = []) as Hnomiss.
  { unfold cache_misses. apply filter_none. intros [name code] Hin. simpl. unfold raw.
    by rewrite (cache_of_answers now w name code). }
  change (invalidate_cache _) with new_collector.
  rewrite load_all_eq by done. rewrite Hhit. simpl.
  rewrite Hhits, Hnomiss. unfold answers at 1. simpl. rewrite app_nil_r.
  rewrite H1. unfold mbind, result_bind. rewrite H2.
  eexists. split; [reflexivity|]. simpl.
  split; [|done].
  unfold w1. by rewrite (proj1 (save_cache_requests _ _ _)).
Qed.

(** X7: a load does not depend on whether the cache file can be written:
    with the same clock, file and provider it builds the same collector when
    writing fails as when it succeeds. *)
Theorem load_ignores_write_failure np_power max_age dumps loads st w st' w' ok :
  load_all np_power max_age dumps loads st w = Ok (st', w') ->
  exists w'', load_all np_power max_age dumps loads st (with_disk ok w) = Ok (st', w'').
Proof.
  intros Hload. destruct (_loaded st) eqn:Hl.
  { unfold load_all in *. rewrite Hl in *.
    change (Ok (st, w) = Ok (st', w')) in Hload.
    assert (st' = st) as -> by congruence. eauto. }
  rewrite load_all_eq in Hload by done. rewrite load_all_eq by done.
  assert ((load_cache max_age loads (with_disk ok w)).1 = (load_cache max_age loads w).1)
    as ->.
  { unfold load_cache, with_disk. simpl.
    destruct (w_file w) as [text|]; [|done].
    destruct (loads text) as [cache|]; [|done].
    destruct (default (CMeta None) (cache !! meta_key)) as [ts|]; [|done]. simpl.
    by destruct (negb _). }
  change (answers (with_disk ok w)) with (answers w).
  destruct (transform_all _ st) as [st1|]; [|done].
  unfold mbind, result_bind in *.
  destruct (growth_all np_power _ st1) as [st2|]; [|done].
  injection Hload as <- <-. eauto.
Qed.

Local Transparent INDICATORS.

Lemma warm_load_Ok :
  is_ok (load_all (fun x _ => x) 24 (fun _ => "cache") warm_loads
                  new_collector demo_world) = true.
Proof. vm_compute. reflexivity. Qed.

Lemma reload_served_from_cache_witness :
  exists st' w' w'',
    load_all (fun x _ => x) 24 (fun _ => "cache") warm_loads new_collector demo_world
      = Ok (st', w') /\
    load_all (fun x _ => x) 24 (fun _ => "cache") warm_loads (invalidate_cache st') w'
      = Ok (st', w'') /\
    w_requests w'' = w_requests w'.
Proof.
  pose proof warm_load_Ok as Hok.
  destruct (load_all (fun x _ => x) 24 (fun _ => "cache") warm_loads
                     new_collector demo_world) as [[st' w']|e] eqn:Hload;
    [|discriminate Hok].
  destruct (reload_served_from_cache (fun x _ => x) 24 (fun _ => "cache") warm_loads
              demo_world st' w') as (w'' & Hreload & Hreq & _).
  - reflexivity.
  - reflexivity.
  - reflexivity.
  - vm_compute. discriminate.
  - exact Hload.
  - exists st', w', w''. split; [reflexivity|]. by split.
Defined.

Lemma load_ignores_write_failure_witness :
  exists st' w' w'',
    load_all (fun x _ => x) 24 (fun _ => "cache") (fun _ => None)
             new_collector demo_world = Ok (st', w') /\
    load_all (fun x _ => x) 24 (fun _ => "cache") (fun _ => None)
             new_collector (with_disk false demo_world) = Ok (st', w'').
Proof.
  pose proof demo_load_Ok as Hok.
  destruct (load_all (fun x _ => x) 24 (fun _ => "cache") (fun _ => None)
                     new_collector demo_world) as [[st' w']|e] eqn:Hload;
    [|discriminate Hok].
  destruct (load_ignores_write_failure (fun x _ => x) 24 (fun _ => "cache")
              (fun _ => None) new_collector demo_world st' w' false Hload)
    as (w'' & Hfail).
  exists st', w', w''. by split.
Defined.

(** ** The accessors *)

(** X8: [get_all_countries] lists, in ascending order and each once, the
    codes that are a column of some table that is not empty. *)
Theorem all_countries_are_columns st :
  Sorted String.le (get_all_countries st) /\
  NoDup (get_all_countries st) /\
  forall c, c ∈ get_all_countries st <->
    exists name df, _dataframes st !! name = Some df /\
                    df_empty df = false /\ c ∈ df_columns df.
Proof.
  unfold get_all_countries. split; [|split].
  - apply Sorted_merge_sort; apply _.
  - rewrite merge_sort_Permutation. apply NoDup_elements.
  - intros c. rewrite merge_sort_Permutation, elem_of_elements.
    revert c.
    apply (map_fold_weak_ind (fun (r : gset string) (m : gmap string DataFrame) =>
      forall c, c ∈ r <-> exists name df, m !! name = Some df /\
                                           df_empty df = false /\ c ∈ df_columns df)).
    + intros c. split; [set_solver|]. intros (name & df & Hl & _). by rewrite lookup_empty in Hl.
    + intros name df m r Hfresh IH c.
      destruct (df_empty df) eqn:Hempty.
      * rewrite IH. split.
        -- intros (n & d & Hn & He & Hc). exists n, d. split; [|done].
           rewrite lookup_insert_ne; [done|]. intros ->. congruence.
        -- intros (n & d & Hn & He & Hc).
           destruct (decide (name = n)) as [->|Hne].
           ++ rewrite lookup_insert_eq in Hn. congruence.
           ++ rewrite lookup_insert_ne in Hn by done. eauto.
      * rewrite elem_of_union, elem_of_list_to_set, IH. split.
        -- intros [Hc|(n & d & Hn & He & Hc)].
           ++ exists name, df. by rewrite lookup_insert_eq.
           ++ exists n, d. split; [|done].
              rewrite lookup_insert_ne; [done|]. intros ->. congruence.
        -- intros (n & d & Hn & He & Hc).
           destruct (decide (name = n)) as [->|Hne].
           ++ rewrite lookup_insert_eq in Hn. injection Hn as ->. by left.
           ++ rewrite lookup_insert_ne in Hn by done. right. eauto.
Qed.

Lemma last_or_none_eq {K} (s : Series K) : last_or_none s = Ok (last s ≫= snd).
Proof.
  unfold last_or_none, iloc_last. destruct s as [|kv s]; [done|].
  change (negb (series_empty (kv :: s))) with true. cbv iota.
  destruct (last (kv :: s)) as [kv'|] eqn:Hlast; [done|].
  by apply last_None in Hlast.
Qed.

Lemma StronglySorted_sublist {A} (R : relation A) (l1 l2 : list A) :
  l1 `sublist_of` l2 -> StronglySorted R l2 -> StronglySorted R l1.
Proof.
  induction 1 as [|x l1 l2 Hsub IH|x l1 l2 Hsub IH]; intros Hs.
  - constructor.
  - apply StronglySorted_inv in Hs as [Hs Hall]. constructor; [by apply IH|].
    rewrite Forall_forall in Hall |- *. intros y Hy. apply Hall.
    by eapply elem_of_sublist.
  - apply StronglySorted_inv in Hs as [Hs _]. by apply IH.
Qed.

Lemma ascending_strict (l : list Z) :
  Sorted Z.le l -> NoDup l -> StronglySorted Z.lt l.
Proof.
  intros Hs%Sorted_StronglySorted Hnd; [|apply _].
  induction Hs as [|x l Hs IH Hall]; [constructor|].
  apply NoDup_cons in Hnd as [Hx Hnd]. constructor; [by apply IH|].
  rewrite Forall_forall in Hall |- *. intros y Hy.
  assert (x <> y) by (intros ->; done). specialize (Hall y Hy). lia.
Qed.

Lemma StronglySorted_last_max (l : list Z) y y' :
  StronglySorted Z.lt l -> last l = Some y -> y' ∈ l -> y' <= y.
Proof.
  intros Hs [l' ->]%last_Some Hin.
  apply elem_of_app in Hin as [Hin|Hin%list_elem_of_singleton]; [|lia].
  apply StronglySorted_app in Hs as (Hlt & _ & _).
  specialize (Hlt y' y Hin). apply Z.lt_le_incl, Hlt. by left.
Qed.

Lemma elem_of_dropna_zip (index : list Z) (col : list (option Q)) y v :
  (y, v) ∈ dropna (zip index col) <->
  is_Some v /\ exists i, index !! i = Some y /\ col !! i = Some v.
Proof.
  unfold dropna. rewrite list_elem_of_filter. simpl. split.
  - intros [Hv [i Hi]%list_elem_of_lookup]. split; [done|].
    apply lookup_zip_Some in Hi. eauto.
  - intros [Hv (i & Hy & Hc)]. split; [done|].
    apply list_elem_of_lookup. exists i. by apply lookup_zip_Some.
Qed.

Lemma get_country_series_column st iso3 indicator :
  frames_wf st ->
  let df := get_indicator_df st indicator in
  df_empty df = false -> iso3 ∈ df_columns df ->
  exists col, df_column df iso3 = Some col /\ length col = df_len df /\
              get_country_series st iso3 indicator = Ok (dropna (zip (df_index df) col)).
Proof.
  intros Hwf df Hempty Hcol. unfold get_country_series. fold df.
  rewrite Hempty, bool_decide_eq_false_2 by (by intros ?). simpl.
  unfold getitem_column, df_column.
  destruct (position_elem_of _ _ Hcol) as (j & -> & Hj). simpl.
  destruct (get_indicator_df_wf st indicator Hwf) as [Hlen Hcols]. fold df in Hlen, Hcols.
  destruct (lookup_lt_is_Some_2 (df_data df) j) as [col Hdata].
  { rewrite Hlen. by eapply lookup_lt_Some. }
  rewrite Hdata. simpl. exists col. split; [done|]. split; [|done].
  rewrite Forall_forall in Hcols. apply Hcols. by eapply list_elem_of_lookup_2.
Qed.

(** X9: on a table with ascending, pairwise different years, the series of
    a country holds exactly the cells of its column that have a value, in
    strictly ascending order of the year: its last entry, which the
    accessors report as the latest value, is the one of the latest year
    with a value.  It is empty for a code that is not a column. *)
Theorem country_series_is_observed_cells st iso3 indicator s :
  frames_wf st -> frame_ordered (get_indicator_df st indicator) ->
  get_country_series st iso3 indicator = Ok s ->
  (forall y v, (y, v) ∈ s <->
     exists q, v = Some q /\ df_cell (get_indicator_df st indicator) y iso3 = Some q) /\
  StronglySorted Z.lt s.*1 /\
  (forall y v y' v', last s = Some (y, v) -> (y', v') ∈ s -> y' <= y).
Proof.
  intros Hwf (Hsorted & Hnd & _ & _) Hs.
  set (df := get_indicator_df st indicator) in *.
  assert (StronglySorted Z.lt s.*1 /\
          forall y v, (y, v) ∈ s <->
            exists q, v = Some q /\ df_cell df y iso3 = Some q) as [Hstrict Hcells].
  { destruct (df_empty df) eqn:Hempty; [|destruct (decide (iso3 ∈ df_columns df)) as [Hcol|Hcol]].
    - unfold get_country_series in Hs. fold df in Hs. rewrite Hempty in Hs.
      injection Hs as <-. split; [constructor|]. intros y v. split; [by intros ?%elem_of_nil|].
      intros (q & _ & Hcell). exfalso. unfold df_cell in Hcell.
      destruct (df_column df iso3) as [col|] eqn:Hc; simpl in Hcell; [|done].
      unfold df_empty in Hempty. apply orb_true_iff in Hempty as [He|He];
        apply bool_decide_eq_true in He.
      + by rewrite He in Hcell.
      + unfold df_column in Hc. by rewrite He in Hc.
    - destruct (get_country_series_column st iso3 indicator Hwf Hempty Hcol)
        as (col & Hc & Hlen & Hser). fold df in Hc, Hlen, Hser.
      rewrite Hser in Hs. injection Hs as <-. split.
      + apply StronglySorted_sublist with (df_index df); [|by apply ascending_strict].
        etrans; [apply fmap_sublist, sublist_filter|].
        rewrite fst_zip; [done|]. unfold df_len in Hlen. lia.
      + intros y v. rewrite elem_of_dropna_zip. unfold df_cell. rewrite Hc. simpl.
        split.
        * intros [[q ->] (i & Hy & Hv)]. exists q. split; [done|].
          rewrite (position_NoDup _ _ _ Hnd Hy). simpl. by rewrite Hv.
        * intros (q & -> & Hcell). split; [by eexists|].
          destruct (position y (df_index df)) as [i|] eqn:Hpos; simpl in Hcell; [|done].
          exists i. split; [by apply position_Some|].
          destruct (col !! i) as [[q'|]|]; simpl in Hcell; congruence.
    - rewrite (get_country_series_no_column _ _ _ Hcol) in Hs. injection Hs as <-.
      split; [constructor|]. intros y v. split; [by intros ?%elem_of_nil|].
      intros (q & _ & Hcell). exfalso. unfold df_cell, df_column in Hcell.
      fold df in Hcol. by rewrite (position_None _ _ Hcol) in Hcell. }
  split; [done|]. split; [done|].
  intros y v y' v' Hlast Hin.
  apply (StronglySorted_last_max s.*1); [done| |].
  - by rewrite fmap_last, Hlast.
  - apply list_elem_of_fmap. by exists (y', v').
Qed.

Lemma demo_collector_ordered : frame_ordered (get_indicator_df demo_collector "gdp_per_capita").
Proof.
  assert (get_indicator_df demo_collector "gdp_per_capita" = gap_frame) as ->
    by (vm_compute; reflexivity).
  unfold frame_ordered, gap_frame. simpl. repeat split.
  - repeat constructor; lia.
  - apply (bool_decide_unpack _). vm_compute. exact I.
  - repeat constructor.
  - apply (bool_decide_unpack _). vm_compute. exact I.
Qed.

Lemma country_series_is_observed_cells_witness :
  get_country_series demo_collector "USA" "gdp_per_capita" =
    Ok [(2000, Some 1%Q); (2001, Some 2%Q); (2002, Some 3%Q); (2003, Some 4%Q);
        (2004, Some 5%Q); (2010, Some 6%Q)] /\
  StronglySorted Z.lt [2000; 2001; 2002; 2003; 2004; 2010].
Proof.
  assert (get_country_series demo_collector "USA" "gdp_per_capita" =
    Ok [(2000, Some 1%Q); (2001, Some 2%Q); (2002, Some 3%Q); (2003, Some 4%Q);
        (2004, Some 5%Q); (2010, Some 6%Q)]) as Hs by (vm_compute; reflexivity).
  split; [exact Hs|].
  exact (proj1 (proj2 (country_series_is_observed_cells demo_collector "USA"
                         "gdp_per_capita" _ demo_collector_wf demo_collector_ordered Hs))).
Defined.

(** ** Invariants of a loaded collector *)

Lemma empty_frame_ordered : frame_ordered empty_frame.
Proof. repeat split; simpl; constructor. Qed.

Lemma compute_growth_rate_ordered np_power df window g :
  frame_ordered df -> compute_growth_rate np_power df window = Ok g -> frame_ordered g.
Proof.
  intros Hdf. unfold compute_growth_rate.
  destruct (_ || _); [intros [= <-]; apply empty_frame_ordered|].
  destruct (window =? 0); [done|]. by intros [= <-].
Qed.

Lemma get_indicator_df_inv (P : DataFrame -> Prop) st indicator :
  P empty_frame -> map_Forall (fun _ => P) (_dataframes st) ->
  P (get_indicator_df st indicator).
Proof.
  intros Hempty Hst. unfold get_indicator_df.
  destruct (_dataframes st !! indicator) as [df|] eqn:Hdf; simpl; [|done].
  by eapply Hst.
Qed.

Lemma load_all_frames_inv (P : DataFrame -> Prop) np_power max_age dumps loads st w st' w' :
  P empty_frame ->
  (forall records df names, records_to_dataframe records = Ok (df, names) -> P df) ->
  (forall df g, P df -> compute_growth_rate np_power df 5 = Ok g -> P g) ->
  map_Forall (fun _ => P) (_dataframes st) ->
  load_all np_power max_age dumps loads st w = Ok (st', w') ->
  map_Forall (fun _ => P) (_dataframes st').
Proof.
  intros Hempty Htransform Hgrowth Hst. unfold load_all. destruct (_loaded st).
  { by intros [= <- <-]. }
  destruct (load_raw_data _ _ _ w) as [raw_data w1].
  destruct (transform_all raw_data st) as [st1|] eqn:H1; [|done].
  unfold mbind, result_bind.
  destruct (growth_all np_power _ st1) as [st2|] eqn:H2; [|done].
  intros [= <- <-]. simpl.
  assert (map_Forall (fun _ => P) (_dataframes st1)) as Hst1.
  { clear H2. revert st Hst H1.
    induction raw_data as [|[name entry] rest IH]; intros st Hst; simpl.
    { by intros [= <-]. }
    destruct (transform_entry entry) as [[df names]|] eqn:Hentry; simpl; [|done].
    apply IH. simpl. apply map_Forall_insert_2; [|done].
    destruct entry as [[ts|]|records]; simpl in Hentry.
    - done.
    - by injection Hentry as <- <-.
    - by eapply Htransform. }
  clear H1 Hst. revert st1 Hst1 H2.
  generalize (INDICATORS.*1) as names.
  induction names as [|name rest IH]; intros st1 Hst1; simpl.
  { by intros [= <-]. }
  destruct (compute_growth_rate _ _ _) as [g|] eqn:Hg; simpl; [|done].
  apply IH. simpl. apply map_Forall_insert_2; [|done].
  eapply Hgrowth; [|exact Hg].
  by apply (get_indicator_df_inv P st1 name).
Qed.

(** X10: the collector that [lifespan] hands to the request handlers is
    loaded; every table in it has one column of cells per column label,
    each as long as the index, ascending and pairwise different years,
    ascending and pairwise different column labels, and no empty or
    aggregate code among its columns. *)
Theorem lifespan_invariants np_power max_age dumps loads w st w' :
  lifespan np_power max_age dumps loads w = Ok (st, w') ->
  _loaded st = true /\ frames_wf st /\ frames_ordered st /\ countries_only st.
Proof.
  unfold lifespan. intros Hload. split; [by eapply load_all_loaded|].
  split; [|split].
  - eapply load_all_frames_wf; [|exact Hload]. apply new_collector_wf.
  - eapply (load_all_frames_inv frame_ordered); [| | | |exact Hload].
    + apply empty_frame_ordered.
    + apply records_to_dataframe_ordered.
    + intros df g. apply compute_growth_rate_ordered.
    + apply map_Forall_empty.
  - eapply load_all_country_columns; [|exact Hload]. apply map_Forall_empty.
Qed.

Lemma lifespan_invariants_witness :
  exists st w',
    lifespan (fun x _ => x) 24 (fun _ => "cache") (fun _ => None) demo_world = Ok (st, w') /\
    _loaded st = true /\ frames_wf st /\ frames_ordered st /\ countries_only st.
Proof.
  pose proof demo_load_Ok as Hok. unfold lifespan.
  destruct (load_all (fun x _ => x) 24 (fun _ => "cache") (fun _ => None)
                     new_collector demo_world) as [[st w']|e] eqn:Hload;
    [|discriminate Hok].
  exists st, w'. split; [reflexivity|].
  exact (lifespan_invariants (fun x _ => x) 24 (fun _ => "cache") (fun _ => None)
           demo_world st w' Hload).
Defined.

Lemma mapM_Ok_inv {A B} (f : A -> result B) (l : list A) (ys : list B) :
  mapM f l = Ok ys -> Forall2 (fun x y => f x = Ok y) l ys.
Proof.
  revert ys. induction l as [|x l IH]; intros ys; simpl.
  - intros [= <-]. constructor.
  - destruct (f x) as [y|] eqn:Hx; simpl; [|done].
    destruct (mapM f l) as [ys'|]; simpl; [|done].
    intros [= <-]. constructor; [done|by apply IH].
Qed.

(** X11: the latest values of an indicator are indexed by the columns of
    its table (nothing when the table is empty), and the value of a country
    is the last entry of its series: the two accessors agree. *)
Theorem latest_values_are_series_ends st indicator latest :
  frames_wf st -> NoDup (df_columns (get_indicator_df st indicator)) ->
  get_latest_values st indicator = Ok latest ->
  latest.*1 = (if df_empty (get_indicator_df st indicator) then []
               else df_columns (get_indicator_df st indicator)) /\
  forall c v, (c, v) ∈ latest ->
    exists s, get_country_series st c indicator = Ok s /\ v = last s ≫= snd.
Proof.
  intros Hwf Hnd. unfold get_latest_values.
  set (df := get_indicator_df st indicator) in *.
  destruct (df_empty df) eqn:Hempty.
  { intros [= <-]. split; [done|]. by intros c v ?%elem_of_nil. }
  rewrite (mapM_Ok_fmap _
    (fun col : list (option Q) => last (dropna (zip (df_index df) col)) ≫= snd)).
  2:{ intros col _. apply last_or_none_eq. }
  simpl. intros [= <-].
  destruct (get_indicator_df_wf st indicator Hwf) as [Hlen Hcols]. fold df in Hlen, Hcols.
  split.
  - rewrite fst_zip; [done|]. rewrite length_fmap. lia.
  - intros c v [j Hj]%list_elem_of_lookup.
    apply lookup_zip_Some in Hj as [Hc Hv].
    rewrite list_lookup_fmap in Hv.
    destruct (df_data df !! j) as [col|] eqn:Hdata; simpl in Hv; [|done].
    injection Hv as <-.
    destruct (get_country_series_column st c indicator Hwf Hempty)
      as (col' & Hcol' & _ & Hser).
    { by eapply list_elem_of_lookup_2. }
    fold df in Hcol', Hser.
    unfold df_column in Hcol'. rewrite (position_NoDup _ _ _ Hnd Hc) in Hcol'.
    simpl in Hcol'. rewrite Hdata in Hcol'. injection Hcol' as <-.
    eexists. split; [exact Hser|done].
Qed.

Lemma latest_values_are_series_ends_witness :
  get_latest_values demo_collector "gdp_per_capita" = Ok [("USA", Some 6%Q)] /\
  exists s, get_country_series demo_collector "USA" "gdp_per_capita" = Ok s /\
            Some 6%Q = last s ≫= snd.
Proof.
  assert (get_latest_values demo_collector "gdp_per_capita" = Ok [("USA", Some 6%Q)])
    as Hlatest by (vm_compute; reflexivity).
  split; [exact Hlatest|].
  destruct demo_collector_ordered as (_ & _ & _ & Hnd).
  apply (proj2 (latest_values_are_series_ends demo_collector "gdp_per_capita" _
                  demo_collector_wf Hnd Hlatest) "USA" (Some 6%Q)).
  by left.
Defined.

Lemma Forall2_keys {A K B} (R : A -> K * B -> Prop) (k : A -> K)
    (l : list A) (ys : list (K * B)) :
  (forall x y, R x y -> y.1 = k x) -> Forall2 R l ys -> ys.*1 = k <$> l.
Proof.
  intros Hf HF. induction HF as [|x y l ys Hxy _ IH]; [done|].
  rewrite !fmap_cons, IH. f_equal. by apply Hf.
Qed.

(** X12: the master snapshot has one row per country of
    [get_all_countries], in that order, with the registered name of the
    country and one entry per indicator of the catalog, in catalog order:
    the last value of the series of the country, [None] when the series is
    empty. *)
Theorem master_snapshot_rows st rows :
  build_master_snapshot st = Ok rows ->
  snap_iso3 <$> rows = get_all_countries st /\
  forall r, r ∈ rows ->
    snap_country r = get_country_name st (snap_iso3 r) /\
    (snap_values r).*1 = INDICATORS.*1 /\
    forall indicator v, (indicator, v) ∈ snap_values r ->
      exists s, get_country_series st (snap_iso3 r) indicator = Ok s /\
                v = last s ≫= snd.
Proof.
  unfold build_master_snapshot. intros Hrows%mapM_Ok_inv.
  split.
  - induction Hrows as [|iso3 r cs rs Hr _ IH]; [done|].
    rewrite fmap_cons, IH. f_equal.
    destruct (mapM _ INDICATORS.*1) as [values|]; simpl in Hr; [|done].
    by injection Hr as <-.
  - intros r [i Hi]%list_elem_of_lookup.
    destruct (Forall2_lookup_r _ _ _ _ _ Hrows Hi) as (iso3 & _ & Hr).
    destruct (mapM _ INDICATORS.*1) as [values|] eqn:Hvalues; simpl in Hr; [|done].
    injection Hr as <-. cbn [snap_country snap_iso3 snap_values]. split; [done|].
    apply mapM_Ok_inv in Hvalues.
    split.
    + rewrite <- (list_fmap_id INDICATORS.*1).
      eapply Forall2_keys; [|exact Hvalues]. intros ind kv Hkv. simpl in Hkv.
      destruct (get_country_series st iso3 ind) as [s|]; simpl in Hkv; [|done].
      rewrite last_or_none_eq in Hkv. simpl in Hkv. by injection Hkv as <-.
    + intros indicator v [j Hj]%list_elem_of_lookup.
      destruct (Forall2_lookup_r _ _ _ _ _ Hvalues Hj) as (ind & _ & Hkv).
      destruct (get_country_series st iso3 ind) as [s|] eqn:Hs; simpl in Hkv; [|done].
      rewrite last_or_none_eq in Hkv. simpl in Hkv. injection Hkv as <- <-.
      by exists s.
Qed.

Lemma master_snapshot_rows_witness :
  exists rows,
    build_master_snapshot demo_collector = Ok rows /\
    snap_iso3 <$> rows = get_all_countries demo_collector.
Proof.
  destruct (build_master_snapshot demo_collector) as [rows|e] eqn:Hrows.
  - exists rows. split; [reflexivity|].
    exact (proj1 (master_snapshot_rows demo_collector rows Hrows)).
  - exfalso. vm_compute in Hrows. discriminate Hrows.
Defined.

Lemma get_country_series_values st iso3 indicator s :
  get_country_series st iso3 indicator = Ok s -> Forall (fun kv => is_Some kv.2) s.
Proof.
  unfold get_country_series. destruct (_ || _); [by intros [= <-]|].
  destruct (getitem_column _ _) as [col|]; simpl; [|done].
  intros [= <-]. apply Forall_forall. by intros kv [H _]%list_elem_of_filter.
Qed.

Lemma rounded_history_last (s : Series Z) :
  Forall (fun kv => is_Some kv.2) s ->
  length (rounded_history s) = length s /\
  snd <$> last (rounded_history s) = (fun x => py_round x 4) <$> (last s ≫= snd).
Proof.
  unfold rounded_history.
  induction s as [|[y v] s IH] using rev_ind; intros Hs; [done|].
  apply Forall_app in Hs as [Hs Hkv]. apply Forall_singleton in Hkv as [q Hq].
  simpl in Hq. subst v. destruct (IH Hs) as [Hlen _].
  rewrite omap_app. simpl. rewrite !length_app, Hlen. split; [done|].
  by rewrite !last_snoc.
Qed.

Lemma CLUSTERS_NoDup : NoDup CLUSTERS.*1.
Proof. apply (bool_decide_unpack _). vm_compute. exact I. Qed.

Local Opaque INDICATORS CLUSTERS.

(** X13: in the profile of a country the clusters come in catalog order,
    each with its indicators; for every indicator the history has one entry
    per value of the series of the country, [current] is the value of the
    last history entry, and [growth_5y] is the last value of the growth
    series rounded to 6 decimals. *)
Theorem profile_current_is_last_history st iso3 p :
  get_country_profile_v2 st iso3 = Ok p ->
  profile_iso3 p = iso3 /\ profile_name p = get_country_name st iso3 /\
  (profile_data p).*1 = CLUSTERS.*1 /\
  forall cl inds, (cl, inds) ∈ profile_data p ->
    inds.*1 = get_cluster_indicators cl /\
    forall ind ip, (ind, ip) ∈ inds ->
      current ip = snd <$> last (history ip) /\
      exists s gs,
        get_country_series st iso3 ind = Ok s /\
        history ip = rounded_history s /\ length (history ip) = length s /\
        get_country_series st iso3 (growth_key ind) = Ok gs /\
        growth_5y ip = (fun x => py_round x 6) <$> (last gs ≫= snd).
Proof.
  unfold get_country_profile_v2.
  destruct (mapM _ CLUSTERS) as [data|] eqn:Hdata; simpl; [|done].
  intros [= <-]. simpl. split; [done|]. split; [done|].
  apply mapM_Ok_inv in Hdata.
  split.
  { eapply Forall2_keys; [|exact Hdata].
    intros cl [cl' inds] Hcl. simpl in *.
    destruct (mapM _ (indicators cl.2)); simpl in Hcl; congruence. }
  intros cl inds [i Hi]%list_elem_of_lookup.
  destruct (Forall2_lookup_r _ _ _ _ _ Hdata Hi) as ([cl' cdef] & Hcl & Hinds).
  simpl in Hinds.
  destruct (mapM _ (indicators cdef)) as [inds'|] eqn:Hinds'; simpl in Hinds; [|done].
  injection Hinds as -> ->. apply mapM_Ok_inv in Hinds'.
  assert (forall ind ip, (ind, ip) ∈ inds -> indicator_profile_of st iso3 ind = Ok ip)
    as Hprof.
  { intros ind ip [j Hj]%list_elem_of_lookup.
    destruct (Forall2_lookup_r _ _ _ _ _ Hinds' Hj) as ([n code] & _ & Hp).
    simpl in Hp.
    destruct (indicator_profile_of st iso3 n) as [ip'|] eqn:Hip; simpl in Hp; [|done].
    injection Hp as <- <-. exact Hip. }
  split.
  - unfold get_cluster_indicators.
    rewrite (dict_get_lookup CLUSTERS i cl cdef CLUSTERS_NoDup Hcl).
    eapply Forall2_keys; [|exact Hinds'].
    intros n [n' ip] Hn. simpl in *.
    destruct (indicator_profile_of st iso3 n.1); simpl in Hn; congruence.
  - intros ind ip Hin. specialize (Hprof _ _ Hin).
    unfold indicator_profile_of in Hprof.
    destruct (get_country_series st iso3 ind) as [s|] eqn:Hs; simpl in Hprof; [|done].
    rewrite last_or_none_eq in Hprof. simpl in Hprof.
    destruct (get_country_series st iso3 (growth_key ind)) as [gs|] eqn:Hgs;
      simpl in Hprof; [|done].
    rewrite last_or_none_eq in Hprof. simpl in Hprof. injection Hprof as <-. simpl.
    destruct (rounded_history_last s (get_country_series_values _ _ _ _ Hs))
      as [Hlen Hlast].
    split; [by rewrite Hlast|]. by exists s, gs.
Qed.

Lemma cluster_profile_entries st iso3 prof (cluster : string)
    (d : list (string * list (string * Q))) :
  get_country_cluster_profile st iso3 = Ok prof ->
  (cluster, d) ∈ prof <->
  exists cdef, ((cluster, cdef) ∈ CLUSTERS) /\
               yearly_data st iso3 (indicators cdef).*1 = Ok d.
Proof.
  unfold get_country_cluster_profile. intros HF%mapM_Ok_inv. split.
  - intros [i Hi]%list_elem_of_lookup.
    destruct (Forall2_lookup_r _ _ _ _ _ HF Hi) as ([cl cdef] & Hcl & Hd).
    simpl in Hd.
    destruct (yearly_data st iso3 (indicators cdef).*1) as [d'|] eqn:Hy;
      simpl in Hd; [|done].
    injection Hd as <- <-. exists cdef. split; [by eapply list_elem_of_lookup_2|done].
  - intros (cdef & [i Hi]%list_elem_of_lookup & Hy).
    destruct (Forall2_lookup_l _ _ _ _ _ HF Hi) as (entry & Hentry & Hd).
    simpl in Hd. rewrite Hy in Hd. simpl in Hd. injection Hd as <-.
    by eapply list_elem_of_lookup_2.
Qed.

(** X14: the data of a cluster lists, in the order of [get_all_countries],
    the countries with at least one value for an indicator of the cluster,
    and gives each of them the year dict that the legacy profile of the
    country gives for the cluster; the countries it leaves out are those
    whose year dict is empty. *)
Theorem cluster_data_matches_profiles st cluster cdef data :
  frames_wf st ->
  dict_get cluster CLUSTERS = Some cdef ->
  get_cluster_data st cluster = Ok data ->
  data.*1 `sublist_of` get_all_countries st /\
  (forall iso3 d, (iso3, d) ∈ data ->
     d <> [] /\
     exists prof, get_country_cluster_profile st iso3 = Ok prof /\
                  ((cluster, d) ∈ prof)) /\
  (forall iso3 prof d, iso3 ∈ get_all_countries st ->
     get_country_cluster_profile st iso3 = Ok prof -> (cluster, d) ∈ prof -> d <> [] ->
     (iso3, d) ∈ data).
Proof.
  intros Hwf Hcdef. unfold get_cluster_data. rewrite Hcdef.
  destruct (mapM _ (get_all_countries st)) as [per_country|] eqn:Hpc; simpl; [|done].
  intros [= <-]. apply mapM_Ok_inv in Hpc.
  assert (per_country.*1 = get_all_countries st) as Hkeys.
  { rewrite <- (list_fmap_id (get_all_countries st)).
    eapply Forall2_keys; [|exact Hpc]. intros iso3 [iso3' d] Hd. simpl in *.
    destruct (yearly_data st iso3 _); simpl in Hd; congruence. }
  assert (forall iso3 d, (iso3, d) ∈ per_country <->
            (iso3 ∈ get_all_countries st) /\
            yearly_data st iso3 (indicators cdef).*1 = Ok d) as Hmem.
  { intros iso3 d. split.
    - intros [i Hi]%list_elem_of_lookup.
      destruct (Forall2_lookup_r _ _ _ _ _ Hpc Hi) as (c & Hc & Hd). simpl in Hd.
      destruct (yearly_data st c _) as [d'|] eqn:Hy; simpl in Hd; [|done].
      injection Hd as <- <-. split; [by eapply list_elem_of_lookup_2|done].
    - intros [[i Hi]%list_elem_of_lookup Hy].
      destruct (Forall2_lookup_l _ _ _ _ _ Hpc Hi) as (entry & Hentry & Hd).
      simpl in Hd. rewrite Hy in Hd. simpl in Hd. injection Hd as <-.
      by eapply list_elem_of_lookup_2. }
  split; [|split].
  - rewrite <- Hkeys. apply fmap_sublist, sublist_filter.
  - intros iso3 d [Hd [_ Hy]%Hmem]%list_elem_of_filter. simpl in Hd.
    split; [done|].
    destruct (get_country_cluster_profile_Ok st iso3 Hwf) as [prof Hprof].
    exists prof. split; [done|].
    apply (cluster_profile_entries _ _ _ _ _ Hprof). exists cdef.
    split; [by apply dict_get_Some|done].
  - intros iso3 prof d Hin Hprof Hd Hne.
    apply (cluster_profile_entries _ _ _ _ _ Hprof) in Hd as (cdef' & Hcl & Hy).
    rewrite (dict_get_elem_of _ _ _ CLUSTERS_NoDup Hcl) in Hcdef.
    injection Hcdef as ->.
    apply list_elem_of_filter. split; [done|]. by apply Hmem.
Qed.

Local Transparent INDICATORS CLUSTERS.

Lemma profile_current_is_last_history_witness :
  exists p,
    get_country_profile_v2 demo_collector "USA" = Ok p /\
    profile_iso3 p = "USA" /\ (profile_data p).*1 = CLUSTERS.*1.
Proof.
  destruct (get_country_profile_v2 demo_collector "USA") as [p|e] eqn:Hp.
  - exists p. split; [reflexivity|].
    destruct (profile_current_is_last_history demo_collector "USA" p Hp)
      as (Hiso & _ & Hdata & _).
    by split.
  - exfalso. vm_compute in Hp. discriminate Hp.
Defined.

Lemma cluster_data_matches_profiles_witness :
  exists cdef data,
    dict_get "economic_risk" CLUSTERS = Some cdef /\
    get_cluster_data demo_collector "economic_risk" = Ok data /\
    data.*1 `sublist_of` get_all_countries demo_collector.
Proof.
  destruct (dict_get "economic_risk" CLUSTERS) as [cdef|] eqn:Hcdef;
    [|exfalso; vm_compute in Hcdef; discriminate Hcdef].
  destruct (get_cluster_data demo_collector "economic_risk") as [data|e] eqn:Hdata.
  - exists cdef, data. split; [reflexivity|]. split; [reflexivity|].
    exact (proj1 (cluster_data_matches_profiles demo_collector "economic_risk" cdef data
                    demo_collector_wf Hcdef Hdata)).
  - exfalso. vm_compute in Hdata. discriminate Hdata.
Defined.

(** ** Forecasts of the series of the collector *)

Lemma bind_Ok {A B} (f : A -> result B) (a : A) : Ok a ≫= f = f a.
Proof. reflexivity. Qed.

Lemma clean_points_all_valid {K} (s : Series K) :
  Forall (fun kv => is_Some kv.2) s ->
  length (clean_points s) = length s /\ (clean_points s).*1 = s.*1.
Proof.
  unfold clean_points. induction s as [|[k v] s IH]; intros Hs; [done|].
  apply Forall_cons in Hs as [[q Hq] Hs]. simpl in Hq. subst v.
  destruct (IH Hs) as [IH1 IH2]. csimpl. split; [by rewrite IH1|by rewrite IH2].
Qed.

Lemma get_country_series_keys st iso3 indicator s :
  frames_wf st -> NoDup (df_index (get_indicator_df st indicator)) ->
  get_country_series st iso3 indicator = Ok s -> NoDup s.*1.
Proof.
  intros Hwf Hnd. unfold get_country_series.
  destruct (_ || _) eqn:Hguard; [intros [= <-]; constructor|].
  destruct (getitem_column _ _) as [col|] eqn:Hcol; simpl; [|done].
  intros [= <-]. unfold getitem_column in Hcol.
  destruct (df_column _ _) as [col'|]; [|done]. injection Hcol as <-.
  eapply sublist_NoDup; [exact Hnd|].
  etrans; [apply fmap_sublist, sublist_filter|].
  clear. generalize (df_index (get_indicator_df st indicator)) as index.
  intros index. revert col'. induction index as [|y index IH]; intros [|v col]; simpl;
    try done; try apply sublist_nil_l.
  by apply sublist_skip.
Qed.

Lemma forecast_trend_enough pv (s : Series Z) target_year :
  NoDup s.*1 -> Forall (fun kv => is_Some kv.2) s -> (3 <= length s)%nat ->
  exists slope intercept r2,
    forecast_trend pv s target_year =
    Ok (Forecast target_year
          (py_round (slope * inject_Z target_year + intercept) 4)
          (py_round slope 6) (py_round r2 4)
          (py_round (pv ((fun kv : Z * Q => inject_Z kv.1) <$> clean_points s)
                        (snd <$> clean_points s)) 6)
          (fitted_points slope intercept (clean_points s) ++
           [TrendPoint target_year None
              (py_round (slope * inject_Z target_year + intercept) 4)])).
Proof.
  intros Hnd Hvalid Hlen.
  destruct (clean_points_all_valid s Hvalid) as [Hclen _].
  apply clean_points_NoDup in Hnd.
  destruct (linregress_Ok pv (clean_points s) Hnd) as (slope & intercept & r2 & Hlr);
    [lia|].
  exists slope, intercept, r2. unfold forecast_trend.
  destruct (Nat.ltb_spec (length (clean_points s)) 3); [lia|].
  rewrite Hlr. simpl.
  rewrite (mapM_fmap_Ok _ fst
             (fun kv => TrendPoint kv.1 (Some (py_round kv.2 4))
                          (py_round (slope * inject_Z kv.1 + intercept) 4))).
  - done.
  - intros [yr v] Hin. simpl. by rewrite (getitem_NoDup _ yr v).
Qed.

Lemma forecast_trend_few pv (s : Series Z) target_year :
  (length s < 3)%nat ->
  forecast_trend pv s target_year = Ok (InsufficientData target_year).
Proof.
  intros Hlen. unfold forecast_trend.
  assert (length (clean_points s) <= length s)%nat as Hle.
  { unfold clean_points. clear. induction s as [|[k [v|]] s IH]; csimpl; lia. }
  by destruct (Nat.ltb_spec (length (clean_points s)) 3); [|lia].
Qed.

Lemma fitted_points_years slope intercept (clean : list (Z * Q)) :
  tp_year <$> fitted_points slope intercept clean = clean.*1.
Proof. unfold fitted_points. by rewrite <- list_fmap_compose. Qed.

(** X15: on a collector with well-formed tables of pairwise different
    years, the forecast handler never fails.  It looks the country up under
    its upper-cased code; without a value for the indicator it answers "no
    data"; with one or two values it passes on the insufficient-data answer
    of [forecast_trend]; with three or more it answers a forecast for 2030
    whose trend points are the years of the series followed by 2030. *)
Theorem forecast_endpoint_cases pv upper st iso3 indicator :
  frames_wf st -> NoDup (df_index (get_indicator_df st indicator)) ->
  exists s,
    get_country_series st (upper iso3) indicator = Ok s /\
    match length s with
    | 0%nat =>
        get_forecast pv upper st iso3 indicator =
        Ok (NoData (upper iso3) indicator 2030
              ("No data for " +:+ indicator +:+ " in " +:+ upper iso3))
    | 1%nat | 2%nat =>
        get_forecast pv upper st iso3 indicator =
        Ok (ForecastFor (upper iso3) indicator (InsufficientData 2030))
    | _ =>
        exists predicted slope r2 p points,
          get_forecast pv upper st iso3 indicator =
          Ok (ForecastFor (upper iso3) indicator
                (Forecast 2030 predicted slope r2 p points)) /\
          tp_year <$> points = s.*1 ++ [2030]
    end.
Proof.
  intros Hwf Hnd.
  destruct (get_country_series_Ok st (upper iso3) indicator Hwf) as [s Hs].
  exists s. split; [done|]. unfold get_forecast. rewrite Hs, bind_Ok.
  pose proof (get_country_series_keys _ _ _ _ Hwf Hnd Hs) as Hkeys.
  pose proof (get_country_series_values _ _ _ _ Hs) as Hvalid.
  destruct s as [|kv1 s'] eqn:Es; [done|]. rewrite <- Es in *.
  assert (series_empty s = false) as -> by (by rewrite Es).
  assert (length s = S (length s')) as Hlen by (by rewrite Es).
  destruct (decide (length s < 3)%nat) as [Hfew|Hmany].
  - rewrite forecast_trend_few by done.
    destruct (length s) as [|[|[|n]]]; try lia; done.
  - destruct (forecast_trend_enough pv s 2030 Hkeys Hvalid)
      as (slope & intercept & r2 & ->); [lia|].
    destruct (length s) as [|[|[|n]]]; try lia.
    do 5 eexists. split; [reflexivity|].
    rewrite fmap_app, fitted_points_years.
    by rewrite (proj2 (clean_points_all_valid _ Hvalid)).
Qed.

Lemma forecast_endpoint_cases_witness :
  exists s,
    get_country_series demo_collector "USA" "gdp_per_capita" = Ok s /\
    length s = 6%nat /\
    exists predicted slope r2 p points,
      get_forecast demo_pvalue id demo_collector "USA" "gdp_per_capita" =
      Ok (ForecastFor "USA" "gdp_per_capita" (Forecast 2030 predicted slope r2 p points)) /\
      tp_year <$> points = s.*1 ++ [2030].
Proof.
  destruct demo_collector_ordered as (_ & Hnd & _).
  destruct (forecast_endpoint_cases demo_pvalue id demo_collector "USA" "gdp_per_capita"
              demo_collector_wf Hnd) as (s & Hs & Hcase).
  exists s. split; [exact Hs|].
  assert (length s = 6%nat) as Hlen.
  { vm_compute in Hs. injection Hs as <-. reflexivity. }
  split; [exact Hlen|]. rewrite Hlen in Hcase. exact Hcase.
Defined.

Local Opaque INDICATORS CLUSTERS.

Lemma forecast_trend_Ok pv (s : Series Z) target_year :
  NoDup s.*1 -> Forall (fun kv => is_Some kv.2) s ->
  exists fc, forecast_trend pv s target_year = Ok fc.
Proof.
  intros Hkeys Hvalid. destruct (decide (length s < 3)%nat) as [Hfew|Hmany].
  - rewrite forecast_trend_few by done. by eexists.
  - destruct (forecast_trend_enough pv s target_year Hkeys Hvalid)
      as (slope & intercept & r2 & ->); [lia|]. by eexists.
Qed.

Lemma indicator_report_of_spec pv st iso3 indicator :
  frames_wf st -> frames_ordered st ->
  exists s r,
    get_country_series st iso3 indicator = Ok s /\
    indicator_report_of pv st iso3 indicator = Ok r /\
    match r with
    | EmptyReport => s = []
    | IndicatorReport time_series latest_value growth_5y_pct fc =>
        s <> [] /\
        time_series = (fun kv : Z * option Q => (kv.1, (fun v => py_round v 4) <$> kv.2)) <$> s /\
        Some latest_value = snd <$> last time_series /\
        forecast_trend pv s 2030 = Ok fc /\
        exists gs, get_country_series st iso3 (growth_key indicator) = Ok gs /\
          growth_5y_pct = (fun x => py_round (x * 100) 2) <$> (last gs ≫= snd)
    end.
Proof.
  intros Hwf Hord.
  destruct (get_country_series_Ok st iso3 indicator Hwf) as [s Hs].
  destruct (get_country_series_Ok st iso3 (growth_key indicator) Hwf) as [gs Hgs].
  assert (NoDup s.*1) as Hkeys.
  { eapply get_country_series_keys; [done| |exact Hs].
    apply (get_indicator_df_inv frame_ordered st indicator empty_frame_ordered Hord). }
  pose proof (get_country_series_values _ _ _ _ Hs) as Hvalid.
  destruct (forecast_trend_Ok pv s 2030 Hkeys Hvalid) as [fc Hfc].
  exists s. unfold indicator_report_of. rewrite Hs, bind_Ok.
  destruct s as [|kv s'] eqn:Es; [by eexists|]. rewrite <- Es in *.
  assert (series_empty s = false) as -> by (by rewrite Es).
  rewrite Hfc, bind_Ok, Hgs, bind_Ok.
  assert (latest_growth_pct gs =
          Ok ((fun x => py_round (x * 100) 2) <$> (last gs ≫= snd))) as ->.
  { unfold latest_growth_pct, iloc_last. destruct gs as [|g gs']; [done|].
    change (negb (series_empty (g :: gs'))) with true. cbv iota.
    destruct (last (g :: gs')) as [kv'|] eqn:Hlast; [done|].
    by apply last_None in Hlast. }
  rewrite bind_Ok.
  assert (iloc_last s = Ok (last s ≫= snd)) as ->.
  { unfold iloc_last. destruct (last s) as [kv'|] eqn:Hlast; [done|].
    apply last_None in Hlast. congruence. }
  rewrite bind_Ok. eexists. split; [reflexivity|]. split; [reflexivity|].
  lazy iota beta. split; [congruence|]. split; [done|]. split; [|split; [done|by exists gs]].
  rewrite fmap_last. destruct (last s) as [[y v]|] eqn:Hlast; [done|].
  apply last_None in Hlast. congruence.
Qed.


Local Transparent INDICATORS CLUSTERS.

Lemma demo_collector_frames_ordered : frames_ordered demo_collector.
Proof.
  apply map_Forall_insert_2; [|apply map_Forall_empty].
  unfold frame_ordered, gap_frame. simpl. repeat split.
  - repeat constructor; lia.
  - apply (bool_decide_unpack _). vm_compute. exact I.
  - repeat constructor.
  - apply (bool_decide_unpack _). vm_compute. exact I.
Qed.


(** ** The analytics handlers *)

Lemma get_latest_values_keys st indicator latest :
  frames_wf st -> get_latest_values st indicator = Ok latest ->
  latest.*1 = (if df_empty (get_indicator_df st indicator) then []
               else df_columns (get_indicator_df st indicator)).
Proof.
  intros Hwf. unfold get_latest_values.
  set (df := get_indicator_df st indicator) in *.
  destruct (df_empty df) eqn:Hempty; [by intros [= <-]|].
  rewrite (mapM_Ok_fmap _
    (fun col : list (option Q) => last (dropna (zip (df_index df) col)) ≫= snd)).
  2:{ intros col _. apply last_or_none_eq. }
  rewrite bind_Ok. intros [= <-].
  destruct (get_indicator_df_wf st indicator Hwf) as [Hlen _]. fold df in Hlen.
  rewrite fst_zip; [done|]. rewrite length_fmap. lia.
Qed.

Lemma get_latest_values_NoDup st indicator latest :
  frames_wf st -> NoDup (df_columns (get_indicator_df st indicator)) ->
  get_latest_values st indicator = Ok latest -> NoDup latest.*1.
Proof.
  intros Hwf Hnd Hlatest. rewrite (get_latest_values_keys _ _ _ Hwf Hlatest).
  destruct (df_empty _); [constructor|done].
Qed.

Lemma detect_green_growth_rows co2_growth gdp_growth country_names top_n combined :
  combine_series co2_growth gdp_growth = Ok combined -> 0 <= top_n ->
  exists rows : list aligned_row,
    detect_green_growth co2_growth gdp_growth country_names top_n =
      Ok (imap (green_entry_of country_names) rows) /\
    (length rows <= Z.to_nat top_n)%nat /\
    (length rows <= length combined)%nat.
Proof.
  intros Hcomb Hn. unfold detect_green_growth. rewrite Hcomb, bind_Ok.
  assert (length (filter (fun r => is_green r = true) combined) <= length combined)%nat
    as Hle by apply length_filter.
  destruct (filter (fun r => is_green r = true) combined) as [|r green] eqn:Hgreen.
  - exists []. split; [done|]. simpl. lia.
  - rewrite <- Hgreen in *. exists (take (Z.to_nat top_n)
      (merge_sort score_ge (filter (fun r => is_green r = true) combined))).
    split; [by rewrite head_rows_nonneg|].
    rewrite length_take.
    pose proof (Permutation_length (merge_sort_Permutation score_ge
      (filter (fun r => is_green r = true) combined))) as Hlen.
    unfold aligned_row in *. lia.
Qed.

Lemma elem_of_dropna_keys (s : Series string) k :
  NoDup s.*1 ->
  k ∈ (dropna s).*1 <-> exists a, dict_get k s = Some (Some a).
Proof.
  intros Hnd. rewrite list_elem_of_fmap. split.
  - intros ([k' v] & -> & [[a Ha] Hin]%list_elem_of_filter). simpl in *. subst v.
    exists a. by apply dict_get_elem_of.
  - intros [a Ha%dict_get_Some]. exists (k, Some a). split; [done|].
    apply list_elem_of_filter. split; [by eexists|done].
Qed.

Lemma combined_length_intersection (x y : Series string) combined :
  NoDup x.*1 -> NoDup y.*1 -> combine_series x y = Ok combined ->
  length combined = length (index_intersection (dropna x).*1 (dropna y).*1).
Proof.
  intros Hx Hy Hcomb.
  destruct (combine_series_spec x y Hx Hy) as (rows & Hrows & Hnd & Hmem).
  rewrite Hcomb in Hrows. injection Hrows as <-.
  transitivity (length combined.*1.*1); [by rewrite !length_fmap|].
  apply Permutation_length, NoDup_Permutation; [done|apply NoDup_remove_dups|].
  intros k. unfold index_intersection.
  rewrite elem_of_remove_dups, list_elem_of_filter, !elem_of_dropna_keys by done.
  rewrite list_elem_of_fmap. split.
  - intros ([k' a] & -> & ([[k'' a'] b] & Heq & Hin)%list_elem_of_fmap).
    simpl in Heq. injection Heq as -> ->. simpl.
    apply Hmem in Hin as [Ha Hb]. eauto.
  - intros [[b Hb] [a Ha]]. exists (k, a). split; [done|].
    apply list_elem_of_fmap. exists (k, a, b). split; [done|]. by apply Hmem.
Qed.



(** ** Correlation: symmetry and bounds *)

Lemma zip_with_swap_keys (x y : Series string) :
  x.*1 = y.*1 ->
  zip_with (fun ky kx : string * option Q => (ky.1, ky.2, kx.2)) y x =
  swap_values <$> zip_with (fun kx ky : string * option Q => (kx.1, kx.2, ky.2)) x y.
Proof.
  revert y. induction x as [|[k a] x IH]; intros [|[k' b] y] Hkeys; try done.
  simpl in Hkeys. injection Hkeys as <- Hkeys. csimpl. by rewrite IH.
Qed.

Lemma union_index_sym (ix iy : list string) : union_index ix iy = union_index iy ix.
Proof.
  unfold union_index. destruct (decide (ix = iy)) as [->|Hne].
  - by rewrite decide_True.
  - assert (iy <> ix) as Hne' by (intros Heq; by apply Hne).
    rewrite (decide_False _ _ Hne').
    apply (Sorted_unique String.le).
    + apply Sorted_merge_sort; apply _.
    + apply Sorted_merge_sort; apply _.
    + rewrite !merge_sort_Permutation.
      apply NoDup_Permutation; [apply NoDup_remove_dups..|].
      intros k. rewrite !elem_of_remove_dups, !elem_of_app. tauto.
Qed.

Lemma align_sym (x y : Series string) :
  match align x y with
  | Ok rows => align y x = Ok (swap_values <$> rows)
  | Raise e => align y x = Raise e
  end.
Proof.
  unfold align. destruct (decide (x.*1 = y.*1)) as [Heq|Hne].
  - rewrite decide_True by done. by rewrite zip_with_swap_keys.
  - assert (y.*1 <> x.*1) as Hne' by (intros Heq; by apply Hne).
    rewrite (decide_False _ _ Hne').
    destruct (decide (NoDup x.*1 /\ NoDup y.*1)) as [[Hx Hy]|Hnd].
    + rewrite decide_True by done. rewrite (union_index_sym y.*1 x.*1).
      by rewrite <- list_fmap_compose.
    + rewrite decide_False; [done|]. tauto.
Qed.

Lemma dropna2_swap (rows : list (string * option Q * option Q)) :
  dropna2 (swap_values <$> rows) = swap_values <$> dropna2 rows.
Proof.
  unfold dropna2. induction rows as [|[[k [a|]] [b|]] rows IH]; csimpl; try done.
  by rewrite IH.
Qed.

Lemma combine_series_sym (x y : Series string) :
  match combine_series x y with
  | Ok rows => combine_series y x = Ok (swap_values <$> rows)
  | Raise e => combine_series y x = Raise e
  end.
Proof.
  unfold combine_series. pose proof (align_sym x y) as Hsym.
  destruct (align x y) as [rows|e]; rewrite Hsym, !bind_Ok || rewrite Hsym.
  - by rewrite dropna2_swap.
  - done.
Qed.

Lemma Qmult_comm_eq (a b : Q) : (a * b)%Q = (b * a)%Q.
Proof. unfold Qmult. f_equal; [lia|apply Pos.mul_comm]. Qed.

Lemma zip_with_products_sym (x y : list Q) (mx my : Q) :
  zip_with (fun yi xi => (yi - my) * (xi - mx))%Q y x =
  zip_with (fun xi yi => (xi - mx) * (yi - my))%Q x y.
Proof.
  revert y. induction x as [|a x IH]; intros [|b y]; try done.
  simpl. by rewrite IH, Qmult_comm_eq.
Qed.

Lemma pearsonr_sym (x y : list Q) : pearsonr y x = pearsonr x y.
Proof.
  unfold pearsonr. rewrite zip_with_products_sym, orb_comm.
  destruct (_ || _); [done|]. by rewrite Rmult_comm.
Qed.

(** X18: the correlation of two series does not depend on their order:
    with the series exchanged the coefficient, the p-value, the number of
    samples and the flag are the same and the scatter points have their two
    values exchanged, and an error is the same error. *)
Theorem correlation_symmetric pearson_pvalue x_series y_series :
  match calculate_correlation pearson_pvalue x_series y_series with
  | Ok r =>
      calculate_correlation pearson_pvalue y_series x_series =
      Ok (Correlation (pearson_r r) (p_value r) (n_samples r)
                      (swap_values <$> scatter r) (corr_error r))
  | Raise e => calculate_correlation pearson_pvalue y_series x_series = Raise e
  end.
Proof.
  unfold calculate_correlation. pose proof (combine_series_sym x_series y_series) as Hsym.
  destruct (combine_series x_series y_series) as [combined|e]; rewrite Hsym; [|done].
  rewrite !bind_Ok, length_fmap. unfold aligned_row in *.
  destruct (length combined <? 3)%nat; [done|].
  rewrite <- !list_fmap_compose.
  change ((fun row : aligned_row => row.1.2) ∘ swap_values)
    with (fun row : aligned_row => row.2).
  change ((fun row : aligned_row => row.2) ∘ swap_values)
    with (fun row : aligned_row => row.1.2).
  rewrite pearsonr_sym.
  by destruct (pearsonr _ _).
Qed.

Lemma round_half_even_R_bounds (x : R) (a b : Z) :
  (IZR a <= x <= IZR b)%R -> a <= round_half_even_R x <= b.
Proof.
  intros [Ha Hb]. unfold round_half_even_R.
  destruct (archimed x) as [Hup1 Hup2].
  set (f := up x - 1). assert (IZR f <= x < IZR f + 1)%R as [Hf1 Hf2].
  { unfold f. rewrite minus_IZR. lra. }
  assert (a <= f).
  { apply Z.lt_succ_r, lt_IZR. rewrite succ_IZR. lra. }
  assert (f <= b) by (apply le_IZR; lra).
  destruct (Rlt_dec _ _) as [Hlt|Hge]; [lia|].
  assert (f < b); [|destruct (Rlt_dec _ _); [lia|destruct (Z.even f); lia]].
  apply lt_IZR. lra.
Qed.

Lemma py_round_R_bounds (x : R) (ndigits : nat) :
  (-1 <= x <= 1)%R -> (-1 <= py_round_R x ndigits <= 1)%R.
Proof.
  intros [Hlo Hhi]. unfold py_round_R.
  assert (0 < 10 ^ ndigits)%R as Hpos by (apply pow_lt; lra).
  assert (10 ^ ndigits = IZR (10 ^ Z.of_nat ndigits))%R as Hpow by (by rewrite <- pow_IZR).
  destruct (round_half_even_R_bounds (x * 10 ^ ndigits)
              (- 10 ^ Z.of_nat ndigits) (10 ^ Z.of_nat ndigits)) as [H1 H2].
  { rewrite opp_IZR, <- Hpow. split; nra. }
  apply IZR_le in H1, H2. rewrite opp_IZR, <- Hpow in H1. rewrite <- Hpow in H2.
  split.
  - apply Rmult_le_reg_r with (10 ^ ndigits)%R; [done|].
    unfold Rdiv. rewrite Rmult_assoc, Rinv_l by lra. lra.
  - apply Rmult_le_reg_r with (10 ^ ndigits)%R; [done|].
    unfold Rdiv. rewrite Rmult_assoc, Rinv_l by lra. lra.
Qed.

(** X19: a correlation coefficient that [calculate_correlation] reports as
    a number lies between -1 and 1, after the rounding too. *)
Theorem pearson_r_within_bounds pearson_pvalue x_series y_series result v :
  calculate_correlation pearson_pvalue x_series y_series = Ok result ->
  pearson_r result = StatNum v -> (-1 <= v <= 1)%R.
Proof.
  unfold calculate_correlation.
  destruct (combine_series x_series y_series) as [combined|]; [|done].
  rewrite bind_Ok. destruct (length combined <? 3)%nat.
  { by intros [= <-]. }
  unfold pearsonr. destruct (_ || _).
  { by intros [= <-]. }
  intros [= <-]. cbn [pearson_r]. intros [= <-].
  apply py_round_R_bounds. split.
  - apply Rmax_r.
  - apply Rmax_lub; [apply Rmin_r|lra].
Qed.

Lemma scenario_correlation :
  calculate_correlation (fun _ _ => 0%R) scenario_x scenario_y =
  Ok (Correlation (StatNum 1) (StatNum (py_round_R 0 6)) 3
        [("A", 1, 2); ("B", 2, 4); ("C", 3, 6)]%Q None).
Proof.
  unfold calculate_correlation.
  assert (combine_series scenario_x scenario_y =
          Ok [("A", 1, 2); ("B", 2, 4); ("C", 3, 6)]%Q) as -> by (vm_compute; reflexivity).
  cbn -[pearsonr py_round_R]. rewrite scenario_pearsonr.
  by rewrite py_round_R_one.
Qed.

Lemma pearson_r_within_bounds_witness :
  exists result,
    calculate_correlation (fun _ _ => 0%R) scenario_x scenario_y = Ok result /\
    pearson_r result = StatNum 1 /\ (-1 <= 1 <= 1)%R.
Proof.
  eexists. split; [exact scenario_correlation|]. split; [reflexivity|].
  exact (pearson_r_within_bounds (fun _ _ => 0%R) scenario_x scenario_y _ 1
           scenario_correlation eq_refl).
Defined.

Lemma get_latest_values_empty st indicator latest :
  frames_wf st -> get_latest_values st indicator = Ok latest ->
  series_empty latest = df_empty (get_indicator_df st indicator).
Proof.
  intros Hwf Hlatest. pose proof (get_latest_values_keys _ _ _ Hwf Hlatest) as Hkeys.
  destruct (df_empty (get_indicator_df st indicator)) eqn:Hempty.
  - by destruct latest.
  - destruct latest as [|kv latest]; [|done]. simpl in Hkeys.
    unfold df_empty in Hempty. apply orb_false_iff in Hempty as [_ Hcols].
    apply bool_decide_eq_false in Hcols. congruence.
Qed.

(** X20: on a collector with well-formed tables the correlation handler
    never fails.  When the table of either indicator is empty or unknown it
    answers without a coefficient, with 0 samples and an empty scatter;
    otherwise it answers what [calculate_correlation] gives for the latest
    values of the two indicators, every scatter point being a country with a
    latest value for both, labelled with its registered name, and the
    scatter is either empty or has the reported number of samples, at least
    3. *)
Theorem correlation_endpoint_cases pearson_pvalue st x_indicator y_indicator :
  frames_wf st ->
  NoDup (df_columns (get_indicator_df st x_indicator)) ->
  NoDup (df_columns (get_indicator_df st y_indicator)) ->
  exists resp x_latest y_latest,
    get_correlation pearson_pvalue st x_indicator y_indicator = Ok resp /\
    get_latest_values st x_indicator = Ok x_latest /\
    get_latest_values st y_indicator = Ok y_latest /\
    resp_x_indicator resp = x_indicator /\ resp_y_indicator resp = y_indicator /\
    (df_empty (get_indicator_df st x_indicator)
     || df_empty (get_indicator_df st y_indicator) = true ->
       resp = CorrelationResponse x_indicator y_indicator StatNone StatNone 0 [] None) /\
    (forall iso3 x y name, (iso3, x, y, name) ∈ resp_scatter resp ->
       name = get_country_name st iso3 /\
       ((iso3, Some x) ∈ x_latest) /\ ((iso3, Some y) ∈ y_latest)) /\
    (resp_scatter resp = [] \/
     (3 <= length (resp_scatter resp))%nat /\
     resp_n_samples resp = length (resp_scatter resp) /\
     resp_error resp = None).
Proof.
  intros Hwf Hx Hy.
  destruct (get_latest_values_Ok st x_indicator) as [xl Hxl].
  destruct (get_latest_values_Ok st y_indicator) as [yl Hyl].
  pose proof (get_latest_values_NoDup _ _ _ Hwf Hx Hxl) as Hndx.
  pose proof (get_latest_values_NoDup _ _ _ Hwf Hy Hyl) as Hndy.
  unfold get_correlation. rewrite Hxl, bind_Ok, Hyl, bind_Ok.
  rewrite (get_latest_values_empty _ _ _ Hwf Hxl), (get_latest_values_empty _ _ _ Hwf Hyl).
  destruct (_ || _) eqn:Hempty.
  { eexists. exists xl, yl. split; [reflexivity|].
    cbn [resp_x_indicator resp_y_indicator resp_scatter].
    split; [done|]. split; [done|]. split; [done|]. split; [done|].
    split; [done|]. split; [by intros ???? ?%elem_of_nil|]. by left. }
  destruct (combine_series_spec xl yl Hndx Hndy) as (combined & Hcomb & _ & Hmem).
  unfold calculate_correlation. rewrite Hcomb, bind_Ok.
  destruct (Nat.ltb_spec (length combined) 3) as [Hfew|Hmany].
  { rewrite bind_Ok. eexists. exists xl, yl. split; [reflexivity|].
    cbn [resp_x_indicator resp_y_indicator resp_scatter scatter fmap list_fmap].
    split; [done|]. split; [done|]. split; [done|]. split; [done|].
    split; [done|]. split; [by intros ???? ?%elem_of_nil|]. by left. }
  assert (forall iso3 x y name,
            (iso3, x, y, name) ∈
              (fun point : aligned_row => (point, get_country_name st point.1.1))
                <$> combined ->
            name = get_country_name st iso3 /\
            ((iso3, Some x) ∈ xl) /\ ((iso3, Some y) ∈ yl)) as Hpoints.
  { intros iso3 x y name ([[k a] b] & Heq & Hin)%list_elem_of_fmap.
    simpl in Heq. injection Heq as -> -> -> ->.
    apply Hmem in Hin as [Ha Hb]. split; [done|].
    split; by apply dict_get_Some. }
  destruct (pearsonr _ _) as [r|]; rewrite bind_Ok;
    (eexists; exists xl, yl; split; [reflexivity|]);
    cbn [resp_x_indicator resp_y_indicator resp_scatter resp_n_samples resp_error
         scatter n_samples corr_error];
    (split; [done|]; split; [done|]; split; [done|]; split; [done|];
     split; [done|]; split; [exact Hpoints|]; right; rewrite length_fmap;
     unfold aligned_row in *; by split).
Qed.

Lemma correlation_endpoint_cases_witness :
  exists resp,
    get_correlation (fun _ _ => 0%R) demo_collector "gdp_per_capita" "no_such_indicator"
      = Ok resp /\
    resp = CorrelationResponse "gdp_per_capita" "no_such_indicator" StatNone StatNone 0 [] None.
Proof.
  destruct (correlation_endpoint_cases (fun _ _ => 0%R) demo_collector
              "gdp_per_capita" "no_such_indicator" demo_collector_wf)
    as (resp & xl & yl & Hresp & _ & _ & _ & _ & Hempty & _).
  - apply (bool_decide_unpack _). vm_compute. exact I.
  - apply (bool_decide_unpack _). vm_compute. exact I.
  - exists resp. split; [exact Hresp|]. apply Hempty. reflexivity.
Defined.

(** ** Observations on a straight line *)

Section line.
Context {A : Type} (fx fy : A -> Q).
Local Open Scope Q_scope.

Lemma sums_on_line (a b : Q) (l : list A) :
  (forall p, p ∈ l -> fy p == a * fx p + b) ->
  Qsum (fy <$> l) == a * Qsum (fx <$> l) + b * Qnat (length l) /\
  Qsum ((fun p => fx p * fy p) <$> l) ==
    a * Qsum ((fun p => fx p * fx p) <$> l) + b * Qsum (fx <$> l) /\
  Qsum ((fun p => fy p * fy p) <$> l) ==
    a * a * Qsum ((fun p => fx p * fx p) <$> l) + 2 * a * b * Qsum (fx <$> l)
    + b * b * Qnat (length l).
Proof.
  induction l as [|p l IH]; intros Hline.
  - change (Qnat (length [])) with 0. change (Qsum (_ <$> [])) with 0.
    repeat split; ring.
  - destruct IH as (IH1 & IH2 & IH3); [intros q Hq; apply Hline; by right|].
    assert (fy p == a * fx p + b) as Hp by (apply Hline; by left).
    pose proof (Qnat_S (length l)) as Hn.
    rewrite !fmap_cons.
    change (length (p :: l)) with (S (length l)).
    repeat match goal with
           | |- context [Qsum (?q :: ?qs)] => change (Qsum (q :: qs)) with (q + Qsum qs)
           end.
    repeat split.
    + ring [Hp IH1 Hn].
    + ring [Hp IH2 Hn].
    + ring [Hp IH3 Hn].
Qed.

Lemma linregress_on_line pv (l : list A) (a b slope intercept r2 p : Q) :
  (forall q, q ∈ l -> fy q == a * fx q + b) ->
  linregress pv (fx <$> l) (fy <$> l) = Ok (slope, intercept, r2, p) ->
  slope == a /\ intercept == b /\ r2 == (if Qeq_bool a 0 then 0 else 1).
Proof.
  intros Hline. destruct (sums_on_line a b l Hline) as (HSy & HSxy & HSyy).
  unfold linregress.
  destruct (Qeq_bool _ 0) eqn:Hss; [done|].
  apply Qeq_bool_neq in Hss.
  destruct (Qeq_bool (mean ((fun yi => (yi - mean (fy <$> l)) * (yi - mean (fy <$> l)))
                              <$> (fy <$> l))) 0) eqn:Hssy;
    intros [= <- <- <- _];
    [apply Qeq_bool_eq in Hssy|apply Qeq_bool_neq in Hssy];
    revert Hss Hssy; unfold mean;
    rewrite !length_fmap, ?length_zip_with, ?length_fmap, ?Nat.min_id;
    rewrite !centered_squares, ?centered_products;
    revert HSy HSxy HSyy;
    set (n := Qnat (length l));
    set (Sx := Qsum (fx <$> l)); set (Sy := Qsum (fy <$> l));
    set (Sxx := Qsum ((fun p0 => fx p0 * fx p0) <$> l));
    set (Sxy := Qsum ((fun p0 => fx p0 * fy p0) <$> l));
    set (Syy := Qsum ((fun p0 => fy p0 * fy p0) <$> l));
    clearbody n Sx Sy Sxx Sxy Syy; clear;
    intros HSy HSxy HSyy Hss Hssy;
    destruct (centered_nonzero _ _ _ Hss) as [Hn Hx].
  - assert (a * a * (Sxx * n - 2 * Sx * Sx + Sx * Sx) == 0) as Hzero.
    { transitivity ((Syy - 2 * (Sy / n) * Sy + Sy / n * (Sy / n) * n) / n * (n * n));
        [field [HSy HSyy]; done|].
      etransitivity; [apply Qmult_comp; [exact Hssy|reflexivity]|]. ring. }
    apply Qmult_integral in Hzero as [Ha|Hx']; [|done].
    apply Qsquare_zero in Ha.
    assert (Qeq_bool a 0 = true) as -> by (by apply Qeq_eq_bool).
    split; [field [HSy HSxy]; by split|].
    split; [field [HSy HSxy]; by split|]. reflexivity.
  - destruct (centered_nonzero _ _ _ Hssy) as [_ Hy].
    assert (~ a == 0) as Ha.
    { intros Ha. apply Hy.
      transitivity (a * a * (Sxx * n - 2 * Sx * Sx + Sx * Sx)); [ring [HSy HSyy]|].
      ring [Ha]. }
    assert (Qeq_bool a 0 = false) as ->.
    { apply not_true_is_false. intros Ht. by apply Ha, Qeq_bool_eq. }
    split; [field [HSy HSxy]; by split|].
    split; [field [HSy HSxy]; by split|].
    field [HSy HSxy HSyy]. repeat split; try done.
Qed.
End line.

Lemma round_half_even_Qeq (q q' : Q) : (q == q')%Q -> round_half_even q = round_half_even q'.
Proof.
  intros Heq. unfold round_half_even.
  rewrite (Qfloor_comp _ _ Heq).
  assert ((q - inject_Z (Qfloor q') ?= 1 # 2) = (q' - inject_Z (Qfloor q') ?= 1 # 2))%Q
    as ->; [|done].
  apply Qcompare_comp; [|reflexivity].
  apply Qplus_comp; [exact Heq|reflexivity].
Qed.

Lemma py_round_Qeq (q q' : Q) (ndigits : nat) :
  (q == q')%Q -> py_round q ndigits = py_round q' ndigits.
Proof.
  intros Heq. unfold py_round. f_equal. f_equal.
  apply round_half_even_Qeq. by apply Qmult_comp.
Qed.

Lemma elem_of_clean_points {K} (s : Series K) k v :
  (k, v) ∈ clean_points s <-> (k, Some v) ∈ s.
Proof.
  unfold clean_points. rewrite list_elem_of_omap. split.
  - intros ([k' [v'|]] & Hin & Heq); simpl in Heq; [|done].
    by injection Heq as -> ->.
  - intros Hin. by exists (k, Some v).
Qed.

Lemma forecast_trend_regression pv (s : Series Z) target_year :
  NoDup s.*1 -> (3 <= length (clean_points s))%nat ->
  exists slope intercept r2,
    linregress pv ((fun kv : Z * Q => inject_Z kv.1) <$> clean_points s)
               (snd <$> clean_points s) =
    Ok (slope, intercept, r2,
        pv ((fun kv : Z * Q => inject_Z kv.1) <$> clean_points s)
           (snd <$> clean_points s)) /\
    forecast_trend pv s target_year =
    Ok (Forecast target_year
          (py_round (slope * inject_Z target_year + intercept) 4)
          (py_round slope 6) (py_round r2 4)
          (py_round (pv ((fun kv : Z * Q => inject_Z kv.1) <$> clean_points s)
                        (snd <$> clean_points s)) 6)
          (fitted_points slope intercept (clean_points s) ++
           [TrendPoint target_year None
              (py_round (slope * inject_Z target_year + intercept) 4)])).
Proof.
  intros Hnd Hlen. apply clean_points_NoDup in Hnd.
  destruct (linregress_Ok pv (clean_points s) Hnd) as (slope & intercept & r2 & Hlr);
    [lia|].
  exists slope, intercept, r2. split; [exact Hlr|]. unfold forecast_trend.
  destruct (Nat.ltb_spec (length (clean_points s)) 3); [lia|].
  rewrite Hlr. simpl.
  rewrite (mapM_fmap_Ok _ fst
             (fun kv => TrendPoint kv.1 (Some (py_round kv.2 4))
                          (py_round (slope * inject_Z kv.1 + intercept) 4))).
  - done.
  - intros [yr v] Hin. simpl. by rewrite (getitem_NoDup _ yr v).
Qed.



Section line_correlation.
Context {A : Type} (fx fy : A -> Q).

Lemma centered_sum_zero (l : list A) (p1 p2 : A) :
  (Qsum ((fun xi => (xi - mean (fx <$> l)) * (xi - mean (fx <$> l))) <$> (fx <$> l)) == 0)%Q ->
  p1 ∈ l -> p2 ∈ l -> (fx p1 == fx p2)%Q.
Proof.
  intros Hsum Hp1 Hp2. apply Qsum_zero in Hsum.
  2:{ apply Forall_fmap, Forall_forall. intros q _. apply Qsquare_nonneg. }
  rewrite <- list_fmap_compose in Hsum. rewrite Forall_fmap, Forall_forall in Hsum.
  pose proof (Hsum p1 Hp1) as H1. pose proof (Hsum p2 Hp2) as H2.
  simpl in H1, H2. apply Qsquare_zero in H1, H2. Lqa.lra.
Qed.

Lemma pearsonr_on_line (l : list A) (a b : Q) (p1 p2 : A) :
  (forall p, p ∈ l -> fy p == a * fx p + b)%Q ->
  ~ (a == 0)%Q -> p1 ∈ l -> p2 ∈ l -> ~ (fx p1 == fx p2)%Q ->
  pearsonr (fx <$> l) (fy <$> l) = Some (if Qlt_le_dec 0 a then 1 else -1)%R.
Proof.
  intros Hline Ha Hp1 Hp2 Hne.
  destruct (sums_on_line fx fy a b l Hline) as (HSy & HSxy & HSyy).
  assert (~ (Qsum ((fun xi => (xi - mean (fx <$> l)) * (xi - mean (fx <$> l)))
                     <$> (fx <$> l)) == 0)%Q) as Hxx.
  { intros Hsum. apply Hne. by apply (centered_sum_zero l). }
  assert (0 <= Qsum ((fun xi => (xi - mean (fx <$> l)) * (xi - mean (fx <$> l)))
                       <$> (fx <$> l)))%Q as Hxx0.
  { apply Qsum_nonneg, Forall_fmap, Forall_forall. intros q _. apply Qsquare_nonneg. }
  assert (~ (Qnat (length l) == 0)%Q) as Hn.
  { apply Qnat_nonzero. destruct l; [by apply elem_of_nil in Hp1|simpl; lia]. }
  unfold pearsonr.
  set (sxx := Qsum ((fun xi => (xi - mean (fx <$> l)) * (xi - mean (fx <$> l)))%Q
                      <$> (fx <$> l))) in *.
  set (syy := Qsum _). set (sxy := Qsum _).
  assert (sxy == a * sxx /\ syy == a * a * sxx)%Q as [Hxy Hyy].
  { subst sxx syy sxy. unfold mean.
    rewrite !length_fmap.
    rewrite !centered_squares.
    rewrite (centered_products fx fy).
    revert HSy HSxy HSyy Hn.
    set (n := Qnat (length l)).
    set (Sx := Qsum (fx <$> l)). set (Sy := Qsum (fy <$> l)).
    set (Sxx := Qsum ((fun p0 => fx p0 * fx p0)%Q <$> l)).
    set (Sxy := Qsum ((fun p0 => fx p0 * fy p0)%Q <$> l)).
    set (Syy := Qsum ((fun p0 => fy p0 * fy p0)%Q <$> l)).
    clearbody n Sx Sy Sxx Sxy Syy. clear. intros HSy HSxy HSyy Hn.
    split; field [HSy HSxy HSyy]; done. }
  assert (Qeq_bool sxx 0 = false) as ->.
  { apply not_true_is_false. intros Ht. by apply Hxx, Qeq_bool_eq. }
  assert (Qeq_bool syy 0 = false) as ->.
  { apply not_true_is_false. intros Ht%Qeq_bool_eq. apply Hxx.
    assert (a * a * sxx == 0)%Q as Hz by (by rewrite <- Hyy).
    apply Qmult_integral in Hz as [Haa|Hz]; [|done].
    by apply Qsquare_zero in Haa. }
  simpl. f_equal.
  apply Qeq_eqR in Hxy, Hyy. rewrite Hxy, Hyy, !Q2R_mult.
  assert (0 < Q2R sxx)%R as HS.
  { replace 0%R with (Q2R 0) by (unfold Q2R; simpl; lra).
    apply Qlt_Rlt. apply Qle_lteq in Hxx0 as [Hlt|Heq]; [done|].
    exfalso. apply Hxx. by symmetry. }
  set (S := Q2R sxx) in *. set (a' := Q2R a).
  assert (sqrt (a' * a' * S) = Rabs a' * sqrt S)%R as ->.
  { rewrite sqrt_mult; [|nra|lra]. f_equal.
    change (a' * a')%R with (Rsqr a'). apply sqrt_Rsqr_abs. }
  assert (sqrt S * (Rabs a' * sqrt S) = Rabs a' * S)%R as ->.
  { rewrite (Rmult_comm (Rabs a')), <- Rmult_assoc, Rmult_comm.
    f_equal. apply sqrt_sqrt. lra. }
  destruct (Qlt_le_dec 0 a) as [Hpos|Hneg].
  - assert (0 < a')%R as Ha'.
    { replace 0%R with (Q2R 0) by (unfold Q2R; simpl; lra). by apply Qlt_Rlt. }
    rewrite Rabs_pos_eq by lra.
    replace (a' * S / (a' * S))%R with 1%R by (field; lra).
    rewrite Rmin_left by lra. by rewrite Rmax_left by lra.
  - assert (a' < 0)%R as Ha'.
    { replace 0%R with (Q2R 0) by (unfold Q2R; simpl; lra). apply Qlt_Rlt.
      apply Qle_lteq in Hneg as [Hlt|Heq]; [done|]. by exfalso. }
    rewrite Rabs_left by lra.
    replace (a' * S / (- a' * S))%R with (-1)%R by (field; lra).
    rewrite Rmin_left by lra. by rewrite Rmax_left by lra.
Qed.
End line_correlation.

Lemma py_round_R_IZR (z : Z) (ndigits : nat) : py_round_R (IZR z) ndigits = IZR z.
Proof.
  unfold py_round_R.
  replace (IZR z * 10 ^ ndigits)%R with (IZR (z * 10 ^ Z.of_nat ndigits)).
  - rewrite round_half_even_R_IZR, mult_IZR.
    replace (IZR (10 ^ Z.of_nat ndigits)) with (10 ^ ndigits)%R.
    + field. apply pow_nonzero. lra.
    + by rewrite <- pow_IZR.
  - rewrite mult_IZR, <- pow_IZR. done.
Qed.



(** ** Growth between two years *)

(** X23: on a table with a row for every year of a range, the growth table
    for a window of [w >= 1] holds at year [t] the growth between the years
    [t - w] and [t]: [(table[t] / table[t - w]) ^ (1 / w) - 1] when both
    values are present and strictly positive, and nothing otherwise. *)
Theorem growth_rate_between_years np_power df (w : nat) g y0 :
  frame_wf df -> (0 < w)%nat ->
  df_index df = seqZ y0 (Z.of_nat (df_len df)) ->
  compute_growth_rate np_power df (Z.of_nat w) = Ok g ->
  forall t c,
    df_cell g t c =
    growth_cell np_power (Z.of_nat w) (df_cell df t c) (df_cell df (t - Z.of_nat w) c).
Proof.
  intros [Hlen Hwf] Hw Hidx Hg t c.
  unfold compute_growth_rate in Hg.
  destruct (df_empty df || _) eqn:Hsmall.
  - injection Hg as <-. unfold df_cell at 1. simpl.
    apply orb_true_iff in Hsmall as [Hempty|Hshort].
    + unfold df_empty in Hempty. apply orb_true_iff in Hempty as [He|He];
        apply bool_decide_eq_true in He.
      * unfold df_cell. rewrite He. simpl.
        destruct (df_column df c); simpl; by rewrite ?growth_cell_None_l.
      * unfold df_cell, df_column. rewrite He. simpl. by rewrite ?growth_cell_None_l.
    + apply Z.ltb_lt in Hshort. unfold df_cell.
      destruct (df_column df c) as [col|]; simpl; [|done].
      rewrite Hidx, !position_seqZ.
      repeat case_bool_decide; simpl;
        rewrite ?growth_cell_None_l, ?growth_cell_None_r; try done. lia.
  - destruct (Z.eqb_spec (Z.of_nat w) 0) as [|_]; [lia|].
    simpl in Hg. injection Hg as <-.
    unfold df_cell, df_column. simpl.
    destruct (position c (df_columns df)) as [j|]; simpl; [|done].
    rewrite list_lookup_fmap.
    destruct (df_data df !! j) as [col|] eqn:Hcol; simpl; [|done].
    assert (length col = df_len df) as Hcollen.
    { rewrite Forall_forall in Hwf. apply Hwf. by eapply list_elem_of_lookup_2. }
    rewrite Hidx, !position_seqZ.
    case_bool_decide as Ht; simpl; [|done].
    rewrite lookup_zip_with.
    destruct (lookup_lt_is_Some_2 col (Z.to_nat (t - y0))) as [v Hv]; [lia|].
    rewrite Hv. simpl. rewrite (shift_lookup w) by lia.
    case_bool_decide as Htw; simpl.
    + destruct (Nat.ltb_spec (Z.to_nat (t - y0)) w); [lia|].
      replace (Z.to_nat (t - Z.of_nat w - y0)) with (Z.to_nat (t - y0) - w)%nat by lia.
      destruct (lookup_lt_is_Some_2 col (Z.to_nat (t - y0) - w)) as [v' Hv']; [lia|].
      by rewrite Hv'.
    + destruct (Nat.ltb_spec (Z.to_nat (t - y0)) w); [|lia]. simpl.
      by rewrite growth_cell_None_r.
Qed.

Lemma growth_rate_between_years_witness :
  exists g,
    compute_growth_rate (fun x _ => x) yearly_frame 5 = Ok g /\
    df_cell g 2005 "USA" =
      growth_cell (fun x _ => x) 5 (df_cell yearly_frame 2005 "USA")
                  (df_cell yearly_frame (2005 - 5) "USA").
Proof.
  assert (compute_growth_rate (fun x _ => x) yearly_frame 5 =
          Ok (mkDataFrame [2000; 2001; 2002; 2003; 2004; 2005] ["USA"]
                [[None; None; None; None; None; Some 5%Q]])) as Hg
    by (vm_compute; reflexivity).
  assert (frame_wf yearly_frame) as Hwf by (split; [reflexivity|repeat constructor]).
  assert (0 < 5)%nat as Hw by lia.
  eexists. split; [exact Hg|].
  exact (growth_rate_between_years (fun x _ => x) yearly_frame 5 _ 2000 Hwf Hw eq_refl Hg
           2005 "USA").
Defined.

(** ** The cache after the freshness window *)

(** X24: a cache that was written is not used once it is older than the
    maximum age: when the read takes place more than [max_age] hours after
    the write of the file that [_save_cache] produced, it is a miss. *)
Theorem cache_expires max_age dumps loads data w :
  NoDup data.*1 -> meta_key ∉ data.*1 ->
  w_disk_ok w = true ->
  loads (dumps (cache_of (w_clock w (w_ticks w)) (as_entries data))) =
    Some (cache_of (w_clock w (w_ticks w)) (as_entries data)) ->
  (inject_Z max_age < (w_clock w (S (w_ticks w)) - w_clock w (w_ticks w)) / 3600)%Q ->
  (load_cache max_age loads (save_cache dumps (as_entries data) w)).1 = None.
Proof.
  intros Hnd Hmeta Hdisk Hcodec Hold.
  unfold save_cache, load_cache, time_time, write_file. simpl.
  rewrite Hdisk. simpl. rewrite Hcodec, cache_of_meta by done. simpl.
  destruct (Qle_bool _ _) eqn:Hle; [|done].
  apply Qle_bool_iff in Hle. exfalso. by apply (Qlt_not_le _ _ Hold).
Qed.

Lemma cache_expires_witness :
  (load_cache 24 demo_loads
     (save_cache demo_dumps (as_entries demo_data)
        (World (fun n => inject_Z (Z.of_nat n * 100000)) 0 None true demo_provider []))).1
  = None.
Proof.
  apply (cache_expires 24 demo_dumps demo_loads demo_data
           (World (fun n => inject_Z (Z.of_nat n * 100000)) 0 None true demo_provider [])).
  - apply (bool_decide_unpack _). vm_compute. exact I.
  - apply (bool_decide_unpack _). vm_compute. exact I.
  - reflexivity.
  - reflexivity.
  - vm_compute. reflexivity.
Defined.

(** ** The ranking and its cut *)

Lemma take_imap {A B} (f : nat -> A -> B) (l : list A) (k : nat) :
  take k (imap f l) = imap f (take k l).
Proof.
  revert f k. induction l as [|x l IH]; intros f [|k]; try done.
  rewrite imap_cons. simpl. by rewrite IH.
Qed.



(** ** The order of the records *)

Lemma collect_rows_rows records rows0 names0 rows names :
  collect_rows records rows0 names0 = Ok (rows, names) ->
  rows = rows0 ++ omap row_of records /\
  forall rec c d v, rec ∈ records -> surviving rec = Some (c, d, v) ->
                    exists y, py_int d = Ok y.
Proof.
  revert rows0 names0. induction records as [|rec rest IH]; intros rows0 names0; simpl.
  - intros [= <- <-]. split; [by rewrite app_nil_r|]. by intros ???? ?%elem_of_nil.
  - unfold row_of at 1, surviving at 1.
    destruct (_ || _) eqn:Hskip.
    { intros [-> Hparse]%IH. split; [done|].
      intros rec' c d v [->|Hin]%elem_of_cons; [|by eapply Hparse].
      unfold surviving. by rewrite Hskip. }
    destruct (rec_date rec) as [d0|] eqn:Hdate; simpl.
    2:{ intros [-> Hparse]%IH. split; [done|].
        intros rec' c d v [->|Hin]%elem_of_cons; [|by eapply Hparse].
        unfold surviving. by rewrite Hskip, Hdate. }
    destruct (py_int d0) as [y|e] eqn:Hy; simpl; [|done].
    intros [-> Hparse]%IH. split; [by rewrite <- app_assoc|].
    intros rec' c d v [->|Hin]%elem_of_cons; [|by eapply Hparse].
    unfold surviving. rewrite Hskip, Hdate. simpl. intros [= <- <- <-]. eauto.
Qed.

Lemma collect_rows_parses records rows0 names0 :
  (forall rec c d v, rec ∈ records -> surviving rec = Some (c, d, v) ->
                     exists y, py_int d = Ok y) ->
  exists rows names, collect_rows records rows0 names0 = Ok (rows, names).
Proof.
  revert rows0 names0. induction records as [|rec rest IH]; intros rows0 names0 Hparse;
    simpl; [by do 2 eexists|].
  assert (forall rec' c d v, rec' ∈ rest -> surviving rec' = Some (c, d, v) ->
                             exists y, py_int d = Ok y) as Hrest.
  { intros rec' c d v Hin. apply Hparse. by right. }
  destruct (_ || _) eqn:Hskip; [by apply IH|].
  destruct (rec_date rec) as [d0|] eqn:Hdate; simpl; [|by apply IH].
  destruct (Hparse rec (default "" (rec_countryiso3code rec)) d0 (rec_value rec))
    as [y ->]; [by left| |].
  - unfold surviving. by rewrite Hskip, Hdate.
  - simpl. by apply IH.
Qed.

Lemma records_to_dataframe_rows records df names :
  records_to_dataframe records = Ok (df, names) ->
  df = interpolate 3 (pivot_table (omap row_of records)) /\
  forall rec c d v, rec ∈ records -> surviving rec = Some (c, d, v) ->
                    exists y, py_int d = Ok y.
Proof.
  intros (rows & Hrows & ->)%records_to_dataframe_ok.
  destruct (collect_rows_rows _ _ _ _ _ Hrows) as [-> Hparse]. done.
Qed.

Lemma first_value_Some_elem rows y c v :
  first_value rows y c = Some v ->
  exists r, r ∈ rows /\ row_year r = y /\ row_iso3 r = c /\ row_value r = Some v.
Proof.
  unfold first_value. intros (r & Hr & Hv)%head_omap_Some.
  case_bool_decide as Hkey; [|done]. destruct Hkey. eauto.
Qed.

Lemma first_value_consistent rows r v :
  consistent_rows rows -> r ∈ rows -> row_value r = Some v ->
  first_value rows (row_year r) (row_iso3 r) = Some v.
Proof.
  intros Hcons Hr Hv.
  destruct (first_value rows (row_year r) (row_iso3 r)) as [v'|] eqn:Hfirst.
  - apply first_value_Some_elem in Hfirst as (r' & Hr' & Hy & Hc & Hv').
    f_equal. by eapply (Hcons r' r).
  - exfalso. unfold first_value in Hfirst.
    apply list_elem_of_lookup in Hr as [i Hi].
    apply (take_drop_middle rows i r) in Hi. rewrite <- Hi in Hfirst.
    rewrite omap_app in Hfirst. simpl in Hfirst.
    rewrite bool_decide_eq_true_2, Hv in Hfirst by done. simpl in Hfirst.
    destruct (omap _ (take i rows)); discriminate Hfirst.
Qed.

Lemma first_value_perm rows rows' y c :
  rows ≡ₚ rows' -> consistent_rows rows ->
  first_value rows y c = first_value rows' y c.
Proof.
  intros Hperm Hcons.
  assert (consistent_rows rows') as Hcons'.
  { intros r1 r2 v1 v2 H1 H2. rewrite <- Hperm in H1, H2. by apply Hcons. }
  destruct (first_value rows y c) as [v|] eqn:H1.
  - apply first_value_Some_elem in H1 as (r & Hr & <- & <- & Hv).
    symmetry. apply first_value_consistent; [done| |done]. by rewrite <- Hperm.
  - destruct (first_value rows' y c) as [v'|] eqn:H2; [|done].
    apply first_value_Some_elem in H2 as (r & Hr & <- & <- & Hv).
    rewrite (first_value_consistent rows r v') in H1; [done|done| |done].
    by rewrite Hperm.
Qed.

Lemma sorted_labels_perm {A} (R : relation A) `{!forall x y, Decision (R x y)}
    `{!Transitive R} `{!AntiSymm (=) R} `{!Total R} `{!EqDecision A} (l l' : list A) :
  l ≡ₚ l' -> merge_sort R (remove_dups l) = merge_sort R (remove_dups l').
Proof.
  intros Hperm. apply (Sorted_unique R).
  - apply Sorted_merge_sort; apply _.
  - apply Sorted_merge_sort; apply _.
  - rewrite !merge_sort_Permutation.
    apply NoDup_Permutation; [apply NoDup_remove_dups..|].
    intros x. by rewrite !elem_of_remove_dups, Hperm.
Qed.

Lemma pivot_table_perm rows rows' :
  rows ≡ₚ rows' -> consistent_rows rows -> pivot_table rows = pivot_table rows'.
Proof.
  intros Hperm Hcons. unfold pivot_table.
  assert (filter (fun r => is_Some (row_value r)) rows ≡ₚ
          filter (fun r => is_Some (row_value r)) rows') as Hkept by (by rewrite Hperm).
  rewrite (sorted_labels_perm Z.le (row_year <$> _) (row_year <$> _))
    by (by rewrite Hkept).
  rewrite (sorted_labels_perm String.le (row_iso3 <$> _) (row_iso3 <$> _))
    by (by rewrite Hkept).
  f_equal. apply list_fmap_ext. intros _ c _. apply list_fmap_ext. intros _ y _.
  by apply first_value_perm.
Qed.

(** X26: when the records of one year and country that carry a value all
    carry the same one, the table does not depend on the order in which the
    provider lists the records. *)
Theorem table_independent_of_record_order records records' df names :
  records ≡ₚ records' ->
  (forall rec1 rec2 c d1 d2 v1 v2 y,
     rec1 ∈ records -> rec2 ∈ records ->
     surviving rec1 = Some (c, d1, Some v1) -> surviving rec2 = Some (c, d2, Some v2) ->
     py_int d1 = Ok y -> py_int d2 = Ok y -> v1 = v2) ->
  records_to_dataframe records = Ok (df, names) ->
  exists names', records_to_dataframe records' = Ok (df, names').
Proof.
  intros Hperm Hsame Hok.
  destruct (records_to_dataframe_rows _ _ _ Hok) as [-> Hparse].
  assert (consistent_rows (omap row_of records)) as Hcons.
  { intros r1 r2 v1 v2 (rec1 & H1 & Hr1)%list_elem_of_omap
      (rec2 & H2 & Hr2)%list_elem_of_omap Hy Hc Hv1 Hv2.
    unfold row_of in Hr1, Hr2.
    destruct (surviving rec1) as [[[c1 d1] w1]|] eqn:Hs1; [|done].
    destruct (surviving rec2) as [[[c2 d2] w2]|] eqn:Hs2; [|done].
    destruct (py_int d1) as [y1|] eqn:Hd1; [|done].
    destruct (py_int d2) as [y2|] eqn:Hd2; [|done].
    injection Hr1 as <-. injection Hr2 as <-. simpl in *. subst.
    by eapply (Hsame rec1 rec2 c2 d1 d2 v1 v2 y2). }
  destruct (collect_rows_parses records' [] ∅) as (rows' & names' & Hrows').
  { intros rec c d v Hin. apply Hparse. by rewrite Hperm. }
  destruct (collect_rows_rows _ _ _ _ _ Hrows') as [Heq _]. simpl in Heq. subst rows'.
  assert (omap row_of records ≡ₚ omap row_of records') as Hrows by (by rewrite Hperm).
  assert (records_to_dataframe records' =
          Ok (interpolate 3 (pivot_table (omap row_of records')),
              match records' with [] => ∅ | _ => names' end)) as Hres.
  { unfold records_to_dataframe. destruct records' as [|rec recs]; [done|].
    rewrite Hrows', bind_Ok.
    destruct (omap row_of (rec :: recs)) as [|r rs] eqn:Hr; [done|].
    rewrite <- Hr. unfold sort_index.
    pose proof (sort_index_sorted (pivot_table (omap row_of (rec :: recs)))
                  (pivot_wf _) (pivot_index_sorted _) (pivot_index_NoDup _)) as Hsort.
    unfold sort_index in Hsort. by rewrite Hsort. }
  eexists. rewrite Hres. by rewrite (pivot_table_perm _ _ Hrows Hcons).
Qed.

Lemma table_independent_of_record_order_witness :
  exists names',
    records_to_dataframe
      [mk_record "USA" "2002" (Some 20%Q); mk_record "USA" "2000" (Some 10%Q)] =
    Ok (mkDataFrame [2000; 2002] ["USA"] [[Some 10%Q; Some 20%Q]], names').
Proof.
  apply (table_independent_of_record_order
           [mk_record "USA" "2000" (Some 10%Q); mk_record "USA" "2002" (Some 20%Q)]
           _ _ {["USA" := "USA"]}).
  - apply perm_swap.
  - intros rec1 rec2 c d1 d2 v1 v2 y H1 H2 Hs1 Hs2 Hd1 Hd2.
    apply elem_of_cons in H1 as [->|H1]; [|apply list_elem_of_singleton in H1 as ->];
      (apply elem_of_cons in H2 as [->|H2]; [|apply list_elem_of_singleton in H2 as ->]);
      vm_compute in Hs1, Hs2; injection Hs1 as <- <- <-; injection Hs2 as <- <-;
      vm_compute in Hd1, Hd2; congruence.
  - vm_compute. reflexivity.
Defined.
